(** * pylon-mcp: filter sanitization and response projection

    A shallow embedding of the filter sanitizer of [src/pylon-client.ts]
    ([validateTimeRange], [validateFilterTimeRanges], [cleanFilter] and the
    three search methods of [PylonClient]), of the response projector of
    [src/schemas.ts] ([stripHtmlAndTruncate], the identifier extractors and
    the issue, account and contact views) and of the table rendering and
    the body tool of [src/index.ts].

    Conventions of the embedding.
    - A JavaScript value that comes from JSON is a [jsval].  Numbers are the
      integers the program handles (issue numbers, lengths, millisecond
      time values).
    - A string is a sequence of code units; the code units modelled are the
      256 values of [ascii] (code unit [n] is the character of code [n]).
    - An object is the list of its own properties in the order
      [Object.entries] yields them.  [obj_set] defines an own property: it
      overwrites an existing property in place and adds a new one at the
      end.  The program fills an object in the order in which it
      enumerates another one, so the order of enumeration is kept.
    - The objects of the program are plain objects, whose prototype is
      [Object.prototype].  Where the program reads or writes a property
      under a name that comes from its input, the members of
      [Object.prototype] count: [VALID_OPERATORS[fieldName]] is a member of
      [Object.prototype] under an inherited name ([constructor],
      [toString], [__proto__], ...), and the assignment
      [result['__proto__'] = v] ([obj_assign]) runs the setter of
      [Object.prototype] and defines no own property.
    - [new Date], [toFixed] and [fetch] are parameters of the definitions
      that call them. *)

From Stdlib Require Import List String Ascii ZArith Lia Bool DecimalString.
Import ListNotations.
Open Scope string_scope.
Set Warnings "-register-all".
Set Default Goal Selector "!".

(* ================================================================== *)
(** ** JavaScript values *)
(* ================================================================== *)

Module JS.

Inductive jsval : Type :=
| JUndefined
| JNull
| JBool (b : bool)
| JNum (n : Z)
| JStr (s : string)
| JArr (items : list jsval)
| JObj (entries : list (string * jsval)).

Definition obj : Type := list (string * jsval).

(** [Object.keys(o)] *)
Definition keys (o : obj) : list string := map fst o.

(** [o[k]]: the value of the property, [undefined] when there is none. *)
Fixpoint get (o : obj) (k : string) : jsval :=
  match o with
  | [] => JUndefined
  | (k', v) :: rest => if String.eqb k' k then v else get rest k
  end.

(** [o[k] = v] for a name [k] other than [__proto__]: the property is
    defined on [o] itself (every member of [Object.prototype] but
    [__proto__] is a writable data property, which an assignment
    shadows). *)
Fixpoint obj_set (o : obj) (k : string) (v : jsval) : obj :=
  match o with
  | [] => [(k, v)]
  | (k', v') :: rest =>
      if String.eqb k' k then (k', v) :: rest else (k', v') :: obj_set rest k v
  end.

(** The names of the members of [Object.prototype], which every plain
    object inherits: those of the language and the accessors of its
    Annex B, which the engine provides. *)
Definition Object_prototype : list string :=
  [ "constructor"; "__defineGetter__"; "__defineSetter__"; "hasOwnProperty";
    "__lookupGetter__"; "__lookupSetter__"; "isPrototypeOf";
    "propertyIsEnumerable"; "toString"; "valueOf"; "__proto__"; "toLocaleString" ].

(** [k] names a member of [Object.prototype]. *)
Definition inherited (k : string) : bool := existsb (String.eqb k) Object_prototype.

(** [o[k] = v] on a plain object, for any name [k].  The name [__proto__]
    is the accessor of [Object.prototype]: its setter changes the prototype
    of [o] when [v] is an object or an array and does nothing otherwise;
    either way [o] gets no own property, and [Object.keys], [Object.entries]
    and [JSON.stringify], which see own properties only, see no change. *)
Definition obj_assign (o : obj) (k : string) (v : jsval) : obj :=
  if String.eqb k "__proto__" then o else obj_set o k v.

(** An object literal [{k1: v1, ..., kn: vn}], and the spread
    [{...o, k1: v1, ...}] as [obj_extend o [...]]. *)
Definition obj_extend (o : obj) (props : list (string * jsval)) : obj :=
  fold_left (fun acc kv => obj_set acc (fst kv) (snd kv)) props o.

Definition obj_literal (props : list (string * jsval)) : obj :=
  obj_extend [] props.

(** JavaScript truthiness ([!v] is [negb (truthy v)]). *)
Definition truthy (v : jsval) : bool :=
  match v with
  | JUndefined | JNull => false
  | JBool b => b
  | JNum n => negb (Z.eqb n 0)
  | JStr s => negb (String.eqb s "")
  | JArr _ | JObj _ => true
  end.

(** [v === undefined || v === null] *)
Definition nullish (v : jsval) : bool :=
  match v with
  | JUndefined | JNull => true
  | _ => false
  end.

(** [a ?? b] *)
Definition nullish_or (a b : jsval) : jsval := if nullish a then b else a.

(** [v?.k] for a value read out of a JSON document, which is also [v.k]
    on a truthy [v]: [undefined] on [null] and [undefined], the property of
    an object, and [undefined] on every other value (strings, numbers,
    booleans and arrays have no property [id], [start], [end], [limit] or
    [cursor]). *)
Definition opt_prop (v : jsval) (k : string) : jsval :=
  match v with
  | JObj o => get o k
  | _ => JUndefined
  end.

(** `${v}` and [String(v)]: the string a value converts to.  An array
    converts to its elements joined by commas, [null] and [undefined]
    elements to the empty string; a plain object to [[object Object]]. *)
Fixpoint template (v : jsval) : string :=
  match v with
  | JUndefined => "undefined"
  | JNull => "null"
  | JBool true => "true"
  | JBool false => "false"
  | JNum n => NilZero.string_of_int (Z.to_int n)
  | JStr s => s
  | JArr items =>
      (fix join_items (l : list jsval) : string :=
         match l with
         | [] => ""
         | [x] => if nullish x then "" else template x
         | x :: rest => (if nullish x then "" else template x) ++ "," ++ join_items rest
         end) items
  | JObj _ => "[object Object]"
  end.

(** Exceptions: [new Error(message)] and the [TypeError] of the runtime. *)
Inductive exn : Type :=
| Error (message : string)
| TypeError (message : string).

Definition message_of (e : exn) : string :=
  match e with
  | Error m | TypeError m => m
  end.

(** The outcome of a call that may throw. *)
Inductive result (A : Type) : Type :=
| Ok (a : A)
| Throw (e : exn).
Arguments Ok {A} a.
Arguments Throw {A} e.

Definition bind {A B : Type} (r : result A) (k : A -> result B) : result B :=
  match r with
  | Ok a => k a
  | Throw e => Throw e
  end.

(** [for (const x of xs) body(x)]: stops at the first exception. *)
Fixpoint for_of {A : Type} (body : A -> result unit) (xs : list A) : result unit :=
  match xs with
  | [] => Ok tt
  | x :: rest => bind (body x) (fun _ => for_of body rest)
  end.

(** [for (const x of xs) acc = body(acc, x)], from [acc]: a loop that
    fills [acc] and stops at the first exception. *)
Section ForOfInto.

Variables (A B : Type) (body : B -> A -> result B).

Fixpoint for_of_into (xs : list A) (acc : B) : result B :=
  match xs with
  | [] => Ok acc
  | x :: rest => bind (body acc x) (for_of_into rest)
  end.

End ForOfInto.
Arguments for_of_into {A B} body xs acc.

(** The value after one iteration of such a loop, where the iteration
    returns; the value before it, where it throws. *)
Definition settled {A B : Type} (body : B -> A -> result B) (acc : B) (x : A) : B :=
  match body acc x with
  | Ok acc' => acc'
  | Throw _ => acc
  end.

(** [v[k]] on an arbitrary value: a [TypeError] on [null] and [undefined];
    on the other non-objects the names the program reads ([data],
    [body_html], [number], [start], [end]) are not properties. *)
Definition prop (v : jsval) (k : string) : result jsval :=
  match v with
  | JUndefined => Throw (TypeError ("Cannot read properties of undefined (reading '" ++ k ++ "')"))
  | JNull => Throw (TypeError ("Cannot read properties of null (reading '" ++ k ++ "')"))
  | JObj o => Ok (get o k)
  | _ => Ok JUndefined
  end.

End JS.
Export JS.

(* ================================================================== *)
(** ** Strings and the string methods the program calls *)
(* ================================================================== *)

Module Str.

Definition chr (n : nat) : ascii := ascii_of_nat n.

Definition LT : ascii := "<"%char.
Definition GT : ascii := ">"%char.
Definition PIPE : ascii := "|"%char.
Definition BACKSLASH : ascii := chr 92.
Definition SPACE : ascii := " "%char.
Definition NEWLINE : ascii := chr 10.

(** The newline as a string, as in the template literals of index.ts. *)
Definition nl : string := String NEWLINE "".

(** The class [\s] of a regular expression, which is also what [trim]
    removes: tab, line feed, vertical tab, form feed, carriage return,
    space and no-break space (the members below code 256). *)
Definition is_space (c : ascii) : bool :=
  let n := nat_of_ascii c in
  (Nat.eqb n 9 || Nat.eqb n 10 || Nat.eqb n 11 || Nat.eqb n 12 || Nat.eqb n 13
   || Nat.eqb n 32 || Nat.eqb n 160)%bool.

(** [s.includes(c)] for a single character. *)
Fixpoint contains (c : ascii) (s : string) : bool :=
  match s with
  | EmptyString => false
  | String d r => Ascii.eqb d c || contains c r
  end.

(** The first [n] characters. *)
Fixpoint take (n : nat) (s : string) : string :=
  match n, s with
  | S m, String c r => String c (take m r)
  | _, _ => EmptyString
  end.

(** [s.slice(0, e)] for an integer [e]: a negative end counts from the end
    of the string. *)
Definition slice0 (s : string) (e : Z) : string :=
  let len := Z.of_nat (String.length s) in
  let fin := if (e <? 0)%Z then Z.max (len + e) 0 else Z.min e len in
  take (Z.to_nat fin) s.

(** [s.replace(/<[^>]*>/g, ' ')].  A match starts at a [<] that has a [>]
    somewhere after it and ends at the first such [>] (the class [[^>]]
    also matches line breaks and [<]); the scan resumes after the match.
    [in_tag] says that the scan is inside a match, whose [>] is still to
    come. *)
Fixpoint replace_tags_from (in_tag : bool) (s : string) : string :=
  match s with
  | EmptyString => EmptyString
  | String c r =>
      if in_tag then
        if Ascii.eqb c GT then replace_tags_from false r
        else replace_tags_from true r
      else if Ascii.eqb c LT && contains GT r
      then String SPACE (replace_tags_from true r)
      else String c (replace_tags_from false r)
  end.

Definition replace_tags (s : string) : string := replace_tags_from false s.

(** [s.replace(/\s+/g, ' ')]: every maximal run of white space becomes one
    space.  [in_run] says that the previous character was white space. *)
Fixpoint collapse_ws_from (in_run : bool) (s : string) : string :=
  match s with
  | EmptyString => EmptyString
  | String c r =>
      if is_space c then
        if in_run then collapse_ws_from true r
        else String SPACE (collapse_ws_from true r)
      else String c (collapse_ws_from false r)
  end.

Definition collapse_ws (s : string) : string := collapse_ws_from false s.

(** [s.trim()] *)
Fixpoint trim_start (s : string) : string :=
  match s with
  | EmptyString => EmptyString
  | String c r => if is_space c then trim_start r else s
  end.

Fixpoint trim_end (s : string) : string :=
  match s with
  | EmptyString => EmptyString
  | String c r =>
      match trim_end r with
      | EmptyString => if is_space c then EmptyString else String c EmptyString
      | r' => String c r'
      end
  end.

Definition trim (s : string) : string := trim_end (trim_start s).

(** [s.replace(/c/g, by)] for a single character [c]. *)
Fixpoint replace_char (c : ascii) (by_ : string) (s : string) : string :=
  match s with
  | EmptyString => EmptyString
  | String d r =>
      if Ascii.eqb d c then by_ ++ replace_char c by_ r
      else String d (replace_char c by_ r)
  end.

(** [s.split(c)[0]]: the part before the first [c], all of [s] when it has
    none. *)
Fixpoint before_first (c : ascii) (s : string) : string :=
  match s with
  | EmptyString => EmptyString
  | String d r => if Ascii.eqb d c then EmptyString else String d (before_first c r)
  end.

(** [parts.join(sep)] for an array of strings. *)
Fixpoint join (sep : string) (parts : list string) : string :=
  match parts with
  | [] => EmptyString
  | [x] => x
  | x :: rest => x ++ sep ++ join sep rest
  end.

(** [String(n)] for an integer. *)
Definition of_Z (n : Z) : string := NilZero.string_of_int (Z.to_int n).

Definition of_nat (n : nat) : string := of_Z (Z.of_nat n).

(** The text a tag match can be found in: some [<] with a [>] after it. *)
Fixpoint has_tag (s : string) : bool :=
  match s with
  | EmptyString => false
  | String c r => (Ascii.eqb c LT && contains GT r) || has_tag r
  end.

(** Two white-space characters in a row. *)
Fixpoint has_ws_run (s : string) : bool :=
  match s with
  | String c ((String d _) as r) => (is_space c && is_space d) || has_ws_run r
  | _ => false
  end.

(** Every white-space character is the plain space. *)
Fixpoint ws_is_space (s : string) : bool :=
  match s with
  | EmptyString => true
  | String c r => (negb (is_space c) || Ascii.eqb c SPACE) && ws_is_space r
  end.

Definition starts_with_ws (s : string) : bool :=
  match s with
  | String c _ => is_space c
  | EmptyString => false
  end.

Fixpoint ends_with_ws (s : string) : bool :=
  match s with
  | EmptyString => false
  | String c EmptyString => is_space c
  | String _ r => ends_with_ws r
  end.

(** [new URLSearchParams()] after calls of [set] with distinct names, and
    its [toString()]: the pairs in the order they were set, each name and
    value in the [application/x-www-form-urlencoded] form.  A space becomes
    [+]; letters, digits and [*], [-], [.], [_] stay; every other byte of
    the UTF-8 form becomes [%] and two upper-case hexadecimal digits (a
    code unit from 128 to 255 has two bytes). *)
Definition hex_digit (n : nat) : ascii :=
  if Nat.ltb n 10 then chr (48 + n) else chr (55 + n).

Definition percent_byte (n : nat) : string :=
  String "%"%char (String (hex_digit (n / 16)) (String (hex_digit (n mod 16)) "")).

Definition url_unreserved (n : nat) : bool :=
  (Nat.leb 48 n && Nat.leb n 57) || (Nat.leb 65 n && Nat.leb n 90)
  || (Nat.leb 97 n && Nat.leb n 122)
  || Nat.eqb n 42 || Nat.eqb n 45 || Nat.eqb n 46 || Nat.eqb n 95.

Definition urlencode_unit (c : ascii) : string :=
  let n := nat_of_ascii c in
  if Nat.eqb n 32 then "+"
  else if url_unreserved n then String c ""
  else if Nat.ltb n 128 then percent_byte n
  else percent_byte (192 + n / 64) ++ percent_byte (128 + n mod 64).

Fixpoint urlencode (s : string) : string :=
  match s with
  | EmptyString => EmptyString
  | String c r => urlencode_unit c ++ urlencode r
  end.

Definition URLSearchParams_toString (params : list (string * string)) : string :=
  join "&" (map (fun kv => urlencode (fst kv) ++ "=" ++ urlencode (snd kv)) params).

(** The occurrences of a character. *)
Fixpoint count_char (c : ascii) (s : string) : nat :=
  match s with
  | EmptyString => 0
  | String d r => ((if Ascii.eqb d c then 1 else 0) + count_char c r)%nat
  end.

End Str.

(* ================================================================== *)
(** ** src/pylon-client.ts: the filter sanitizer *)
(* ================================================================== *)

Module PylonClient.

(** [VALID_OPERATORS]: the operators each known field accepts. *)
Definition time_ops : list string := ["time_is_after"; "time_is_before"; "time_range"].
Definition id_ops : list string := ["equals"; "in"; "not_in"].
Definition id_set_ops : list string := ["equals"; "in"; "not_in"; "is_set"; "is_unset"].

Definition VALID_OPERATORS_table : list (string * list string) :=
  [ ("created_at", time_ops);
    ("resolved_at", time_ops);
    ("latest_message_activity_at", time_ops);
    ("title", ["string_contains"; "string_does_not_contain"]);
    ("id", id_ops);
    ("account_id", id_set_ops);
    ("requester_id", id_set_ops);
    ("assignee_id", id_set_ops);
    ("team_id", id_set_ops);
    ("ticket_form_id", id_set_ops);
    ("follower_user_id", id_ops);
    ("follower_contact_id", id_ops);
    ("state", id_ops);
    ("issue_type", id_ops);
    ("tags", ["contains"; "does_not_contain"; "in"; "not_in"]);
    ("domains", ["contains"; "does_not_contain"]);
    ("name", ["equals"; "string_contains"]);
    ("external_ids", id_set_ops);
    ("email", ["equals"; "string_contains"; "in"; "not_in"]) ].

(** The own property [fieldName] of [VALID_OPERATORS]: the set the table
    declares for the field, [None] when it declares none. *)
Fixpoint lookup_ops (t : list (string * list string)) (fieldName : string)
  : option (list string) :=
  match t with
  | [] => None
  | (k, ops) :: rest => if String.eqb k fieldName then Some ops else lookup_ops rest fieldName
  end.

Definition VALID_OPERATORS (fieldName : string) : option (list string) :=
  lookup_ops VALID_OPERATORS_table fieldName.

(** [validOperators.has(op)] *)
Definition Set_has (validOperators : list string) (op : string) : bool :=
  existsb (String.eqb op) validOperators.

(** The inner loop of [cleanFilter] over the operators of a known field:
    an operator is copied when the field's set has it and its value is
    neither [undefined] nor [null] (the two branches on [time_range] store
    the same value). *)
Definition cleanOperator (validOperators : list string) (cleanedOperators : obj)
  (entry : string * jsval) : obj :=
  let (op, opValue) := entry in
  if Set_has validOperators op && negb (nullish opValue)
  then obj_assign cleanedOperators op opValue
  else cleanedOperators.

Definition cleanOperators (validOperators : list string) (fieldObj : obj) : obj :=
  fold_left (cleanOperator validOperators) fieldObj [].

(** The same loop where [validOperators] is a member of [Object.prototype]
    (a function, or [Object.prototype] itself under [__proto__]): it is
    truthy and has no method [has], so the call [validOperators.has(op)] of
    the first iteration throws; over an object without entries the loop
    does nothing. *)
Definition has_of_inherited (entry : string * jsval) : result unit :=
  Throw (TypeError "validOperators.has is not a function").

(** One iteration of the outer loop of [cleanFilter]; [recur] is
    [cleanFilter] itself, applied to the field's value when that value is
    an object of an unknown field.  [VALID_OPERATORS[fieldName]] is the set
    the table declares for the name, a member of [Object.prototype] when
    the name is inherited, and [undefined] otherwise. *)
Definition cleanField (recur : jsval -> result (option obj)) (result : obj)
  (entry : string * jsval) : JS.result obj :=
  let (fieldName, fieldValue) := entry in
  match fieldValue with
  | JUndefined | JNull => Ok result
  | JObj fieldObj =>
      match VALID_OPERATORS fieldName with
      | Some validOperators =>
          let cleanedOperators := cleanOperators validOperators fieldObj in
          if (0 <? List.length (keys cleanedOperators))%nat
          then Ok (obj_assign result fieldName (JObj cleanedOperators))
          else Ok result
      | None =>
          if inherited fieldName then
            bind (for_of has_of_inherited fieldObj) (fun _ => Ok result)
          else
            bind (recur fieldValue) (fun cleaned =>
            match cleaned with
            | Some cleaned =>
                if (0 <? List.length (keys cleaned))%nat
                then Ok (obj_assign result fieldName (JObj cleaned))
                else Ok result
            | None => Ok result
            end)
      end
  | _ => Ok (obj_assign result fieldName fieldValue)
  end.

(** [cleanFilter] on the value that holds the object: the recursion is on
    the JSON value, so that the recursive call on a field's object is a
    call on a part of the argument. *)
Fixpoint cleanFilter_value (v : jsval) : result (option obj) :=
  match v with
  | JObj entries =>
      bind (for_of_into (cleanField cleanFilter_value) entries []) (fun result =>
      Ok (if (0 <? List.length (keys result))%nat then Some result else None))
  | _ => Ok None
  end.

(** [cleanFilter(obj)]: [Ok None] is the return of [undefined], [Throw] an
    exception. *)
Definition cleanFilter (o : obj) : result (option obj) := cleanFilter_value (JObj o).

(** *** Time ranges *)

(** Pylon API allows max 30 days for time range queries. *)
Definition MAX_TIME_RANGE_DAYS : Z := 30.
Definition MS_PER_DAY : Z := 24 * 60 * 60 * 1000.

Section TimeRange.

(** [new Date(v).getTime()]: the time value in milliseconds since the
    epoch, [None] when it is [NaN] (the date did not parse). *)
Variable new_Date : jsval -> option Z.

(** [(ms / MS_PER_DAY).toFixed(1)] for a difference [ms] of two time
    values: the span in days with one decimal. *)
Variable toFixed1 : Z -> string.

(** [validateTimeRange(startTime, endTime)].  Time values are integers, so
    [diffDays > MAX_TIME_RANGE_DAYS], with
    [diffDays = (end - start) / MS_PER_DAY], holds exactly when
    [end - start] exceeds [MAX_TIME_RANGE_DAYS * MS_PER_DAY]. *)
Definition validateTimeRange (startTime endTime : jsval) : result unit :=
  match new_Date startTime, new_Date endTime with
  | None, _ =>
      Throw (Error ("Invalid start_time format: " ++ template startTime
                    ++ ". Use RFC3339 format (e.g., 2024-01-01T00:00:00Z)"))
  | Some _, None =>
      Throw (Error ("Invalid end_time format: " ++ template endTime
                    ++ ". Use RFC3339 format (e.g., 2024-01-31T00:00:00Z)"))
  | Some start, Some end_ =>
      if (start >=? end_)%Z then Throw (Error "start_time must be before end_time")
      else
        let diff := (end_ - start)%Z in
        if (diff >? MAX_TIME_RANGE_DAYS * MS_PER_DAY)%Z then
          Throw (Error ("Time range cannot exceed " ++ Str.of_Z MAX_TIME_RANGE_DAYS
                        ++ " days. Requested: " ++ toFixed1 diff
                        ++ " days. Try a shorter range like 28 days."))
        else Ok tt
  end.

(** The body of the loop of [validateFilterTimeRanges] for one entry. *)
Definition validateFieldTimeRange (entry : string * jsval) : result unit :=
  let (fieldName, fieldValue) := entry in
  match fieldValue with
  | JObj fieldObj =>
      let timeRange := get fieldObj "time_range" in
      if truthy timeRange then
        let start := opt_prop timeRange "start" in
        let end_ := opt_prop timeRange "end" in
        if truthy start && truthy end_ then
          match validateTimeRange start end_ with
          | Ok _ => Ok tt
          | Throw error =>
              Throw (Error ("Invalid time_range for " ++ fieldName ++ ": "
                            ++ message_of error))
          end
        else Ok tt
      else Ok tt
  | _ => Ok tt
  end.

(** [validateFilterTimeRanges(filter)] *)
Definition validateFilterTimeRanges (filter : obj) : result unit :=
  for_of validateFieldTimeRange filter.

End TimeRange.

(** *** The client *)

(** One call of [fetch]: the method, the path after [PYLON_API_BASE] and
    the value whose [JSON.stringify] is the body ([None]: no body). *)
Record http_call : Type := {
  call_method : string;
  call_path : string;
  call_body : option jsval
}.

(** What [fetch] resolves to: [response.ok], the status line, the text of
    an error body and the value [response.json()] resolves to. *)
Record response : Type := {
  resp_ok : bool;
  resp_status : string;
  resp_statusText : string;
  resp_text : string;
  resp_json : jsval
}.

(** What a method of the client leaves behind: the calls of [fetch] it
    made, oldest first, and the lines it wrote with [console.error], each
    as its label and the value given to [JSON.stringify]. *)
Record effects : Type := {
  http : list http_call;
  stderr : list (string * jsval)
}.

Definition no_effects : effects := {| http := []; stderr := [] |}.

(** A method of the client: from the effects so far to its outcome and the
    effects after it. *)
Definition M (A : Type) : Type := effects -> result A * effects.

Definition ret {A : Type} (a : A) : M A := fun w => (Ok a, w).

Definition throw {A : Type} (e : exn) : M A := fun w => (Throw e, w).

Definition mbind {A B : Type} (m : M A) (k : A -> M B) : M B :=
  fun w =>
    match m w with
    | (Ok a, w') => k a w'
    | (Throw e, w') => (Throw e, w')
    end.

(** A call that only computes, or throws. *)
Definition lift {A : Type} (r : result A) : M A := fun w => (r, w).

Definition console_error (label : string) (v : jsval) : M unit :=
  fun w => (Ok tt, {| http := http w; stderr := stderr w ++ [(label, v)] |}).

Notation "x <- m ;; k" := (mbind m (fun x => k))
  (at level 61, m at next level, right associativity).
Notation "m ;;; k" := (mbind m (fun _ => k))
  (at level 61, right associativity).

Section Client.

Variable new_Date : jsval -> option Z.
Variable toFixed1 : Z -> string.

(** The remote service behind [fetch]: its answer to a call, given the
    calls made before it. *)
Variable fetch : list http_call -> http_call -> result response.

(** [this.request(method, path, body)]; a body is sent when it is truthy,
    which every object is. *)
Definition request (method path : string) (body : option jsval) : M jsval :=
  fun w =>
    let call := {| call_method := method; call_path := path;
                   call_body := match body with
                                | Some b => if truthy b then Some b else None
                                | None => None
                                end |} in
    let w' := {| http := http w ++ [call]; stderr := stderr w |} in
    match fetch (http w) call with
    | Throw e => (Throw e, w')
    | Ok resp =>
        if resp_ok resp then (Ok (resp_json resp), w')
        else (Throw (Error ("Pylon API error: " ++ resp_status resp ++ " "
                            ++ resp_statusText resp ++ " - " ++ resp_text resp)), w')
    end.

(** The body of the three search requests: [cleanedFilter ?? {}] with the
    pagination parameters [params?.limit] and [params?.cursor]. *)
Definition search_body (cleanedFilter : option obj) (params : jsval) : jsval :=
  JObj [ ("filter", JObj (match cleanedFilter with Some f => f | None => [] end));
         ("limit", opt_prop params "limit");
         ("cursor", opt_prop params "cursor") ].

Definition undefined_or (cleanedFilter : option obj) : jsval :=
  match cleanedFilter with
  | Some f => JObj f
  | None => JUndefined
  end.

(** [searchAccounts(filter, params)] *)
Definition searchAccounts (filter : obj) (params : jsval) : M jsval :=
  cleanedFilter <- lift (cleanFilter filter) ;;
  request "POST" "/accounts/search" (Some (search_body cleanedFilter params)).

(** [searchContacts(filter, params)] *)
Definition searchContacts (filter : obj) (params : jsval) : M jsval :=
  cleanedFilter <- lift (cleanFilter filter) ;;
  request "POST" "/contacts/search" (Some (search_body cleanedFilter params)).

(** [searchIssues(filter, params)] *)
Definition searchIssues (filter : obj) (params : jsval) : M jsval :=
  let filterRecord := filter in
  lift (validateFilterTimeRanges new_Date toFixed1 filterRecord) ;;;
  cleanedFilter <- lift (cleanFilter filterRecord) ;;
  console_error "[pylon-mcp] searchIssues raw:" (JObj filterRecord) ;;;
  console_error "[pylon-mcp] searchIssues cleaned:"
    (nullish_or (undefined_or cleanedFilter) (JObj [])) ;;;
  request "POST" "/issues/search" (Some (search_body cleanedFilter params)).

(** [getIssue(id)] *)
Definition getIssue (id : string) : M jsval :=
  request "GET" ("/issues/" ++ id) None.

End Client.

(** *** The list methods *)

Section ListMethods.

Variable new_Date : jsval -> option Z.
Variable toFixed1 : Z -> string.
Variable fetch : list http_call -> http_call -> result response.

(** The pairs [limit] and [cursor] that the list methods set: each only
    when the parameter is truthy, [limit] as [params.limit.toString()]. *)
Definition pagination_pairs (params : jsval) : list (string * string) :=
  ((if truthy (opt_prop params "limit")
    then [("limit", template (opt_prop params "limit"))] else [])
   ++ (if truthy (opt_prop params "cursor")
       then [("cursor", template (opt_prop params "cursor"))] else []))%list.

(** [listAccounts(params)] *)
Definition listAccounts (params : jsval) : M jsval :=
  let query := Str.URLSearchParams_toString (pagination_pairs params) in
  request fetch "GET"
    ("/accounts" ++ (if negb (String.eqb query "") then "?" ++ query else "")) None.

(** [listContacts(params)] *)
Definition listContacts (params : jsval) : M jsval :=
  let query := Str.URLSearchParams_toString (pagination_pairs params) in
  request fetch "GET"
    ("/contacts" ++ (if negb (String.eqb query "") then "?" ++ query else "")) None.

(** [listIssues(startTime, endTime, params)] *)
Definition listIssues (startTime endTime : string) (params : jsval) : M jsval :=
  lift (validateTimeRange new_Date toFixed1 (JStr startTime) (JStr endTime)) ;;;
  let searchParams :=
    ([("start_time", startTime); ("end_time", endTime)] ++ pagination_pairs params)%list in
  request fetch "GET" ("/issues?" ++ Str.URLSearchParams_toString searchParams) None.

End ListMethods.

End PylonClient.

(* ================================================================== *)
(** ** src/schemas.ts: the response projector *)
(* ================================================================== *)

Module Schemas.

Definition MAX_BODY_LENGTH : Z := 500.

(** [html.replace(/<[^>]*>/g, ' ').replace(/\s+/g, ' ').trim()], the
    expression of [stripHtmlAndTruncate] and of the body tool. *)
Definition strip_html (html : string) : string :=
  Str.trim (Str.collapse_ws (Str.replace_tags html)).

(** [stripHtmlAndTruncate(html, maxLength)] on the value read from the raw
    record: a falsy value gives the empty string, and a truthy value that
    is no string has no method [replace]. *)
Definition stripHtmlAndTruncate (html : jsval) (maxLength : Z) : result string :=
  if negb (truthy html) then Ok ""
  else
    match html with
    | JStr s =>
        let text := strip_html s in
        if (Z.of_nat (String.length text) <=? maxLength)%Z then Ok text
        else Ok (Str.slice0 text (maxLength - 3) ++ "...")
    | _ => Throw (TypeError "html.replace is not a function")
    end.

(** [typeof v === 'string'] *)
Definition is_string (v : jsval) : bool :=
  match v with
  | JStr _ => true
  | _ => false
  end.

Definition extractAccountId (issue : obj) : jsval :=
  if is_string (get issue "account_id") then get issue "account_id"
  else
    let account := get issue "account" in
    opt_prop account "id".

Definition extractAssigneeId (issue : obj) : jsval :=
  if is_string (get issue "assignee_id") then get issue "assignee_id"
  else
    let assignee := get issue "assignee" in
    nullish_or (opt_prop assignee "id") JNull.

Definition extractRequesterId (issue : obj) : jsval :=
  if is_string (get issue "requester_id") then get issue "requester_id"
  else
    let requester := get issue "requester" in
    nullish_or (opt_prop requester "id") JNull.

Definition extractTeamId (issue : obj) : jsval :=
  if is_string (get issue "team_id") then get issue "team_id"
  else
    let team := get issue "team" in
    nullish_or (opt_prop team "id") JNull.

Definition toIssueMinimal (raw : obj) : obj :=
  obj_literal
    [ ("id", get raw "id");
      ("number", get raw "number");
      ("title", get raw "title");
      ("state", get raw "state");
      ("link", get raw "link");
      ("created_at", get raw "created_at");
      ("assignee_id", extractAssigneeId raw);
      ("account_id", extractAccountId raw);
      ("tags", get raw "tags") ].

Definition toIssueStandard (raw : obj) : obj :=
  obj_extend (toIssueMinimal raw)
    [ ("requester_id", extractRequesterId raw);
      ("team_id", extractTeamId raw);
      ("resolution_time", get raw "resolution_time");
      ("latest_message_time", get raw "latest_message_time");
      ("first_response_time", get raw "first_response_time");
      ("customer_portal_visible", get raw "customer_portal_visible");
      ("source", get raw "source");
      ("type", get raw "type") ].

Definition toIssueFull (raw : obj) : result obj :=
  let standard := toIssueStandard raw in
  bind (stripHtmlAndTruncate (get raw "body_html") MAX_BODY_LENGTH) (fun body =>
  Ok (obj_extend standard [ ("body_html", JStr body) ])).

Definition toAccountMinimal (raw : obj) : obj :=
  let owner := get raw "owner" in
  obj_literal
    [ ("id", get raw "id");
      ("name", get raw "name");
      ("primary_domain", get raw "primary_domain");
      ("owner_id", nullish_or (opt_prop owner "id") (get raw "owner_id"));
      ("tags", get raw "tags") ].

Definition toAccountStandard (raw : obj) : obj :=
  obj_extend (toAccountMinimal raw)
    [ ("domains", get raw "domains");
      ("created_at", get raw "created_at");
      ("type", get raw "type") ].

Definition toContactMinimal (raw : obj) : obj :=
  let account := get raw "account" in
  obj_literal
    [ ("id", get raw "id");
      ("name", get raw "name");
      ("email", get raw "email");
      ("account_id", nullish_or (opt_prop account "id") (get raw "account_id"));
      ("portal_role", get raw "portal_role") ].

Definition toContactStandard (raw : obj) : obj :=
  obj_extend (toContactMinimal raw)
    [ ("emails", get raw "emails");
      ("avatar_url", get raw "avatar_url");
      ("created_at", get raw "created_at") ].

(** [users?.length] for the value read from the raw record: the number of
    elements of an array, [undefined] on [null] and [undefined]; a string
    has its length, an object its property of that name, a number or a
    boolean none. *)
Definition opt_length (users : jsval) : jsval :=
  match users with
  | JArr items => JNum (Z.of_nat (List.length items))
  | JStr s => JNum (Z.of_nat (String.length s))
  | JObj o => get o "length"
  | _ => JUndefined
  end.

Definition toTeamMinimal (raw : obj) : obj :=
  let users := get raw "users" in
  obj_literal
    [ ("id", get raw "id");
      ("name", get raw "name");
      ("member_count", opt_length users) ].

Definition toTeamStandard (raw : obj) : obj :=
  obj_extend (toTeamMinimal raw) [ ("users", get raw "users") ].

End Schemas.

(* ================================================================== *)
(** ** src/index.ts: the table of issues and the body tool *)
(* ================================================================== *)

Module Index.

Import PylonClient.

Definition MAX_TITLE_LENGTH : Z := 60.

(** The parameter type [string | undefined | null] of [escapeCell] and
    [truncate]: [None] is [undefined] or [null]. *)
Definition maybe_string : Type := option string.

(** [!value] *)
Definition falsy (value : maybe_string) : bool :=
  match value with
  | None => true
  | Some s => String.eqb s ""
  end.

(** [escapeCell(value)]: a pipe gets a backslash before it, a line feed
    becomes a space. *)
Definition escapeCell (value : maybe_string) : string :=
  match value with
  | None => ""
  | Some s =>
      if falsy value then ""
      else Str.replace_char Str.NEWLINE " "
             (Str.replace_char Str.PIPE (String Str.BACKSLASH "|") s)
  end.

(** [truncate(value, maxLength)] *)
Definition truncate (value : maybe_string) (maxLength : Z) : string :=
  match value with
  | None => ""
  | Some s =>
      if falsy value then ""
      else if (Z.of_nat (String.length s) <=? maxLength)%Z then s
      else Str.slice0 s (maxLength - 3) ++ "..."
  end.

(** [IssueMinimal], the element type of the argument of
    [formatIssuesAsTable]; [None] is a field that is absent or [null]. *)
Record IssueMinimal : Type := {
  id : string;
  number : option Z;
  title : string;
  state : string;
  link : option string;
  created_at : option string;
  assignee_id : option string;
  account_id : option string;
  tags : option (list string)
}.

(** [a || b] on strings. *)
Definition or_else (a : maybe_string) (b : string) : string :=
  if falsy a then b else match a with Some s => s | None => b end.

(** The cells of the row of one issue. *)
Definition issue_row (issue : IssueMinimal) : list string :=
  [ escapeCell (Some (match number issue with Some n => Str.of_Z n | None => "" end));
    escapeCell (Some (truncate (Some (title issue)) MAX_TITLE_LENGTH));
    escapeCell (Some (state issue));
    escapeCell (Some (or_else (option_map (Str.before_first "T") (created_at issue)) "-"));
    or_else (link issue) "-" ].

(** [formatIssuesAsTable(issues)] *)
Definition formatIssuesAsTable (issues : list IssueMinimal) : string :=
  if Nat.eqb (List.length issues) 0 then "No issues found."
  else
    let headers := ["#"; "Title"; "State"; "Created"; "Link"] in
    let rows := map issue_row issues in
    let headerRow := "| " ++ Str.join " | " headers ++ " |" in
    let separatorRow := "|" ++ Str.join "|" (map (fun _ => "---") headers) ++ "|" in
    let dataRows :=
      Str.join Str.nl (map (fun row => "| " ++ Str.join " | " row ++ " |") rows) in
    headerRow ++ Str.nl ++ separatorRow ++ Str.nl ++ dataRows.

(** The schema of [max_length] in [pylon_get_issue_body]:
    [z.number().min(100).max(10000).optional()]. *)
Definition max_length_schema (max_length : option Z) : bool :=
  match max_length with
  | None => true
  | Some n => (100 <=? n)%Z && (n <=? 10000)%Z
  end.

Section Tools.

Variable fetch : list http_call -> http_call -> result response.

(** The handler of [pylon_get_issue_body]; its result is the text of the
    one item of [content]. *)
Definition pylon_get_issue_body (id : string) (max_length : option Z) : M string :=
  result <- getIssue fetch id ;;
  raw <- lift (prop result "data") ;;
  bodyHtml <- lift (prop raw "body_html") ;;
  if negb (truthy bodyHtml) then ret "No body content available."
  else
    let maxLen := match max_length with Some n => n | None => 2000%Z end in
    match bodyHtml with
    | JStr s =>
        let text := Schemas.strip_html s in
        let truncated :=
          if (Z.of_nat (String.length text) >? maxLen)%Z
          then Str.slice0 text (maxLen - 3) ++ "..."
          else text in
        number <- lift (prop raw "number") ;;
        ret ("Issue #" ++ template number ++ " body ("
             ++ Str.of_nat (String.length text) ++ " chars total, showing "
             ++ Str.of_nat (String.length truncated) ++ "):" ++ Str.nl ++ Str.nl
             ++ truncated)
    | _ => throw (TypeError "bodyHtml.replace is not a function")
    end.

End Tools.

Definition MAX_NAME_LENGTH : Z := 40.

(** The table of a list of rows under its headers, as each [format...AsTable]
    builds it after its test for the empty list. *)
Definition markdown_table (headers : list string) (rows : list (list string)) : string :=
  let headerRow := "| " ++ Str.join " | " headers ++ " |" in
  let separatorRow := "|" ++ Str.join "|" (map (fun _ => "---") headers) ++ "|" in
  let dataRows :=
    Str.join Str.nl (map (fun row => "| " ++ Str.join " | " row ++ " |") rows) in
  headerRow ++ Str.nl ++ separatorRow ++ Str.nl ++ dataRows.

Module Account.

(** [AccountMinimal]; [None] is a field that is absent or [null]. *)
Record AccountMinimal : Type := {
  id : string;
  name : string;
  primary_domain : option string;
  owner_id : option string;
  tags : option (list string)
}.

(** The cells of the row of one account; [(account.tags || [])] is the
    array of tags, empty when there is none. *)
Definition account_row (account : AccountMinimal) : list string :=
  [ escapeCell (Some (id account));
    escapeCell (Some (truncate (Some (name account)) MAX_NAME_LENGTH));
    escapeCell (Some (or_else (primary_domain account) "-"));
    escapeCell (Some (or_else
                        (Some (Str.join ", "
                                 (firstn 3 (match tags account with
                                            | Some t => t
                                            | None => []
                                            end))))
                        "-")) ].

(** [formatAccountsAsTable(accounts)] *)
Definition formatAccountsAsTable (accounts : list AccountMinimal) : string :=
  if Nat.eqb (List.length accounts) 0 then "No accounts found."
  else markdown_table ["ID"; "Name"; "Domain"; "Tags"] (map account_row accounts).

End Account.

Module Contact.

(** [ContactMinimal]; [None] is a field that is absent or [null]. *)
Record ContactMinimal : Type := {
  id : string;
  name : string;
  email : option string;
  account_id : option string;
  portal_role : option string
}.

Definition contact_row (contact : ContactMinimal) : list string :=
  [ escapeCell (Some (id contact));
    escapeCell (Some (truncate (Some (name contact)) MAX_NAME_LENGTH));
    escapeCell (Some (or_else (email contact) "-"));
    escapeCell (Some (or_else (account_id contact) "-")) ].

(** [formatContactsAsTable(contacts)] *)
Definition formatContactsAsTable (contacts : list ContactMinimal) : string :=
  if Nat.eqb (List.length contacts) 0 then "No contacts found."
  else markdown_table ["ID"; "Name"; "Email"; "Account ID"] (map contact_row contacts).

End Contact.

End Index.

(* ================================================================== *)
(** ** A runtime to run the examples against *)
(* ================================================================== *)

(** The theorems below hold for every [new_Date], [toFixed1] and [fetch].
    The examples run against this runtime: a parser of the date-time
    strings of the language ([YYYY-MM-DDTHH:mm:ss.sssZ] and its shorter
    forms, with [Z] or an offset [+HH:mm]) as the engine reads them, in the
    time zone UTC; [toFixed(1)] on the double that the division gives; and
    a service that answers every call with an empty page.  A string in
    another notation of dates, which the engine may read by rules of its
    own, is no date for this parser; the examples use none. *)
Module Runtime.

Import PylonClient.

Definition digit (c : ascii) : option Z :=
  let n := nat_of_ascii c in
  if (Nat.leb 48 n && Nat.leb n 57)%bool then Some (Z.of_nat (n - 48)) else None.

(** The decimal number a string of digits denotes. *)
Fixpoint digits_from (acc : Z) (s : string) : option Z :=
  match s with
  | EmptyString => Some acc
  | String c r =>
      match digit c with
      | Some d => digits_from (acc * 10 + d) r
      | None => None
      end
  end.

Definition number_at (s : string) (pos len : nat) : option Z :=
  let part := substring pos len s in
  if Nat.eqb (String.length part) len then digits_from 0 part else None.

Definition char_at (s : string) (pos : nat) (c : string) : bool :=
  String.eqb (substring pos 1 s) c.

(** Days from 1970-01-01 to the given civil date; a day past the end of
    its month counts on into the next one. *)
Definition days_from_civil (y m d : Z) : Z :=
  let y' := if (m <=? 2)%Z then (y - 1)%Z else y in
  let era := (y' / 400)%Z in
  let yoe := (y' - era * 400)%Z in
  let doy := ((153 * (if (m >? 2)%Z then m - 3 else m + 9) + 2) / 5 + d - 1)%Z in
  let doe := (yoe * 365 + yoe / 4 - yoe / 100 + doy)%Z in
  (era * 146097 + doe - 719468)%Z.

(** [YYYY], [YYYY-MM] or [YYYY-MM-DD]: the day number.  The engine takes
    a month from 1 to 12 and a day from 1 to 31. *)
Definition parse_day (d : string) : option Z :=
  let year := number_at d 0 4 in
  let month :=
    if Nat.eqb (String.length d) 4 then Some 1%Z
    else if char_at d 4 "-" then number_at d 5 2 else None in
  let day :=
    if Nat.leb (String.length d) 7 then Some 1%Z
    else if char_at d 7 "-" then number_at d 8 2 else None in
  if negb (Nat.eqb (String.length d) 4 || Nat.eqb (String.length d) 7
           || Nat.eqb (String.length d) 10) then None
  else
    match year, month, day with
    | Some y, Some m, Some dd =>
        if ((1 <=? m) && (m <=? 12) && (1 <=? dd) && (dd <=? 31))%Z%bool
        then Some (days_from_civil y m dd)
        else None
    | _, _, _ => None
    end.

(** The milliseconds of a fraction of a second: its first three digits. *)
Definition parse_fraction (f : string) : option Z :=
  match f, digits_from 0 f with
  | String _ _, Some _ => digits_from 0 (substring 0 3 (f ++ "00"))
  | _, _ => None
  end.

(** [HH:mm], [HH:mm:ss] or [HH:mm:ss.s...]: the milliseconds since
    midnight; the hour 24 is midnight at the end of the day. *)
Definition parse_clock (t : string) : option Z :=
  let len := String.length t in
  let second :=
    if Nat.eqb len 5 then Some 0%Z
    else if char_at t 5 ":" then number_at t 6 2 else None in
  let milli :=
    if Nat.leb len 8 then Some 0%Z
    else if char_at t 8 "." then parse_fraction (substring 9 (len - 9) t) else None in
  if negb (Nat.leb 5 len && char_at t 2 ":") then None
  else
    match number_at t 0 2, number_at t 3 2, second, milli with
    | Some hh, Some mm, Some ss, Some ms =>
        if ((hh <=? 23) && (mm <=? 59) && (ss <=? 59)
            || (hh =? 24) && (mm =? 0) && (ss =? 0) && (ms =? 0))%Z%bool
        then Some (((hh * 60 + mm) * 60 + ss) * 1000 + ms)%Z
        else None
    | _, _, _, _ => None
    end.

(** The offset from UTC in minutes: [Z], [+HH:mm] or [-HH:mm]; a time
    without offset is local time, which is UTC here. *)
Definition parse_zone (z : string) : option Z :=
  if String.eqb z "" || String.eqb z "Z" then Some 0%Z
  else if Nat.eqb (String.length z) 6 && char_at z 3 ":"
          && (char_at z 0 "+" || char_at z 0 "-") then
    match number_at z 1 2, number_at z 4 2 with
    | Some h, Some m =>
        if ((h <=? 23) && (m <=? 59))%Z%bool
        then Some (if char_at z 0 "-" then - (h * 60 + m) else h * 60 + m)%Z
        else None
    | _, _ => None
    end
  else None.

(** Where the offset of a time starts: at the first [Z], [+] or [-]. *)
Fixpoint zone_start (t : string) : nat :=
  match t with
  | EmptyString => 0
  | String c r =>
      if (Ascii.eqb c "Z" || Ascii.eqb c "+" || Ascii.eqb c "-")%char%bool then 0
      else S (zone_start r)
  end.

(** [Date.parse(s)] *)
Definition Date_parse (s : string) : option Z :=
  let time :=
    match index 0 "T" s with
    | None =>
        match parse_day s with
        | Some days => Some (days * MS_PER_DAY)%Z
        | None => None
        end
    | Some i =>
        let t := substring (S i) (String.length s - S i) s in
        let z := zone_start t in
        match parse_day (substring 0 i s), parse_clock (substring 0 z t),
              parse_zone (substring z (String.length t - z) t) with
        | Some days, Some clock, Some offset =>
            Some (days * MS_PER_DAY + clock - offset * 60000)%Z
        | _, _, _ => None
        end
    end in
  match time with
  | Some t => if (Z.abs t <=? 8640000000000000)%Z then Some t else None
  | None => None
  end.

(** [new Date(v).getTime()]: a string is parsed, a number is the time
    value itself when it is in range, [true] is 1, [false] and [null] are
    0, and an array or an object is first converted to a string. *)
Definition new_Date (v : jsval) : option Z :=
  match v with
  | JUndefined => None
  | JNull => Some 0%Z
  | JBool b => Some (if b then 1 else 0)%Z
  | JNum n => if (Z.abs n <=? 8640000000000000)%Z then Some n else None
  | JStr s => Date_parse s
  | JArr _ | JObj _ => Date_parse (template v)
  end.

(** The double nearest to the quotient [a / b] of two positive integers,
    ties to the even mantissa: the mantissa, which has 53 bits, and the
    exponent of its unit. *)
Definition nearest_double (a b : Z) : Z * Z :=
  let scaled (e : Z) : Z * Z :=
    if (0 <=? e)%Z then (a, b * 2 ^ e)%Z else (a * 2 ^ (- e), b)%Z in
  let e0 := (Z.log2 a - Z.log2 b - 52)%Z in
  let e := if (fst (scaled e0) / snd (scaled e0) <? 2 ^ 52)%Z then (e0 - 1)%Z else e0 in
  let (n, d) := scaled e in
  let m := (n / d)%Z in
  let r := (n mod d)%Z in
  if ((2 * r >? d) || (2 * r =? d) && Z.odd m)%Z%bool then ((m + 1)%Z, e) else (m, e).

(** [x.toFixed(1)] for the positive double [m * 2 ^ e]: the integer [n]
    whose tenth is nearest to it, the larger of two, with the point before
    its last digit. *)
Definition toFixed1_of (m e : Z) : string :=
  let tenths :=
    (if 0 <=? e then (20 * m * 2 ^ e + 1) / 2
     else (20 * m + 2 ^ (- e)) / 2 ^ (1 - e))%Z in
  Str.of_Z (tenths / 10) ++ "." ++ Str.of_Z (tenths mod 10).

(** The double nearest to a positive integer: the integer itself below
    [2 ^ 53]. *)
Definition double_of (n : Z) : Z :=
  if (n <? 2 ^ 53)%Z then n else let (m, e) := nearest_double n 1 in (m * 2 ^ e)%Z.

(** [((end - start) / MS_PER_DAY).toFixed(1)] for a positive difference
    [ms] of two time values: the difference and the quotient are doubles. *)
Definition toFixed1 (ms : Z) : string :=
  if (ms <=? 0)%Z then "0.0"
  else let (m, e) := nearest_double (double_of ms) MS_PER_DAY in toFixed1_of m e.

Definition empty_page : jsval :=
  JObj [ ("data", JArr []);
         ("pagination", JObj [("cursor", JNull); ("has_next_page", JBool false)]) ].

Definition fetch (_ : list http_call) (_ : http_call) : result response :=
  Ok {| resp_ok := true; resp_status := "200"; resp_statusText := "OK";
        resp_text := ""; resp_json := empty_page |}.

(** A service that answers every call with one issue. *)
Definition fetch_issue (issue : jsval) (_ : list http_call) (_ : http_call)
  : result response :=
  Ok {| resp_ok := true; resp_status := "200"; resp_statusText := "OK";
        resp_text := ""; resp_json := JObj [("data", issue); ("request_id", JStr "r1")] |}.

End Runtime.

(* ================================================================== *)
(** ** The vocabulary of the properties *)
(* ================================================================== *)

Import PylonClient Schemas Index Str.

(** What the loop over the operators of a known field keeps. *)
Definition operator_kept (validOperators : list string) (kv : string * jsval) : Prop :=
  In (fst kv) validOperators /\ nullish (snd kv) = false.

(** The sanitization invariant on one field of a cleaned filter: its value
    is not the empty object; when the field is known and its value is an
    operator map, every operator of the map is in the field's set; and when
    the field is unknown and its value is an object, that object is a
    cleaned filter itself. *)
Definition field_sanitized (kv : string * jsval) : Prop :=
  snd kv <> JObj [] /\
  (forall validOperators operatorMap,
     VALID_OPERATORS (fst kv) = Some validOperators ->
     snd kv = JObj operatorMap ->
     forall op, In op (keys operatorMap) -> In op validOperators) /\
  (forall nested,
     VALID_OPERATORS (fst kv) = None ->
     snd kv = JObj nested ->
     cleanFilter nested = Ok (Some nested)).

(** A field that a second cleaning stores unchanged. *)
Definition field_stable (kv : string * jsval) : Prop :=
  forall acc, cleanField cleanFilter_value acc kv = Ok (obj_set acc (fst kv) (snd kv)).

(** What one iteration of the loop of [cleanFilter] does with a field: it
    leaves the result as it is, stores a value under the field's name, or
    throws. *)
Inductive outcome : Type :=
| Skipped
| Stored (v : jsval)
| Thrown (e : exn).

Definition outcome_on (result : obj) (fieldName : string) (o : outcome) : JS.result obj :=
  match o with
  | Skipped => Ok result
  | Stored v => Ok (obj_set result fieldName v)
  | Thrown e => Throw e
  end.

(** The outcome for each kind of field. *)
Inductive cleans_to (fieldName : string) : jsval -> outcome -> Prop :=
| clean_nullish v :
    nullish v = true -> cleans_to fieldName v Skipped
| clean_prototype v :
    nullish v = false -> (forall o, v <> JObj o) -> fieldName = "__proto__" ->
    cleans_to fieldName v Skipped
| clean_plain v :
    nullish v = false -> (forall o, v <> JObj o) -> fieldName <> "__proto__" ->
    cleans_to fieldName v (Stored v)
| clean_known_none fieldObj validOperators :
    VALID_OPERATORS fieldName = Some validOperators ->
    cleanOperators validOperators fieldObj = [] ->
    cleans_to fieldName (JObj fieldObj) Skipped
| clean_known fieldObj validOperators :
    VALID_OPERATORS fieldName = Some validOperators ->
    cleanOperators validOperators fieldObj <> [] ->
    cleans_to fieldName (JObj fieldObj)
      (Stored (JObj (cleanOperators validOperators fieldObj)))
| clean_inherited_empty :
    VALID_OPERATORS fieldName = None -> inherited fieldName = true ->
    cleans_to fieldName (JObj []) Skipped
| clean_inherited fieldObj :
    VALID_OPERATORS fieldName = None -> inherited fieldName = true -> fieldObj <> [] ->
    cleans_to fieldName (JObj fieldObj)
      (Thrown (TypeError "validOperators.has is not a function"))
| clean_unknown_throws fieldObj e :
    VALID_OPERATORS fieldName = None -> inherited fieldName = false ->
    cleanFilter fieldObj = Throw e ->
    cleans_to fieldName (JObj fieldObj) (Thrown e)
| clean_unknown_none fieldObj :
    VALID_OPERATORS fieldName = None -> inherited fieldName = false ->
    cleanFilter fieldObj = Ok None ->
    cleans_to fieldName (JObj fieldObj) Skipped
| clean_unknown fieldObj cleaned :
    VALID_OPERATORS fieldName = None -> inherited fieldName = false ->
    cleanFilter fieldObj = Ok (Some cleaned) ->
    cleans_to fieldName (JObj fieldObj) (Stored (JObj cleaned)).

(** The value of a field is an object (not an array) that carries a
    [time_range] operator whose [start] and [end] are both truthy (present
    and, for strings, not empty). *)
Definition carries_time_range (fieldValue start end_ : jsval) : Prop :=
  exists fieldObj timeRange,
    fieldValue = JObj fieldObj /\
    get fieldObj "time_range" = JObj timeRange /\
    get timeRange "start" = start /\ get timeRange "end" = end_ /\
    truthy start = true /\ truthy end_ = true.

(** The error [validateFilterTimeRanges] raises for a field. *)
Definition time_range_error (fieldName : string) (error : exn) : exn :=
  Error ("Invalid time_range for " ++ fieldName ++ ": " ++ message_of error).

(** A filter with a time range that ends before it starts. *)
Definition reversed_range_filter : obj :=
  [ ("created_at",
     JObj [ ("time_range", JObj [ ("start", JStr "2024-02-01T00:00:00Z");
                                  ("end", JStr "2024-01-01T00:00:00Z") ]) ]) ].

(** A filter with a time range whose start is the empty string. *)
Definition empty_start_filter : obj :=
  [ ("created_at",
     JObj [ ("time_range", JObj [ ("start", JStr "");
                                  ("end", JStr "2024-01-01T00:00:00Z") ]) ]) ].

(** White space occurs only as single plain spaces. *)
Definition single_spaced (s : string) : Prop :=
  ws_is_space s = true /\ has_ws_run s = false.

(** The pipes of a line that delimit columns: those with no backslash
    right before them.  [escaped] says that the previous character was a
    backslash. *)
Fixpoint unescaped_pipes_from (escaped : bool) (s : string) : nat :=
  match s with
  | EmptyString => 0
  | String c r =>
      ((if Ascii.eqb c PIPE && negb escaped then 1 else 0)
       + unescaped_pipes_from (Ascii.eqb c BACKSLASH) r)%nat
  end.

Definition unescaped_pipes (line : string) : nat := unescaped_pipes_from false line.

(** The lines of a text: one more than its line feeds. *)
Fixpoint line_feeds (s : string) : nat :=
  match s with
  | EmptyString => 0
  | String c r => ((if Ascii.eqb c NEWLINE then 1 else 0) + line_feeds r)%nat
  end.

Definition line_count (text : string) : nat := S (line_feeds text).

(** How a field [v] of a cleaned filter comes from the field [v0] of the
    same name of the filter: it is that value, which is no object; or the
    field is known and [v] is an operator map whose entries are entries of
    the map [v0]; or the field is unknown and [v] is the cleaned form of
    the object [v0]. *)
Definition cleaned_from (fieldName : string) (v0 v : jsval) : Prop :=
  (v = v0 /\ forall o, v0 <> JObj o)
  \/ (exists fieldObj validOperators cleanedOperators,
        v0 = JObj fieldObj /\ VALID_OPERATORS fieldName = Some validOperators /\
        v = JObj cleanedOperators /\
        forall op opValue, In (op, opValue) cleanedOperators ->
          In (op, opValue) fieldObj /\ In op validOperators /\ nullish opValue = false)
  \/ (exists fieldObj cleaned,
        v0 = JObj fieldObj /\ VALID_OPERATORS fieldName = None /\
        v = JObj cleaned /\ cleanFilter fieldObj = Ok (Some cleaned)).

(** A field that [cleanFilter] has nothing to remove from: a value that is
    neither [null], [undefined] nor an object, under a name other than
    [__proto__]; or a known field with an operator map that is not empty
    and holds distinct operators of the field's set with values that are
    neither [null] nor [undefined]. *)
Definition field_valid (kv : string * jsval) : Prop :=
  (nullish (snd kv) = false /\ (forall o, snd kv <> JObj o) /\ fst kv <> "__proto__")
  \/ (exists fieldObj validOperators,
        snd kv = JObj fieldObj /\ VALID_OPERATORS (fst kv) = Some validOperators /\
        fieldObj <> [] /\ NoDup (keys fieldObj) /\
        Forall (operator_kept validOperators) fieldObj).

(** A field that [cleanFilter] removes without an exception: its value is
    [null] or [undefined]; or its name is [__proto__] and its value is no
    object (the assignment stores nothing); or the field is known and none
    of its operators is both in the field's set and set to a value; or its
    name is that of a member of [Object.prototype] and its value is the
    empty object; or the field is unknown and its object cleans to
    nothing. *)
Definition field_eliminated (kv : string * jsval) : Prop :=
  nullish (snd kv) = true
  \/ (fst kv = "__proto__" /\ forall o, snd kv <> JObj o)
  \/ (exists fieldObj validOperators,
        snd kv = JObj fieldObj /\ VALID_OPERATORS (fst kv) = Some validOperators /\
        forall op opValue, In (op, opValue) fieldObj ->
          ~ In op validOperators \/ nullish opValue = true)
  \/ (inherited (fst kv) = true /\ snd kv = JObj [])
  \/ (exists fieldObj,
        snd kv = JObj fieldObj /\ VALID_OPERATORS (fst kv) = None /\
        inherited (fst kv) = false /\ cleanFilter fieldObj = Ok None).

(** A field on which [cleanFilter] throws: an object that is not empty
    under the name of a member of [Object.prototype], at the top of the
    filter or below unknown fields. *)
Inductive field_throws : string * jsval -> Prop :=
| throws_inherited fieldName fieldObj :
    inherited fieldName = true -> fieldObj <> [] ->
    field_throws (fieldName, JObj fieldObj)
| throws_nested fieldName fieldObj :
    VALID_OPERATORS fieldName = None -> inherited fieldName = false ->
    Exists field_throws fieldObj ->
    field_throws (fieldName, JObj fieldObj).

(** The words of a text: its maximal runs of characters that are not white
    space, in their order.  [words_from] gives the run that starts the text
    (empty when the text starts with white space, or is empty) and the
    words after it. *)
Fixpoint words_from (s : string) : string * list string :=
  match s with
  | EmptyString => (EmptyString, [])
  | String c r =>
      let (w, ws) := words_from r in
      if is_space c
      then (EmptyString, match w with EmptyString => ws | _ => w :: ws end)
      else (String c w, ws)
  end.

Definition words (s : string) : list string :=
  let (w, ws) := words_from s in
  match w with
  | EmptyString => ws
  | _ => w :: ws
  end.

(** An answer of the service that is not a success, and a service that
    gives it to every call. *)
Definition unavailable : response :=
  {| resp_ok := false; resp_status := "503"; resp_statusText := "Service Unavailable";
     resp_text := "try later"; resp_json := JNull |}.

Definition fetch_unavailable (_ : list http_call) (_ : http_call) : result response :=
  Ok unavailable.

(** The link of the issue holds no pipe and no line feed. *)
Definition plain_link (issue : IssueMinimal) : Prop :=
  forall l, link issue = Some l -> contains PIPE l = false /\ contains NEWLINE l = false.

(** An issue whose title and whose link both hold a pipe. *)
Definition pipe_issue : IssueMinimal :=
  {| id := "I1"; number := Some 12%Z;
     title := "a|b";
     state := "new";
     link := Some "https://app.example/issues?x=1|2";
     created_at := Some "2024-01-02T03:04:05Z";
     assignee_id := None; account_id := None; tags := None |}.

(** An issue whose title and whose link both hold a line feed. *)
Definition line_feed_issue : IssueMinimal :=
  {| id := "I2"; number := Some 13%Z;
     title := "a" ++ nl ++ "b";
     state := "new";
     link := Some ("https://app.example/issues/13" ++ nl ++ "| 99 | injected | closed | - | -");
     created_at := None;
     assignee_id := None; account_id := None; tags := None |}.

(* ================================================================== *)
(** * Properties *)
(* ================================================================== *)

(** ** Values and objects *)

(** Induction on a JSON value, with the hypothesis on every element of an
    array and on every property value of an object. *)
Lemma jsval_nested_ind (P : jsval -> Prop)
  (Hundefined : P JUndefined) (Hnull : P JNull)
  (Hbool : forall b, P (JBool b)) (Hnum : forall n, P (JNum n))
  (Hstr : forall s, P (JStr s))
  (Harr : forall items, Forall P items -> P (JArr items))
  (Hobj : forall entries, Forall (fun kv => P (snd kv)) entries -> P (JObj entries)) :
  forall v, P v.
Proof.
  fix IH 1.
  intros [ | | b | n | s | items | entries ].
  - exact Hundefined.
  - exact Hnull.
  - apply Hbool.
  - apply Hnum.
  - apply Hstr.
  - apply Harr. induction items as [|x items IHitems]; constructor.
    + apply IH.
    + exact IHitems.
  - apply Hobj. induction entries as [|[k x] entries IHentries]; constructor.
    + apply IH.
    + exact IHentries.
Qed.

Lemma obj_set_absent (o : obj) k v :
  ~ In k (keys o) -> obj_set o k v = (o ++ [(k, v)])%list.
Proof.
  induction o as [|[k' v'] o IH]; simpl; intros Hk.
  - reflexivity.
  - destruct (String.eqb_spec k' k) as [->|Hne].
    + exfalso. apply Hk. now left.
    + f_equal. apply IH. intro Hin. apply Hk. now right.
Qed.

Lemma In_obj_set (o : obj) k v kv :
  In kv (obj_set o k v) -> kv = (k, v) \/ In kv o.
Proof.
  induction o as [|[k' v'] o IH]; simpl.
  - intros [<-|[]]. now left.
  - destruct (String.eqb_spec k' k) as [->|Hne]; simpl.
    + intros [<-|Hin]; [now left | right; now right].
    + intros [<-|Hin]; [right; now left|].
      destruct (IH Hin) as [->|Hin']; [now left | right; now right].
Qed.

Lemma keys_obj_set (o : obj) k v k' :
  In k' (keys (obj_set o k v)) <-> k' = k \/ In k' (keys o).
Proof.
  induction o as [|[k0 v0] o IH]; simpl.
  - intuition congruence.
  - destruct (String.eqb_spec k0 k) as [->|Hne]; simpl.
    + intuition congruence.
    + rewrite IH. intuition congruence.
Qed.

Lemma NoDup_keys_obj_set (o : obj) k v :
  NoDup (keys o) -> NoDup (keys (obj_set o k v)).
Proof.
  induction o as [|[k0 v0] o IH]; simpl; intros Hnd.
  - constructor; [intros [] | constructor].
  - inversion Hnd as [|? ? Hnotin Hnd']; subst.
    destruct (String.eqb_spec k0 k) as [->|Hne]; simpl.
    + constructor; assumption.
    + constructor.
      * rewrite keys_obj_set. intros [->|Hin]; [now apply Hne | now apply Hnotin].
      * now apply IH.
Qed.

Lemma obj_set_nonempty (o : obj) k v : (0 < List.length (keys (obj_set o k v)))%nat.
Proof.
  destruct o as [|[k0 v0] o]; simpl.
  - lia.
  - destruct (String.eqb k0 k); simpl; lia.
Qed.

Lemma Forall_obj_set (Q : string * jsval -> Prop) (o : obj) k v :
  Forall Q o -> Q (k, v) -> Forall Q (obj_set o k v).
Proof.
  intros Ho Hkv. apply Forall_forall. intros kv Hin.
  destruct (In_obj_set _ _ _ _ Hin) as [->|Hin']; [assumption|].
  rewrite Forall_forall in Ho. now apply Ho.
Qed.

(** ** Loops that copy into a fresh object *)

Section CopyLoops.

Variable step : obj -> string * jsval -> obj.

(** A loop whose step either skips the entry or stores a value that
    satisfies [Q] under the entry's key keeps [Q] and the distinctness of
    the keys. *)
Lemma copy_loop_invariant (Q : string * jsval -> Prop) (l : list (string * jsval)) :
  (forall acc kv, In kv l ->
     step acc kv = acc \/ exists v', step acc kv = obj_set acc (fst kv) v' /\ Q (fst kv, v')) ->
  forall acc, Forall Q acc -> NoDup (keys acc) ->
  Forall Q (fold_left step l acc) /\ NoDup (keys (fold_left step l acc)).
Proof.
  induction l as [|kv l IH]; simpl; intros Hstep acc HQ Hnd.
  - now split.
  - apply IH.
    + intros acc' kv' Hin. apply Hstep. now right.
    + destruct (Hstep acc kv (or_introl eq_refl)) as [->|(v' & -> & Hv')];
        [assumption | now apply Forall_obj_set].
    + destruct (Hstep acc kv (or_introl eq_refl)) as [->|(v' & -> & Hv')];
        [assumption | now apply NoDup_keys_obj_set].
Qed.

(** A loop whose step stores every entry unchanged copies a list with
    distinct keys. *)
Lemma copy_loop_fixed (l : list (string * jsval)) :
  (forall acc kv, In kv l -> step acc kv = obj_set acc (fst kv) (snd kv)) ->
  forall acc, NoDup (keys (acc ++ l)%list) -> fold_left step l acc = (acc ++ l)%list.
Proof.
  induction l as [|[k v] l IH]; simpl; intros Hstep acc Hnd.
  - now rewrite app_nil_r.
  - rewrite (Hstep acc (k, v) (or_introl eq_refl)). simpl.
    assert (Hk : ~ In k (keys acc)).
    { unfold keys in *. rewrite map_app in Hnd. simpl in Hnd.
      apply NoDup_remove_2 in Hnd. intro Hin. apply Hnd.
      apply in_or_app. now left. }
    rewrite (obj_set_absent _ _ _ Hk).
    rewrite IH.
    + now rewrite <- app_assoc.
    + intros acc' kv' Hin. apply Hstep. now right.
    + now rewrite <- app_assoc.
Qed.

End CopyLoops.

(** ** Loops that fill an object and may throw *)

Section FillLoops.

Variable step : obj -> string * jsval -> result obj.

(** The object a loop returns is the one its iterations leave. *)
Lemma for_of_into_settled (l : list (string * jsval)) :
  forall acc r, for_of_into step l acc = Ok r -> r = fold_left (settled step) l acc.
Proof.
  induction l as [|kv l IH]; simpl; intros acc r H.
  - now injection H.
  - unfold settled at 2. destruct (step acc kv) as [acc'|e]; [|discriminate H].
    now apply IH.
Qed.

(** A loop whose iterations all return returns. *)
Lemma for_of_into_returns (l : list (string * jsval)) :
  (forall acc kv, In kv l -> exists acc', step acc kv = Ok acc') ->
  forall acc, for_of_into step l acc = Ok (fold_left (settled step) l acc).
Proof.
  induction l as [|kv l IH]; simpl; intros Hstep acc; [reflexivity|].
  unfold settled at 2.
  destruct (Hstep acc kv (or_introl eq_refl)) as [acc' ->]. simpl.
  apply IH. intros a x Hin. apply Hstep. now right.
Qed.

(** Where an exception of an iteration does not depend on the object
    filled so far: a loop returns only when each iteration returns, and it
    throws what its first throwing iteration throws. *)
Hypothesis throws_alike :
  forall acc acc' kv e, step acc kv = Throw e -> step acc' kv = Throw e.

Lemma for_of_into_iterations (l : list (string * jsval)) :
  forall acc r, for_of_into step l acc = Ok r ->
  forall kv, In kv l -> forall acc', exists r', step acc' kv = Ok r'.
Proof.
  induction l as [|kv l IH]; simpl; intros acc r H x Hin acc'; [destruct Hin|].
  destruct (step acc kv) as [a|e] eqn:Hkv; [|discriminate H].
  destruct Hin as [<-|Hin]; [|exact (IH _ _ H x Hin acc')].
  destruct (step acc' kv) as [a'|e'] eqn:Hkv'; [now exists a'|].
  rewrite (throws_alike acc' acc kv e' Hkv') in Hkv. discriminate.
Qed.

Lemma for_of_into_throws (l : list (string * jsval)) :
  forall acc e, for_of_into step l acc = Throw e ->
  exists kv, In kv l /\ forall acc', step acc' kv = Throw e.
Proof.
  induction l as [|kv l IH]; simpl; intros acc e H; [discriminate|].
  destruct (step acc kv) as [a|e'] eqn:Hkv.
  - destruct (IH _ _ H) as (x & Hin & Hx). exists x. split; [now right | exact Hx].
  - injection H as <-. exists kv. split; [now left|].
    intros acc'. exact (throws_alike acc acc' kv e' Hkv).
Qed.

End FillLoops.

(** ** cleanFilter *)

Lemma Set_has_In (validOperators : list string) (op : string) :
  Set_has validOperators op = true <-> In op validOperators.
Proof.
  unfold Set_has. rewrite existsb_exists. split.
  - intros (x & Hin & Heq). apply String.eqb_eq in Heq. now subst.
  - intros Hin. exists op. split; [assumption | apply String.eqb_refl].
Qed.

Lemma lookup_ops_In (t : list (string * list string)) fieldName validOperators :
  lookup_ops t fieldName = Some validOperators -> In (fieldName, validOperators) t.
Proof.
  induction t as [|[k ops] t IH]; simpl; [discriminate|].
  destruct (String.eqb_spec k fieldName) as [->|_].
  - intros [= ->]. now left.
  - intros H. right. now apply IH.
Qed.

(** No field and no operator of the table has the name of a member of
    [Object.prototype]. *)
Lemma VALID_OPERATORS_own fieldName validOperators :
  VALID_OPERATORS fieldName = Some validOperators ->
  inherited fieldName = false /\ ~ In "__proto__" validOperators.
Proof.
  intros H. apply lookup_ops_In in H. unfold VALID_OPERATORS_table in H.
  cbn [In] in H.
  repeat (destruct H as [H|H];
          [injection H as <- <-; split; [reflexivity | cbv; intuition discriminate]|]).
  destruct H.
Qed.

Lemma not_inherited_not_proto (k : string) : inherited k = false -> k <> "__proto__".
Proof. intros H ->. discriminate H. Qed.

Lemma obj_assign_own (o : obj) k v : k <> "__proto__" -> obj_assign o k v = obj_set o k v.
Proof.
  intros Hk. unfold obj_assign.
  destruct (String.eqb_spec k "__proto__"); [contradiction | reflexivity].
Qed.

Lemma obj_assign_cases (o : obj) k v :
  obj_assign o k v = o \/ obj_assign o k v = obj_set o k v.
Proof. unfold obj_assign. destruct (String.eqb k "__proto__"); [now left | now right]. Qed.

Lemma cleanOperator_kept validOperators acc kv :
  ~ In "__proto__" validOperators ->
  operator_kept validOperators kv ->
  cleanOperator validOperators acc kv = obj_set acc (fst kv) (snd kv).
Proof.
  destruct kv as [op opValue]. intros Hproto [Hin Hnn]. simpl in *.
  rewrite obj_assign_own by (intros ->; contradiction).
  apply Set_has_In in Hin. now rewrite Hin, Hnn.
Qed.

Lemma cleanOperator_cases validOperators acc kv :
  cleanOperator validOperators acc kv = acc \/
  exists v', cleanOperator validOperators acc kv = obj_set acc (fst kv) v'
             /\ (v' = snd kv /\ In (fst kv) validOperators /\ nullish (snd kv) = false).
Proof.
  destruct kv as [op opValue]. simpl.
  destruct (Set_has validOperators op) eqn:Hhas; simpl; [|now left].
  destruct (nullish opValue) eqn:Hnn; simpl; [now left|].
  destruct (obj_assign_cases acc op opValue) as [->| ->]; [now left|].
  right. exists opValue. repeat split; try reflexivity. now apply Set_has_In.
Qed.

Lemma cleanOperators_invariant validOperators fieldObj :
  Forall (operator_kept validOperators) (cleanOperators validOperators fieldObj)
  /\ NoDup (keys (cleanOperators validOperators fieldObj)).
Proof.
  unfold cleanOperators. apply copy_loop_invariant.
  - intros acc kv _.
    destruct (cleanOperator_cases validOperators acc kv) as [H|(v' & H & -> & Hin & Hnn)];
      [now left|].
    right. exists (snd kv). split; [exact H | now split].
  - constructor.
  - constructor.
Qed.

Lemma cleanOperators_fixed validOperators (o : obj) :
  ~ In "__proto__" validOperators ->
  Forall (operator_kept validOperators) o -> NoDup (keys o) ->
  cleanOperators validOperators o = o.
Proof.
  intros Hproto Hkept Hnd. unfold cleanOperators.
  rewrite copy_loop_fixed; [reflexivity| |assumption].
  intros acc kv Hin. apply cleanOperator_kept; [exact Hproto|].
  rewrite Forall_forall in Hkept. now apply Hkept.
Qed.

Lemma nonempty_keys (o : obj) : (0 <? List.length (keys o))%nat = true -> o <> [].
Proof. now destruct o. Qed.

Lemma keys_nonempty (o : obj) : o <> [] -> (0 <? List.length (keys o))%nat = true.
Proof. destruct o; [intros H; now elim H | reflexivity]. Qed.

Lemma cleanField_ext (r1 r2 : jsval -> result (option obj)) :
  (forall v, r1 v = r2 v) ->
  forall l acc, for_of_into (cleanField r1) l acc = for_of_into (cleanField r2) l acc.
Proof.
  intros Hext. induction l as [|[k v] l IH]; intros acc; cbn [for_of_into]; [reflexivity|].
  assert (Hstep : cleanField r1 acc (k, v) = cleanField r2 acc (k, v)).
  { destruct v; try reflexivity. simpl.
    destruct (VALID_OPERATORS k); [reflexivity|].
    destruct (inherited k); [reflexivity|]. now rewrite Hext. }
  rewrite Hstep. destruct (cleanField r2 acc (k, v)); simpl; [apply IH | reflexivity].
Qed.

(** [cleanFilter] as the source has it: the loop over the entries, with the
    recursive call on the object of an unknown field. *)
Lemma cleanFilter_unfold (o : obj) :
  cleanFilter o =
  bind (for_of_into (cleanField (fun v => match v with
                                          | JObj fieldObj => cleanFilter fieldObj
                                          | _ => Ok None
                                          end)) o [])
    (fun result => Ok (if (0 <? List.length (keys result))%nat then Some result else None)).
Proof.
  unfold cleanFilter at 1. simpl.
  rewrite (cleanField_ext cleanFilter_value
             (fun v => match v with JObj fieldObj => cleanFilter fieldObj | _ => Ok None end));
    [reflexivity|].
  now intros [].
Qed.

(** A result of [cleanFilter] is the object its loop returns, and it is
    not empty. *)
Lemma cleanFilter_result (f r : obj) :
  cleanFilter f = Ok (Some r) ->
  for_of_into (cleanField cleanFilter_value) f [] = Ok r /\ r <> [].
Proof.
  unfold cleanFilter. cbn [cleanFilter_value].
  destruct (for_of_into (cleanField cleanFilter_value) f []) as [result|e]; [|discriminate].
  cbn [bind]. destruct (0 <? _)%nat eqn:Hlen; [|discriminate].
  intros [= <-]. split; [reflexivity | now apply nonempty_keys].
Qed.

Lemma cleanFilter_of_loop (f result : obj) :
  for_of_into (cleanField cleanFilter_value) f [] = Ok result ->
  cleanFilter f = Ok (match result with [] => None | _ => Some result end).
Proof.
  unfold cleanFilter. cbn [cleanFilter_value]. intros ->. cbn [bind].
  now destruct result.
Qed.

(** One iteration of the loop, by the kind of the field. *)
Lemma cleanField_outcome fieldName fieldValue :
  exists o, cleans_to fieldName fieldValue o /\
            forall acc, cleanField cleanFilter_value acc (fieldName, fieldValue)
                        = outcome_on acc fieldName o.
Proof.
  assert (Hplain : forall v, nullish v = false -> (forall o, v <> JObj o) ->
            exists o, cleans_to fieldName v o /\
                      forall acc, Ok (obj_assign acc fieldName v) = outcome_on acc fieldName o).
  { intros v Hnn Hv. destruct (String.eqb_spec fieldName "__proto__") as [Heq|Hne].
    - exists Skipped. split; [now apply clean_prototype|].
      intros acc. unfold obj_assign. now rewrite Heq.
    - exists (Stored v). split; [now apply clean_plain|].
      intros acc. cbn [outcome_on]. now rewrite obj_assign_own. }
  destruct fieldValue as [ | | b | n | s | items | fieldObj ];
    try (exists Skipped; split; [now apply clean_nullish | reflexivity]);
    try (apply Hplain; [reflexivity | discriminate]).
  unfold cleanField.
  destruct (VALID_OPERATORS fieldName) as [validOperators|] eqn:Hknown.
  - destruct (VALID_OPERATORS_own _ _ Hknown) as [Hown _].
    cbv zeta.
    destruct (cleanOperators validOperators fieldObj) as [|e cleaned] eqn:Hclean.
    + exists Skipped. split; [now apply (clean_known_none _ _ validOperators) | reflexivity].
    + exists (Stored (JObj (cleanOperators validOperators fieldObj))). split.
      * apply clean_known; [exact Hknown | now rewrite Hclean].
      * intros acc. rewrite Hclean. cbn [keys map List.length Nat.ltb Nat.leb outcome_on].
        now rewrite obj_assign_own by now apply not_inherited_not_proto.
  - destruct (inherited fieldName) eqn:Hinh.
    + destruct fieldObj as [|entry fieldObj].
      * exists Skipped. split; [now apply clean_inherited_empty | reflexivity].
      * exists (Thrown (TypeError "validOperators.has is not a function")).
        split; [now apply clean_inherited | reflexivity].
    + change (cleanFilter_value (JObj fieldObj)) with (cleanFilter fieldObj).
      destruct (cleanFilter fieldObj) as [[cleaned|]|e] eqn:Hclean.
      * exists (Stored (JObj cleaned)). split; [now apply clean_unknown|].
        intros acc. cbn [bind outcome_on].
        destruct (cleanFilter_result _ _ Hclean) as [_ Hne].
        rewrite (keys_nonempty _ Hne).
        now rewrite obj_assign_own by now apply not_inherited_not_proto.
      * exists Skipped. split; [now apply clean_unknown_none | reflexivity].
      * exists (Thrown e). split; [now apply clean_unknown_throws | reflexivity].
Qed.

(** The outcome is that of the field alone. *)
Lemma cleans_to_unique fieldName fieldValue o1 o2 :
  cleans_to fieldName fieldValue o1 -> cleans_to fieldName fieldValue o2 -> o1 = o2.
Proof.
  intros H1 H2.
  destruct (cleanField_outcome fieldName fieldValue) as (o & Ho & _).
  assert (Huniq : forall o', cleans_to fieldName fieldValue o' -> o' = o).
  { clear H1 H2. intros o' H'.
    destruct H'; inversion Ho; subst; try reflexivity; try congruence;
      try discriminate;
      try match goal with
          | H : forall o, ?v <> JObj o |- _ => now elim (H _ eq_refl)
          end. }
  now rewrite (Huniq _ H1), (Huniq _ H2).
Qed.

Lemma cleanField_throws_alike acc acc' kv e :
  cleanField cleanFilter_value acc kv = Throw e ->
  cleanField cleanFilter_value acc' kv = Throw e.
Proof.
  destruct kv as [k v]. destruct (cleanField_outcome k v) as (o & _ & Ho).
  rewrite !Ho. destruct o; try discriminate. now intros H.
Qed.

(** What an iteration leaves: the result as it was, or the result with a
    value stored under the field's name. *)
Lemma settled_cleanField acc kv :
  exists o, cleans_to (fst kv) (snd kv) o /\
            settled (cleanField cleanFilter_value) acc kv =
            match o with
            | Stored v => obj_set acc (fst kv) v
            | _ => acc
            end.
Proof.
  destruct kv as [k v]. destruct (cleanField_outcome k v) as (o & Hto & Ho).
  exists o. split; [exact Hto|].
  unfold settled. rewrite Ho. now destruct o.
Qed.

Lemma settled_cleanField_stores (Q : string * jsval -> Prop) acc kv :
  (forall v', cleans_to (fst kv) (snd kv) (Stored v') -> Q (fst kv, v')) ->
  settled (cleanField cleanFilter_value) acc kv = acc \/
  exists v', settled (cleanField cleanFilter_value) acc kv = obj_set acc (fst kv) v'
             /\ Q (fst kv, v').
Proof.
  intros HQ. destruct (settled_cleanField acc kv) as (o & Hto & ->).
  destruct o as [|v'|e]; [now left| |now left].
  right. exists v'. split; [reflexivity | now apply HQ].
Qed.

Lemma stored_stable fieldName fieldValue v' :
  (forall r, cleanFilter_value fieldValue = Ok (Some r) ->
             cleanFilter_value (JObj r) = Ok (Some r)) ->
  cleans_to fieldName fieldValue (Stored v') -> field_stable (fieldName, v').
Proof.
  intros IH Hto acc. cbn [fst snd].
  inversion Hto as [ | |v Hnn Hv Hne| |fieldObj ops Hknown Hclean| | | |
                   |fieldObj cleaned Hunknown Hinh Hclean]; subst.
  - destruct v'; try discriminate Hnn; try (now elim (Hv _ eq_refl));
      cbn [cleanField]; now rewrite obj_assign_own.
  - destruct (VALID_OPERATORS_own _ _ Hknown) as [Hown Hproto].
    destruct (cleanOperators_invariant ops fieldObj) as [Hkept Hnd].
    unfold cleanField. rewrite Hknown. cbv zeta.
    rewrite (cleanOperators_fixed _ _ Hproto Hkept Hnd), (keys_nonempty _ Hclean).
    now rewrite obj_assign_own by now apply not_inherited_not_proto.
  - unfold cleanField. rewrite Hunknown, Hinh, (IH _ Hclean). cbn [bind].
    destruct (cleanFilter_result _ _ Hclean) as [_ Hne].
    rewrite (keys_nonempty _ Hne).
    now rewrite obj_assign_own by now apply not_inherited_not_proto.
Qed.

Lemma cleanFilter_value_fixed (v : jsval) :
  forall r, cleanFilter_value v = Ok (Some r) -> cleanFilter_value (JObj r) = Ok (Some r).
Proof.
  induction v as [ | | b | n | s | items _ | entries IH ] using jsval_nested_ind;
    try discriminate.
  intros r Hclean.
  destruct (cleanFilter_result entries r Hclean) as [Hloop Hne].
  pose proof (for_of_into_settled _ _ _ _ Hloop) as Hr.
  assert (Hinv : Forall field_stable r /\ NoDup (keys r)).
  { rewrite Hr.
    apply (copy_loop_invariant (settled (cleanField cleanFilter_value)) field_stable entries).
    - intros acc kv Hin. apply settled_cleanField_stores.
      intros v' Hto. apply (stored_stable (fst kv) (snd kv)); [|exact Hto].
      rewrite Forall_forall in IH. now apply IH.
    - constructor.
    - constructor. }
  destruct Hinv as [Hstable Hnd].
  assert (Hsteps : forall acc kv, In kv r ->
            cleanField cleanFilter_value acc kv = Ok (obj_set acc (fst kv) (snd kv))).
  { intros acc kv Hin. rewrite Forall_forall in Hstable. apply (Hstable kv Hin). }
  assert (Hagain : for_of_into (cleanField cleanFilter_value) r [] = Ok r).
  { rewrite for_of_into_returns by (intros acc kv Hin; rewrite (Hsteps acc kv Hin); eauto).
    f_equal. rewrite copy_loop_fixed; [reflexivity| |exact Hnd].
    intros acc kv Hin. unfold settled. now rewrite (Hsteps acc kv Hin). }
  change (cleanFilter r = Ok (Some r)).
  rewrite (cleanFilter_of_loop _ _ Hagain).
  destruct r; [now elim Hne | reflexivity].
Qed.

Lemma stored_sanitized fieldName fieldValue v' :
  cleans_to fieldName fieldValue (Stored v') -> field_sanitized (fieldName, v').
Proof.
  intros Hto. unfold field_sanitized. cbn [fst snd].
  inversion Hto as [ | |v Hnn Hv Hne| |fieldObj ops Hknown Hclean| | | |
                   |fieldObj cleaned Hunknown Hinh Hclean]; subst.
  - split; [apply Hv|]. split; intros; subst; now elim (Hv _ eq_refl).
  - split; [|split].
    + intros [= Heq]. now apply Hclean.
    + intros ops' operatorMap Hops [= <-] op Hop.
      rewrite Hknown in Hops. injection Hops as <-.
      destruct (cleanOperators_invariant ops fieldObj) as [Hkept _].
      rewrite Forall_forall in Hkept.
      unfold keys in Hop. apply in_map_iff in Hop. destruct Hop as (kv & <- & Hin).
      now apply Hkept.
    + intros nested Hnone. congruence.
  - destruct (cleanFilter_result _ _ Hclean) as [_ Hne].
    split; [|split].
    + intros [= Heq]. now apply Hne.
    + intros ops operatorMap Hops. congruence.
    + intros nested _ [= <-]. exact (cleanFilter_value_fixed _ _ Hclean).
Qed.

(** C1's invariant on the whole result. *)
Lemma cleanFilter_fields_sanitized (f r : obj) :
  cleanFilter f = Ok (Some r) -> r <> [] /\ Forall field_sanitized r.
Proof.
  intros Hclean. destruct (cleanFilter_result f r Hclean) as [Hloop Hne].
  split; [exact Hne|].
  rewrite (for_of_into_settled _ _ _ _ Hloop).
  apply (copy_loop_invariant (settled (cleanField cleanFilter_value)) field_sanitized f).
  - intros acc kv _. apply settled_cleanField_stores.
    intros v'. apply stored_sanitized.
  - constructor.
  - constructor.
Qed.

(** C1. For every filter [f], a result [r] of [cleanFilter f] satisfies the
    sanitization invariant: it is never the empty object (a filter whose
    fields are all eliminated cleans to [undefined], here [None]); no
    surviving field maps to the empty operator map; for every surviving
    field known to the operator whitelist, every operator key of its
    operator map is in the whitelist of that field; and the object of a
    surviving unknown field is a cleaned filter in its turn, so that the
    same holds at every depth. *)
Theorem cleanFilter_sanitization_invariant (f r : obj) :
  cleanFilter f = Ok (Some r) ->
  r <> [] /\
  forall fieldName v, In (fieldName, v) r ->
    v <> JObj [] /\
    (forall validOperators operatorMap,
       VALID_OPERATORS fieldName = Some validOperators ->
       v = JObj operatorMap ->
       forall op, In op (keys operatorMap) -> In op validOperators) /\
    (forall nested,
       VALID_OPERATORS fieldName = None ->
       v = JObj nested ->
       cleanFilter nested = Ok (Some nested)).
Proof.
  intros Hclean.
  destruct (cleanFilter_fields_sanitized f r Hclean) as [Hne Hall].
  split; [exact Hne|].
  intros fieldName v Hin.
  rewrite Forall_forall in Hall.
  exact (Hall (fieldName, v) Hin).
Qed.

Lemma cleanFilter_sanitization_invariant_witness :
  let f := [ ("title", JObj [("string_contains", JStr "bug")]);
             ("state", JObj [("gte", JStr "new")]);
             ("custom", JObj [("state", JObj [("gte", JStr "new"); ("in", JArr [JStr "new"])])]);
             ("created_at", JObj [("gte", JStr "2024-01-01T00:00:00Z");
                                  ("time_is_after", JStr "2024-01-01T00:00:00Z")]) ] in
  let r := [ ("title", JObj [("string_contains", JStr "bug")]);
             ("custom", JObj [("state", JObj [("in", JArr [JStr "new"])])]);
             ("created_at", JObj [("time_is_after", JStr "2024-01-01T00:00:00Z")]) ] in
  cleanFilter f = Ok (Some r) /\
  (r <> [] /\
   forall fieldName v, In (fieldName, v) r ->
     v <> JObj [] /\
     (forall validOperators operatorMap,
        VALID_OPERATORS fieldName = Some validOperators ->
        v = JObj operatorMap ->
        forall op, In op (keys operatorMap) -> In op validOperators) /\
     (forall nested,
        VALID_OPERATORS fieldName = None ->
        v = JObj nested ->
        cleanFilter nested = Ok (Some nested))).
Proof.
  split.
  - reflexivity.
  - apply (cleanFilter_sanitization_invariant
             [ ("title", JObj [("string_contains", JStr "bug")]);
               ("state", JObj [("gte", JStr "new")]);
               ("custom", JObj [("state", JObj [("gte", JStr "new"); ("in", JArr [JStr "new"])])]);
               ("created_at", JObj [("gte", JStr "2024-01-01T00:00:00Z");
                                    ("time_is_after", JStr "2024-01-01T00:00:00Z")]) ]).
    reflexivity.
Defined.

(** C7. [cleanFilter] is idempotent: when [cleanFilter f] is defined, cleaning
    its result again returns that result, so an already clean filter passes
    through unchanged. *)
Theorem cleanFilter_idempotent (f r : obj) :
  cleanFilter f = Ok (Some r) -> cleanFilter r = Ok (Some r).
Proof.
  unfold cleanFilter. apply cleanFilter_value_fixed.
Qed.

Lemma cleanFilter_idempotent_witness :
  let f := [ ("foo", JObj [ ("state", JObj [("bogus_op", JStr "x"); ("in", JArr [JStr "new"])]);
                            ("z", JNull) ]);
             ("title", JObj [("string_contains", JStr "bug"); ("gte", JNum 1)]);
             ("limit", JNum 3) ] in
  let r := [ ("foo", JObj [ ("state", JObj [("in", JArr [JStr "new"])]) ]);
             ("title", JObj [("string_contains", JStr "bug")]);
             ("limit", JNum 3) ] in
  cleanFilter f = Ok (Some r) /\ cleanFilter r = Ok (Some r).
Proof.
  split.
  - reflexivity.
  - apply (cleanFilter_idempotent
             [ ("foo", JObj [ ("state", JObj [("bogus_op", JStr "x"); ("in", JArr [JStr "new"])]);
                              ("z", JNull) ]);
               ("title", JObj [("string_contains", JStr "bug"); ("gte", JNum 1)]);
               ("limit", JNum 3) ]).
    reflexivity.
Defined.

(** The scenarios of the specification. *)
Example cleanFilter_drops_unknown_operator :
  cleanFilter [ ("title", JObj [("string_contains", JStr "bug")]);
                ("state", JObj [("gte", JStr "new")]) ]
  = Ok (Some [ ("title", JObj [("string_contains", JStr "bug")]) ]).
Proof. reflexivity. Qed.

Example cleanFilter_all_eliminated :
  cleanFilter [ ("state", JObj [("bogus_op", JStr "x")]) ] = Ok None.
Proof. reflexivity. Qed.

(** A field under the name of a member of [Object.prototype]: an object
    that is not empty makes [cleanFilter] throw, and a value under
    [__proto__] is not stored. *)
Example cleanFilter_inherited_names :
  cleanFilter [ ("constructor", JObj [("equals", JStr "x")]) ]
  = Throw (TypeError "validOperators.has is not a function")
  /\ cleanFilter [ ("__proto__", JNum 5) ] = Ok None
  /\ cleanFilter [ ("constructor", JNum 5) ] = Ok (Some [ ("constructor", JNum 5) ]).
Proof. repeat split. Qed.

(** ** validateTimeRange *)

Section TimeRangeProperties.

Variable new_Date : jsval -> option Z.
Variable toFixed1 : Z -> string.


End TimeRangeProperties.


(** ** Time ranges in search filters *)

Section SearchProperties.

Variable new_Date : jsval -> option Z.
Variable toFixed1 : Z -> string.
Variable fetch : list http_call -> http_call -> result response.

Lemma validateFieldTimeRange_carried fieldName fieldValue start end_ :
  carries_time_range fieldValue start end_ ->
  validateFieldTimeRange new_Date toFixed1 (fieldName, fieldValue) =
  match validateTimeRange new_Date toFixed1 start end_ with
  | Ok _ => Ok tt
  | Throw error => Throw (time_range_error fieldName error)
  end.
Proof.
  intros (fieldObj & timeRange & -> & Htr & Hs & He & Hts & Hte).
  unfold validateFieldTimeRange. rewrite Htr. simpl.
  rewrite Hs, He, Hts, Hte. reflexivity.
Qed.

Lemma validateFieldTimeRange_throws fieldName fieldValue x :
  validateFieldTimeRange new_Date toFixed1 (fieldName, fieldValue) = Throw x ->
  exists start end_ error,
    carries_time_range fieldValue start end_ /\
    validateTimeRange new_Date toFixed1 start end_ = Throw error /\
    x = time_range_error fieldName error.
Proof.
  unfold validateFieldTimeRange.
  destruct fieldValue as [ | | | | | | fieldObj ]; try discriminate.
  destruct (get fieldObj "time_range") as [ | | b | n | s | items | timeRange ] eqn:Htr;
    simpl; try discriminate;
    try (destruct b; discriminate);
    try (destruct (negb _); discriminate).
  destruct (truthy (get timeRange "start")) eqn:Hs; simpl; [|discriminate].
  destruct (truthy (get timeRange "end")) eqn:He; simpl; [|discriminate].
  destruct (validateTimeRange _ _ _ _) as [|error] eqn:Hv; [discriminate|].
  intros [= <-].
  exists (get timeRange "start"), (get timeRange "end"), error.
  split; [|split; [assumption | reflexivity]].
  exists fieldObj, timeRange. repeat split; assumption.
Qed.

(** [searchIssues] validates first, then cleans: a failure of either is
    its outcome and nothing has been done; otherwise it logs twice and
    makes its one request. *)
Lemma searchIssues_unfold filter params w :
  searchIssues new_Date toFixed1 fetch filter params w =
  match validateFilterTimeRanges new_Date toFixed1 filter with
  | Throw e => (Throw e, w)
  | Ok _ =>
      match cleanFilter filter with
      | Throw e => (Throw e, w)
      | Ok cleanedFilter =>
          request fetch "POST" "/issues/search"
            (Some (search_body cleanedFilter params))
            {| http := http w;
               stderr := (stderr w
                          ++ [("[pylon-mcp] searchIssues raw:", JObj filter)]
                          ++ [("[pylon-mcp] searchIssues cleaned:",
                               nullish_or (undefined_or cleanedFilter) (JObj []))])%list |}
      end
  end.
Proof.
  unfold searchIssues, mbind, lift, console_error.
  destruct (validateFilterTimeRanges _ _ _); [|reflexivity].
  destruct (cleanFilter filter); [|reflexivity].
  simpl. now rewrite <- app_assoc.
Qed.

(** [searchAccounts] and [searchContacts] clean the filter and make their
    request; an exception of [cleanFilter] is their outcome, and nothing
    has been done. *)
Lemma searchAccounts_unfold filter params w :
  searchAccounts fetch filter params w =
  match cleanFilter filter with
  | Throw e => (Throw e, w)
  | Ok cleanedFilter =>
      request fetch "POST" "/accounts/search" (Some (search_body cleanedFilter params)) w
  end.
Proof.
  unfold searchAccounts, mbind, lift. now destruct (cleanFilter filter).
Qed.

Lemma searchContacts_unfold filter params w :
  searchContacts fetch filter params w =
  match cleanFilter filter with
  | Throw e => (Throw e, w)
  | Ok cleanedFilter =>
      request fetch "POST" "/contacts/search" (Some (search_body cleanedFilter params)) w
  end.
Proof.
  unfold searchContacts, mbind, lift. now destruct (cleanFilter filter).
Qed.

Lemma request_http method path body w :
  http (snd (request fetch method path (Some body) w)) =
  (http w ++ [ {| call_method := method; call_path := path;
                  call_body := if truthy body then Some body else None |} ])%list.
Proof.
  unfold request.
  destruct (fetch _ _) as [resp|e]; [|reflexivity].
  now destruct (resp_ok resp).
Qed.

Lemma validateFilterTimeRanges_first pre fieldName fieldValue post start end_ error :
  Forall (fun kv => validateFieldTimeRange new_Date toFixed1 kv = Ok tt) pre ->
  carries_time_range fieldValue start end_ ->
  validateTimeRange new_Date toFixed1 start end_ = Throw error ->
  validateFilterTimeRanges new_Date toFixed1 (pre ++ (fieldName, fieldValue) :: post)%list =
  Throw (time_range_error fieldName error).
Proof.
  unfold validateFilterTimeRanges.
  intros Hpre Hcarries Hfail.
  induction Hpre as [|kv pre Hkv _ IH]; cbn [app for_of].
  - rewrite (validateFieldTimeRange_carried _ _ _ _ Hcarries), Hfail. reflexivity.
  - rewrite Hkv. exact IH.
Qed.

Lemma validateFilterTimeRanges_some filter fieldName fieldValue start end_ error :
  In (fieldName, fieldValue) filter ->
  carries_time_range fieldValue start end_ ->
  validateTimeRange new_Date toFixed1 start end_ = Throw error ->
  exists fieldName' fieldValue' start' end' error',
    In (fieldName', fieldValue') filter /\
    carries_time_range fieldValue' start' end' /\
    validateTimeRange new_Date toFixed1 start' end' = Throw error' /\
    validateFilterTimeRanges new_Date toFixed1 filter =
    Throw (time_range_error fieldName' error').
Proof.
  unfold validateFilterTimeRanges.
  intros Hin Hcarries Hfail.
  induction filter as [|[k v] filter IH]; [destruct Hin|].
  cbn [for_of].
  destruct (validateFieldTimeRange new_Date toFixed1 (k, v)) as [[]|x] eqn:Hkv.
  - destruct Hin as [Heq|Hin].
    + injection Heq as -> ->.
      rewrite (validateFieldTimeRange_carried _ _ _ _ Hcarries), Hfail in Hkv.
      discriminate.
    + destruct (IH Hin) as (k' & v' & s' & e' & err' & Hin' & Hc' & Hf' & Heq).
      exists k', v', s', e', err'. repeat split; try assumption. now right.
  - destruct (validateFieldTimeRange_throws _ _ _ Hkv) as (s' & e' & err' & Hc' & Hf' & ->).
    exists k, v, s', e', err'. repeat split; try assumption. now left.
Qed.

(** C2, as the code has it.  [searchIssues] validates the time ranges
    before anything else: when some field of the filter is an object that
    carries a [time_range] with truthy [start] and [end] that
    [validateTimeRange] rejects, [searchIssues] raises the error of such a
    field, the message of [validateTimeRange] wrapped with the field name,
    and makes no HTTP call and no other effect; the field is the first
    failing one; and when no field fails and [cleanFilter] returns, it
    makes exactly the one search request.  [searchAccounts] and
    [searchContacts] validate no time range: whatever time ranges the
    filter holds, when [cleanFilter] returns they make their search request
    with the cleaned filter. *)
Theorem search_time_range_validation (filter : obj) (params : jsval) (w : effects) :
  (forall fieldName fieldValue start end_ error,
     In (fieldName, fieldValue) filter ->
     carries_time_range fieldValue start end_ ->
     validateTimeRange new_Date toFixed1 start end_ = Throw error ->
     exists fieldName' fieldValue' start' end' error',
       In (fieldName', fieldValue') filter /\
       carries_time_range fieldValue' start' end' /\
       validateTimeRange new_Date toFixed1 start' end' = Throw error' /\
       searchIssues new_Date toFixed1 fetch filter params w =
       (Throw (Error ("Invalid time_range for " ++ fieldName' ++ ": "
                      ++ message_of error')), w)) /\
  (forall pre fieldName fieldValue post start end_ error,
     filter = (pre ++ (fieldName, fieldValue) :: post)%list ->
     Forall (fun kv => validateFieldTimeRange new_Date toFixed1 kv = Ok tt) pre ->
     carries_time_range fieldValue start end_ ->
     validateTimeRange new_Date toFixed1 start end_ = Throw error ->
     searchIssues new_Date toFixed1 fetch filter params w =
     (Throw (Error ("Invalid time_range for " ++ fieldName ++ ": "
                    ++ message_of error)), w)) /\
  (forall cleanedFilter,
     validateFilterTimeRanges new_Date toFixed1 filter = Ok tt ->
     cleanFilter filter = Ok cleanedFilter ->
     http (snd (searchIssues new_Date toFixed1 fetch filter params w)) =
     (http w ++ [ {| call_method := "POST"; call_path := "/issues/search";
                     call_body := Some (search_body cleanedFilter params) |} ])%list) /\
  (forall cleanedFilter,
     cleanFilter filter = Ok cleanedFilter ->
     http (snd (searchAccounts fetch filter params w)) =
     (http w ++ [ {| call_method := "POST"; call_path := "/accounts/search";
                     call_body := Some (search_body cleanedFilter params) |} ])%list) /\
  (forall cleanedFilter,
     cleanFilter filter = Ok cleanedFilter ->
     http (snd (searchContacts fetch filter params w)) =
     (http w ++ [ {| call_method := "POST"; call_path := "/contacts/search";
                     call_body := Some (search_body cleanedFilter params) |} ])%list).
Proof.
  split; [|split; [|split; [|split]]].
  - intros fieldName fieldValue start end_ error Hin Hcarries Hfail.
    destruct (validateFilterTimeRanges_some _ _ _ _ _ _ Hin Hcarries Hfail)
      as (k' & v' & s' & e' & err' & Hin' & Hc' & Hf' & Hthrow).
    exists k', v', s', e', err'. repeat split; try assumption.
    rewrite searchIssues_unfold, Hthrow. reflexivity.
  - intros pre fieldName fieldValue post start end_ error -> Hpre Hcarries Hfail.
    rewrite searchIssues_unfold,
      (validateFilterTimeRanges_first _ _ _ _ _ _ _ Hpre Hcarries Hfail).
    reflexivity.
  - intros c Hvalid Hclean.
    rewrite searchIssues_unfold, Hvalid, Hclean, request_http. reflexivity.
  - intros c Hclean. rewrite searchAccounts_unfold, Hclean, request_http. reflexivity.
  - intros c Hclean. rewrite searchContacts_unfold, Hclean, request_http. reflexivity.
Qed.

End SearchProperties.

Lemma search_time_range_validation_witness :
  searchIssues Runtime.new_Date Runtime.toFixed1 Runtime.fetch
    (("state", JObj [("equals", JStr "new")]) :: reversed_range_filter) JUndefined no_effects
  = (Throw (Error "Invalid time_range for created_at: start_time must be before end_time"),
     no_effects).
Proof.
  destruct (search_time_range_validation Runtime.new_Date Runtime.toFixed1 Runtime.fetch
              (("state", JObj [("equals", JStr "new")]) :: reversed_range_filter)
              JUndefined no_effects) as (_ & Hfirst & _).
  apply (Hfirst [("state", JObj [("equals", JStr "new")])] "created_at"
           (JObj [ ("time_range", JObj [ ("start", JStr "2024-02-01T00:00:00Z");
                                         ("end", JStr "2024-01-01T00:00:00Z") ]) ])
           [] (JStr "2024-02-01T00:00:00Z") (JStr "2024-01-01T00:00:00Z")
           (Error "start_time must be before end_time")).
  - reflexivity.
  - repeat constructor.
  - eexists. eexists. repeat split; reflexivity.
  - reflexivity.
Defined.

(** C2 fails as stated.  On a filter whose time range ends before it
    starts, which [validateTimeRange] rejects, [searchAccounts] and
    [searchContacts] raise nothing and make their HTTP call; and
    [searchIssues] makes its HTTP call on a time range whose [start] is
    present but empty, although [validateTimeRange] rejects that pair. *)
Lemma search_validation_not_on_every_search :
  validateTimeRange Runtime.new_Date Runtime.toFixed1
    (JStr "2024-02-01T00:00:00Z") (JStr "2024-01-01T00:00:00Z")
  = Throw (Error "start_time must be before end_time")
  /\ searchAccounts Runtime.fetch reversed_range_filter JUndefined no_effects
     = (Ok Runtime.empty_page,
        {| http := [ {| call_method := "POST"; call_path := "/accounts/search";
                        call_body := Some (JObj [ ("filter", JObj reversed_range_filter);
                                                  ("limit", JUndefined);
                                                  ("cursor", JUndefined) ]) |} ];
           stderr := [] |})
  /\ searchContacts Runtime.fetch reversed_range_filter JUndefined no_effects
     = (Ok Runtime.empty_page,
        {| http := [ {| call_method := "POST"; call_path := "/contacts/search";
                        call_body := Some (JObj [ ("filter", JObj reversed_range_filter);
                                                  ("limit", JUndefined);
                                                  ("cursor", JUndefined) ]) |} ];
           stderr := [] |})
  /\ validateTimeRange Runtime.new_Date Runtime.toFixed1
       (JStr "") (JStr "2024-01-01T00:00:00Z")
     = Throw (Error "Invalid start_time format: . Use RFC3339 format (e.g., 2024-01-01T00:00:00Z)")
  /\ http (snd (searchIssues Runtime.new_Date Runtime.toFixed1 Runtime.fetch
                  empty_start_filter JUndefined no_effects))
     = [ {| call_method := "POST"; call_path := "/issues/search";
            call_body := Some (JObj [ ("filter", JObj empty_start_filter);
                                      ("limit", JUndefined);
                                      ("cursor", JUndefined) ]) |} ].
Proof.
  repeat split; reflexivity.
Qed.

(** ** The views *)

Lemma toIssueMinimal_fields (raw : obj) :
  toIssueMinimal raw =
  [ ("id", get raw "id"); ("number", get raw "number"); ("title", get raw "title");
    ("state", get raw "state"); ("link", get raw "link");
    ("created_at", get raw "created_at"); ("assignee_id", extractAssigneeId raw);
    ("account_id", extractAccountId raw); ("tags", get raw "tags") ].
Proof. reflexivity. Qed.

Lemma toIssueStandard_fields (raw : obj) :
  toIssueStandard raw =
  (toIssueMinimal raw ++
   [ ("requester_id", extractRequesterId raw); ("team_id", extractTeamId raw);
     ("resolution_time", get raw "resolution_time");
     ("latest_message_time", get raw "latest_message_time");
     ("first_response_time", get raw "first_response_time");
     ("customer_portal_visible", get raw "customer_portal_visible");
     ("source", get raw "source"); ("type", get raw "type") ])%list.
Proof. reflexivity. Qed.

Lemma toIssueFull_fields (raw : obj) :
  toIssueFull raw =
  bind (stripHtmlAndTruncate (get raw "body_html") MAX_BODY_LENGTH) (fun body =>
  Ok (toIssueStandard raw ++ [ ("body_html", JStr body) ])%list).
Proof. reflexivity. Qed.

Lemma toAccountMinimal_fields (raw : obj) :
  toAccountMinimal raw =
  [ ("id", get raw "id"); ("name", get raw "name");
    ("primary_domain", get raw "primary_domain");
    ("owner_id", nullish_or (opt_prop (get raw "owner") "id") (get raw "owner_id"));
    ("tags", get raw "tags") ].
Proof. reflexivity. Qed.

Lemma toContactMinimal_fields (raw : obj) :
  toContactMinimal raw =
  [ ("id", get raw "id"); ("name", get raw "name"); ("email", get raw "email");
    ("account_id", nullish_or (opt_prop (get raw "account") "id") (get raw "account_id"));
    ("portal_role", get raw "portal_role") ].
Proof. reflexivity. Qed.

Lemma get_absent (o : obj) (k : string) : ~ In k (keys o) -> get o k = JUndefined.
Proof.
  induction o as [|[k' v] o IH]; simpl; intros Hk; [reflexivity|].
  destruct (String.eqb_spec k' k) as [->|Hne].
  - exfalso. apply Hk. now left.
  - apply IH. intro Hin. apply Hk. now right.
Qed.

Lemma nullish_or_null_cases (v : jsval) :
  nullish v = true -> nullish_or v JNull = JNull.
Proof. intros H. unfold nullish_or. now rewrite H. Qed.

(** C3, as the code has it.  In the issue views ([account_id] and
    [assignee_id] of the minimal view, [requester_id] and [team_id] of the
    standard view) a flat field that is a string is the projected
    identifier, whatever the nested object holds; otherwise the [id] of the
    nested object of the relation is, when there is one; otherwise the
    field is [undefined] ([account_id]) or [null] (the other three).  In
    the account and contact views ([owner_id], [account_id]) the order is
    the other one: the [id] of the nested object is the projected
    identifier when it is neither [null] nor [undefined], also against a
    flat string, and the flat field, whatever it holds, is used only
    otherwise. *)
Theorem identifier_extraction (raw : obj) :
  ((forall s, get raw "account_id" = JStr s ->
      get (toIssueMinimal raw) "account_id" = JStr s) /\
   (forall s, get raw "assignee_id" = JStr s ->
      get (toIssueMinimal raw) "assignee_id" = JStr s) /\
   (forall s, get raw "requester_id" = JStr s ->
      get (toIssueStandard raw) "requester_id" = JStr s) /\
   (forall s, get raw "team_id" = JStr s ->
      get (toIssueStandard raw) "team_id" = JStr s)) /\
  ((is_string (get raw "account_id") = false ->
      get (toIssueMinimal raw) "account_id" = opt_prop (get raw "account") "id") /\
   (is_string (get raw "assignee_id") = false ->
      nullish (opt_prop (get raw "assignee") "id") = false ->
      get (toIssueMinimal raw) "assignee_id" = opt_prop (get raw "assignee") "id") /\
   (is_string (get raw "requester_id") = false ->
      nullish (opt_prop (get raw "requester") "id") = false ->
      get (toIssueStandard raw) "requester_id" = opt_prop (get raw "requester") "id") /\
   (is_string (get raw "team_id") = false ->
      nullish (opt_prop (get raw "team") "id") = false ->
      get (toIssueStandard raw) "team_id" = opt_prop (get raw "team") "id")) /\
  ((is_string (get raw "account_id") = false -> ~ In "account" (keys raw) ->
      get (toIssueMinimal raw) "account_id" = JUndefined) /\
   (is_string (get raw "assignee_id") = false ->
      nullish (opt_prop (get raw "assignee") "id") = true ->
      get (toIssueMinimal raw) "assignee_id" = JNull) /\
   (is_string (get raw "requester_id") = false ->
      nullish (opt_prop (get raw "requester") "id") = true ->
      get (toIssueStandard raw) "requester_id" = JNull) /\
   (is_string (get raw "team_id") = false ->
      nullish (opt_prop (get raw "team") "id") = true ->
      get (toIssueStandard raw) "team_id" = JNull)) /\
  ((nullish (opt_prop (get raw "owner") "id") = false ->
      get (toAccountMinimal raw) "owner_id" = opt_prop (get raw "owner") "id") /\
   (nullish (opt_prop (get raw "owner") "id") = true ->
      get (toAccountMinimal raw) "owner_id" = get raw "owner_id") /\
   (nullish (opt_prop (get raw "account") "id") = false ->
      get (toContactMinimal raw) "account_id" = opt_prop (get raw "account") "id") /\
   (nullish (opt_prop (get raw "account") "id") = true ->
      get (toContactMinimal raw) "account_id" = get raw "account_id")).
Proof.
  rewrite toIssueStandard_fields, toIssueMinimal_fields,
    toAccountMinimal_fields, toContactMinimal_fields.
  cbn [get app String.eqb Ascii.eqb Bool.eqb].
  unfold extractAccountId, extractAssigneeId, extractRequesterId, extractTeamId, nullish_or.
  repeat split.
  - intros s ->. reflexivity.
  - intros s ->. reflexivity.
  - intros s ->. reflexivity.
  - intros s ->. reflexivity.
  - intros ->. reflexivity.
  - intros -> ->. reflexivity.
  - intros -> ->. reflexivity.
  - intros -> ->. reflexivity.
  - intros -> Habs. now rewrite (get_absent _ _ Habs).
  - intros -> ->. reflexivity.
  - intros -> ->. reflexivity.
  - intros -> ->. reflexivity.
  - intros ->. reflexivity.
  - intros ->. reflexivity.
  - intros ->. reflexivity.
  - intros ->. reflexivity.
Qed.

Lemma identifier_extraction_witness :
  let raw := [ ("id", JStr "I1"); ("account_id", JStr "A1");
               ("account", JObj [("id", JStr "A2")]);
               ("assignee", JObj [("id", JStr "U7")]); ("team_id", JNum 4) ] in
  get (toIssueMinimal raw) "account_id" = JStr "A1"
  /\ get (toIssueMinimal raw) "assignee_id" = JStr "U7"
  /\ get (toIssueStandard raw) "team_id" = JNull
  /\ get (toContactMinimal raw) "account_id" = JStr "A2".
Proof.
  destruct (identifier_extraction
              [ ("id", JStr "I1"); ("account_id", JStr "A1");
                ("account", JObj [("id", JStr "A2")]);
                ("assignee", JObj [("id", JStr "U7")]); ("team_id", JNum 4) ])
    as ((Hflat & _) & (_ & Hnested & _) & (_ & _ & _ & Hnone) & (_ & _ & Hcontact & _)).
  split; [|split; [|split]].
  - apply (Hflat "A1"). reflexivity.
  - apply Hnested; reflexivity.
  - apply Hnone; reflexivity.
  - apply Hcontact. reflexivity.
Defined.

(** C3 fails as stated: with a flat identifier and a nested object of a
    different [id], the account and the contact views take the nested one,
    while the issue view takes the flat one. *)
Lemma flat_identifier_does_not_always_win :
  get (toAccountMinimal [ ("id", JStr "A1"); ("name", JStr "Acme");
                          ("owner_id", JStr "U1");
                          ("owner", JObj [("id", JStr "U2")]) ]) "owner_id" = JStr "U2"
  /\ get (toContactMinimal [ ("id", JStr "C1"); ("name", JStr "Ann");
                             ("account_id", JStr "A1");
                             ("account", JObj [("id", JStr "A2")]) ]) "account_id" = JStr "A2"
  /\ get (toIssueMinimal [ ("id", JStr "I1"); ("account_id", JStr "A1");
                           ("account", JObj [("id", JStr "A2")]) ]) "account_id" = JStr "A1".
Proof.
  repeat split; reflexivity.
Qed.

(** C5. For every raw issue record, every field of the minimal view is a
    field of the standard view with the same value, every field of the
    standard view is a field of the full view with the same value, the full
    view has a field [body_html], which holds a string, and neither the
    standard nor the minimal view has a field of that name.  The full view
    exists whenever the body of the record is a string or is missing. *)
Theorem issue_view_containment (raw : obj) :
  (forall k v, In (k, v) (toIssueMinimal raw) -> In (k, v) (toIssueStandard raw)) /\
  (forall full, toIssueFull raw = Ok full ->
     (forall k v, In (k, v) (toIssueStandard raw) -> In (k, v) full) /\
     (forall k v, In (k, v) (toIssueMinimal raw) -> In (k, v) full) /\
     exists body, In ("body_html", JStr body) full /\ get full "body_html" = JStr body) /\
  (is_string (get raw "body_html") = true \/ nullish (get raw "body_html") = true ->
   exists full, toIssueFull raw = Ok full) /\
  ~ In "body_html" (keys (toIssueStandard raw)) /\
  ~ In "body_html" (keys (toIssueMinimal raw)).
Proof.
  assert (Hsub : forall k v, In (k, v) (toIssueMinimal raw) -> In (k, v) (toIssueStandard raw)).
  { intros k v Hin. rewrite toIssueStandard_fields. apply in_or_app. now left. }
  split; [exact Hsub|]. split; [|split; [|split]].
  - intros full. rewrite toIssueFull_fields.
    destruct (stripHtmlAndTruncate _ _) as [body|e]; [|discriminate].
    intros [= <-].
    assert (Hstd : forall k v, In (k, v) (toIssueStandard raw) ->
                     In (k, v) (toIssueStandard raw ++ [("body_html", JStr body)])%list).
    { intros k v Hin. apply in_or_app. now left. }
    split; [exact Hstd|]. split; [intros k v Hin; apply Hstd, Hsub, Hin|].
    exists body. split.
    + apply (in_or_app (toIssueStandard raw) [("body_html", JStr body)]). right. now left.
    + reflexivity.
  - rewrite toIssueFull_fields. unfold stripHtmlAndTruncate.
    destruct (get raw "body_html") as [ | | | | s | | ]; simpl;
      intros [H|H]; try discriminate; try (eexists; reflexivity).
    destruct (negb (s =? "")); [|eexists; reflexivity].
    destruct (_ <=? _)%Z; eexists; reflexivity.
  - rewrite toIssueStandard_fields, toIssueMinimal_fields. simpl.
    intros H. repeat (destruct H as [H|H]; [discriminate H|]). exact H.
  - rewrite toIssueMinimal_fields. simpl.
    intros H. repeat (destruct H as [H|H]; [discriminate H|]). exact H.
Qed.

Lemma issue_view_containment_witness :
  let raw := [ ("id", JStr "I1"); ("title", JStr "Printer on fire");
               ("state", JStr "new"); ("body_html", JStr "<p>Hi <b>there</b></p>");
               ("team", JObj [("id", JStr "T1")]) ] in
  In ("title", JStr "Printer on fire") (toIssueStandard raw)
  /\ exists full, toIssueFull raw = Ok full
                  /\ In ("title", JStr "Printer on fire") full
                  /\ get full "body_html" = JStr "Hi there".
Proof.
  destruct (issue_view_containment
              [ ("id", JStr "I1"); ("title", JStr "Printer on fire");
                ("state", JStr "new"); ("body_html", JStr "<p>Hi <b>there</b></p>");
                ("team", JObj [("id", JStr "T1")]) ])
    as (Hmin & Hfull & _).
  split.
  - apply Hmin. simpl. tauto.
  - eexists. split; [reflexivity|]. split.
    + refine (proj1 (proj2 (Hfull _ eq_refl)) _ _ _). simpl. tauto.
    + reflexivity.
Defined.

(** C10. For every raw issue record whose [body_html] is [null],
    [undefined], absent or the empty string, [toIssueFull] returns a view
    whose field [body_html] is the empty string: the field is present and
    holds a string, never [null]. *)
Theorem toIssueFull_empty_body (raw : obj) :
  get raw "body_html" = JNull \/ get raw "body_html" = JUndefined
  \/ ~ In "body_html" (keys raw) \/ get raw "body_html" = JStr "" ->
  exists full,
    toIssueFull raw = Ok full /\
    In ("body_html", JStr "") full /\
    get full "body_html" = JStr "".
Proof.
  intros Hbody.
  assert (Hfalsy : stripHtmlAndTruncate (get raw "body_html") MAX_BODY_LENGTH = Ok "").
  { destruct Hbody as [->|[->|[Habs| ->]]]; try reflexivity.
    now rewrite (get_absent _ _ Habs). }
  rewrite toIssueFull_fields, Hfalsy.
  eexists. split; [reflexivity|]. split.
  - apply (in_or_app (toIssueStandard raw) [("body_html", JStr "")]). right. now left.
  - reflexivity.
Qed.

Lemma toIssueFull_empty_body_witness :
  exists full,
    toIssueFull [ ("id", JStr "I1"); ("title", JStr "No body"); ("body_html", JNull) ] = Ok full /\
    In ("body_html", JStr "") full /\
    get full "body_html" = JStr "".
Proof.
  apply (toIssueFull_empty_body
           [ ("id", JStr "I1"); ("title", JStr "No body"); ("body_html", JNull) ]).
  left. reflexivity.
Defined.

(** ** Strings *)


Lemma length_app_string (s t : string) :
  String.length (s ++ t) = (String.length s + String.length t)%nat.
Proof. induction s as [|c s IH]; simpl; [reflexivity | now rewrite IH]. Qed.

Lemma length_take (n : nat) (s : string) :
  String.length (take n s) = Nat.min n (String.length s).
Proof.
  revert n. induction s as [|c s IH]; intros [|n]; simpl; try reflexivity.
  now rewrite IH.
Qed.

Lemma slice0_prefix (s : string) (e : Z) :
  (0 <= e <= Z.of_nat (String.length s))%Z -> slice0 s e = take (Z.to_nat e) s.
Proof.
  intros He. unfold slice0.
  destruct (Z.ltb_spec e 0); [lia|].
  now rewrite Z.min_l by lia.
Qed.

Lemma space_not_LT (c : ascii) : is_space c = true -> Ascii.eqb c LT = false.
Proof.
  intros Hc. destruct (Ascii.eqb_spec c LT) as [->|]; [discriminate Hc | reflexivity].
Qed.

Lemma space_not_GT (c : ascii) : is_space c = true -> Ascii.eqb c GT = false.
Proof.
  intros Hc. destruct (Ascii.eqb_spec c GT) as [->|]; [discriminate Hc | reflexivity].
Qed.

(** *** Where a [>] can come from *)

Lemma contains_app (c : ascii) (s t : string) :
  contains c (s ++ t) = contains c s || contains c t.
Proof.
  induction s as [|d s IH]; simpl; [reflexivity|].
  now rewrite IH, orb_assoc.
Qed.

Lemma contains_take (c : ascii) (n : nat) (s : string) :
  contains c s = false -> contains c (take n s) = false.
Proof.
  revert n. induction s as [|d s IH]; intros [|n]; simpl; try reflexivity.
  intros H. apply orb_false_iff in H as [Hd Hs].
  now rewrite Hd, (IH n Hs).
Qed.

Lemma contains_GT_replace_tags (b : bool) (s : string) :
  contains GT s = false -> contains GT (replace_tags_from b s) = false.
Proof.
  revert b. induction s as [|c s IH]; intros b; simpl; [reflexivity|].
  intros H. apply orb_false_iff in H as [Hc Hs].
  destruct b.
  - rewrite Hc. now apply IH.
  - rewrite Hs, andb_false_r. simpl. rewrite Hc. now apply IH.
Qed.

Lemma contains_GT_collapse (b : bool) (s : string) :
  contains GT (collapse_ws_from b s) = contains GT s.
Proof.
  revert b. induction s as [|c s IH]; intros b; simpl; [reflexivity|].
  destruct (is_space c) eqn:Hc.
  - rewrite (space_not_GT c Hc). destruct b; simpl; now rewrite IH.
  - simpl. now rewrite IH.
Qed.

Lemma contains_GT_trim_start (s : string) :
  contains GT (trim_start s) = contains GT s.
Proof.
  induction s as [|c s IH]; simpl; [reflexivity|].
  destruct (is_space c) eqn:Hc; [|reflexivity].
  now rewrite (space_not_GT c Hc).
Qed.

Lemma contains_GT_trim_end (s : string) :
  contains GT (trim_end s) = contains GT s.
Proof.
  induction s as [|c s IH]; simpl; [reflexivity|].
  destruct (trim_end s) as [|d s'] eqn:Ht.
  - simpl in IH. rewrite <- IH, orb_false_r.
    destruct (is_space c) eqn:Hc; simpl.
    + now rewrite (space_not_GT c Hc).
    + now rewrite orb_false_r.
  - simpl. simpl in IH. now rewrite IH.
Qed.

(** *** No tag is left *)

Lemma has_tag_replace_tags (b : bool) (s : string) :
  has_tag (replace_tags_from b s) = false.
Proof.
  revert b. induction s as [|c s IH]; intros b; simpl; [reflexivity|].
  destruct b.
  - destruct (Ascii.eqb c GT); apply IH.
  - destruct (Ascii.eqb c LT) eqn:Hc; simpl.
    + destruct (contains GT s) eqn:Hgt; simpl.
      * apply IH.
      * rewrite Hc, (contains_GT_replace_tags false s Hgt). simpl. apply IH.
    + rewrite Hc. simpl. apply IH.
Qed.

Lemma has_tag_collapse (b : bool) (s : string) :
  has_tag (collapse_ws_from b s) = has_tag s.
Proof.
  revert b. induction s as [|c s IH]; intros b; simpl; [reflexivity|].
  destruct (is_space c) eqn:Hc.
  - rewrite (space_not_LT c Hc). destruct b; simpl; now rewrite IH.
  - simpl. now rewrite contains_GT_collapse, IH.
Qed.

Lemma has_tag_trim_start (s : string) : has_tag (trim_start s) = has_tag s.
Proof.
  induction s as [|c s IH]; simpl; [reflexivity|].
  destruct (is_space c) eqn:Hc; [|reflexivity].
  now rewrite (space_not_LT c Hc).
Qed.

Lemma has_tag_trim_end (s : string) : has_tag (trim_end s) = has_tag s.
Proof.
  induction s as [|c s IH]; simpl; [reflexivity|].
  pose proof (contains_GT_trim_end s) as Hgt.
  destruct (trim_end s) as [|d s'] eqn:Ht.
  - simpl in IH, Hgt. rewrite <- IH, <- Hgt, andb_false_r. simpl.
    destruct (is_space c); simpl; [reflexivity | now rewrite andb_false_r].
  - simpl. simpl in IH, Hgt. now rewrite IH, Hgt.
Qed.

Lemma has_tag_take (n : nat) (s : string) :
  has_tag s = false -> has_tag (take n s) = false.
Proof.
  revert n. induction s as [|c s IH]; intros [|n]; simpl; try reflexivity.
  intros H. apply orb_false_iff in H as [Hc Hs].
  rewrite (IH n Hs), orb_false_r.
  apply andb_false_iff in Hc as [Hc|Hc].
  - now rewrite Hc.
  - now rewrite (contains_take GT n s Hc), andb_false_r.
Qed.

Lemma has_tag_app_plain (s t : string) :
  contains GT t = false -> has_tag t = false -> has_tag (s ++ t) = has_tag s.
Proof.
  intros Hgt Ht. induction s as [|c s IH]; simpl; [exact Ht|].
  now rewrite contains_app, Hgt, orb_false_r, IH.
Qed.

Lemma strip_html_no_tag (html : string) : has_tag (strip_html html) = false.
Proof.
  unfold strip_html, trim, collapse_ws, replace_tags.
  now rewrite has_tag_trim_end, has_tag_trim_start, has_tag_collapse, has_tag_replace_tags.
Qed.

(** The two equations of the replacement: a tag that starts the string is
    replaced by one space, and a string without [>] has no tag. *)
Lemma replace_tags_in_tag (body rest : string) :
  contains GT body = false ->
  replace_tags_from true (body ++ String GT rest) = replace_tags rest.
Proof.
  induction body as [|c body IH]; simpl; intros H; [reflexivity|].
  apply orb_false_iff in H as [-> Hb]. now apply IH.
Qed.

Lemma replace_tags_match (pre body rest : string) :
  contains LT pre = false -> contains GT body = false ->
  replace_tags (pre ++ String LT (body ++ String GT rest)) =
  pre ++ String SPACE (replace_tags rest).
Proof.
  intros Hpre Hbody. unfold replace_tags at 1.
  induction pre as [|c pre IH]; simpl.
  - rewrite contains_app. simpl. rewrite orb_true_r. simpl.
    now rewrite replace_tags_in_tag.
  - simpl in Hpre. apply orb_false_iff in Hpre as [-> Hpre]. simpl.
    now rewrite IH.
Qed.

Lemma replace_tags_without_GT (s : string) :
  contains GT s = false -> replace_tags s = s.
Proof.
  unfold replace_tags.
  induction s as [|c s IH]; simpl; intros H; [reflexivity|].
  apply orb_false_iff in H as [Hc Hs].
  now rewrite Hs, andb_false_r, IH.
Qed.

(** *** White space is collapsed and trimmed *)

Lemma has_ws_run_cons (c : ascii) (r : string) :
  has_ws_run (String c r) = (is_space c && starts_with_ws r) || has_ws_run r.
Proof. destruct r; simpl; [now rewrite andb_false_r | reflexivity]. Qed.

Lemma single_spaced_cons (c : ascii) (r : string) :
  single_spaced (String c r) <->
  (is_space c = false \/ (c = SPACE /\ starts_with_ws r = false)) /\ single_spaced r.
Proof.
  unfold single_spaced. rewrite has_ws_run_cons. cbn [ws_is_space].
  rewrite andb_true_iff, orb_false_iff, andb_false_iff, orb_true_iff, negb_true_iff.
  destruct (Ascii.eqb_spec c SPACE) as [->|Hne]; intuition (try congruence).
Qed.

Lemma collapse_single_spaced (b : bool) (s : string) :
  single_spaced (collapse_ws_from b s)
  /\ (b = true -> starts_with_ws (collapse_ws_from b s) = false).
Proof.
  revert b. induction s as [|c s IH]; intros b; simpl.
  - now repeat split.
  - destruct (is_space c) eqn:Hc.
    + destruct b.
      * apply IH.
      * split; [|discriminate].
        apply single_spaced_cons. split; [|apply IH].
        right. split; [reflexivity | now apply IH].
    + split; [|intros _; exact Hc].
      apply single_spaced_cons. split; [now left | apply IH].
Qed.

Lemma trim_start_single_spaced (s : string) :
  single_spaced s -> single_spaced (trim_start s) /\ starts_with_ws (trim_start s) = false.
Proof.
  induction s as [|c s IH]; simpl; intros Hs.
  - now repeat split.
  - destruct (is_space c) eqn:Hc.
    + apply IH. now apply single_spaced_cons in Hs.
    + split; [exact Hs | exact Hc].
Qed.

Lemma trim_end_head (s : string) (d : ascii) (r : string) :
  trim_end s = String d r -> exists r', s = String d r'.
Proof.
  destruct s as [|c s]; simpl; [discriminate|].
  destruct (trim_end s).
  - destruct (is_space c); [discriminate|]. intros [= <- _]. now eexists.
  - intros [= <- _]. now eexists.
Qed.

Lemma starts_with_ws_trim_end (s : string) :
  starts_with_ws s = false -> starts_with_ws (trim_end s) = false.
Proof.
  intros Hs. destruct (trim_end s) as [|d r] eqn:Ht; [reflexivity|].
  destruct (trim_end_head _ _ _ Ht) as [r' ->]. exact Hs.
Qed.

Lemma trim_end_single_spaced (s : string) :
  single_spaced s -> single_spaced (trim_end s).
Proof.
  induction s as [|c s IH]; simpl; intros Hs; [exact Hs|].
  apply single_spaced_cons in Hs as [Hc Hs].
  specialize (IH Hs).
  destruct (trim_end s) as [|d r] eqn:Ht.
  - destruct (is_space c) eqn:Hsp; [now split|].
    apply single_spaced_cons. split; [now left | now split].
  - apply single_spaced_cons. split; [|exact IH].
    destruct Hc as [Hc|[-> Hc]]; [now left|].
    right. split; [reflexivity|].
    rewrite <- Ht. now apply starts_with_ws_trim_end.
Qed.

Lemma ends_with_ws_cons (c : ascii) (r : string) :
  ends_with_ws (String c r) =
  match r with EmptyString => is_space c | _ => ends_with_ws r end.
Proof. destruct r; reflexivity. Qed.

Lemma trim_end_no_trailing_ws (s : string) : ends_with_ws (trim_end s) = false.
Proof.
  induction s as [|c s IH]; simpl; [reflexivity|].
  destruct (trim_end s) as [|d r] eqn:Ht.
  - destruct (is_space c) eqn:Hc; [reflexivity | exact Hc].
  - rewrite ends_with_ws_cons. exact IH.
Qed.

Lemma strip_html_trimmed (html : string) :
  single_spaced (strip_html html)
  /\ starts_with_ws (strip_html html) = false
  /\ ends_with_ws (strip_html html) = false.
Proof.
  unfold strip_html, trim, collapse_ws.
  destruct (collapse_single_spaced false (replace_tags html)) as [Hc _].
  destruct (trim_start_single_spaced _ Hc) as [Hs Hstart].
  split; [now apply trim_end_single_spaced|].
  split; [now apply starts_with_ws_trim_end | apply trim_end_no_trailing_ws].
Qed.

Lemma starts_with_ws_take (n : nat) (s : string) :
  starts_with_ws s = false -> starts_with_ws (take n s) = false.
Proof. destruct s, n; simpl; auto. Qed.

Lemma take_single_spaced (n : nat) (s : string) :
  single_spaced s -> single_spaced (take n s).
Proof.
  revert n. induction s as [|c s IH]; intros [|n]; simpl; intros Hs; try now split.
  apply single_spaced_cons in Hs as [Hc Hs].
  apply single_spaced_cons. split; [|now apply IH].
  destruct Hc as [Hc|[-> Hc]]; [now left|].
  right. split; [reflexivity | now apply starts_with_ws_take].
Qed.

Lemma app_single_spaced (s t : string) :
  single_spaced s -> single_spaced t -> starts_with_ws t = false ->
  single_spaced (s ++ t).
Proof.
  intros Hs Ht Hstart. induction s as [|c s IH]; simpl; [exact Ht|].
  apply single_spaced_cons in Hs as [Hc Hs].
  apply single_spaced_cons. split; [|now apply IH].
  destruct Hc as [Hc|[-> Hc]]; [now left|].
  right. split; [reflexivity|].
  destruct s; [exact Hstart | exact Hc].
Qed.

Lemma starts_with_ws_app (s t : string) :
  starts_with_ws s = false -> starts_with_ws t = false -> starts_with_ws (s ++ t) = false.
Proof. destruct s; simpl; auto. Qed.

Lemma ends_with_ws_app (s : string) (c : ascii) (t : string) :
  ends_with_ws (s ++ String c t) = ends_with_ws (String c t).
Proof.
  induction s as [|d s IH]; [reflexivity|].
  change (String d s ++ String c t) with (String d (s ++ String c t)).
  rewrite ends_with_ws_cons, IH.
  destruct s; reflexivity.
Qed.

(** ** Truncation *)

(** The text cut to [n] characters, as [stripHtmlAndTruncate] and the body
    tool cut it: unchanged when it fits, otherwise its first [n - 3]
    characters and the ellipsis. *)
Lemma truncation_shape (text : string) (n : Z) :
  (3 <= n)%Z ->
  forall out,
    out = (if (Z.of_nat (String.length text) <=? n)%Z then text
           else slice0 text (n - 3) ++ "...") ->
  (Z.of_nat (String.length out) <= n)%Z /\
  ((n < Z.of_nat (String.length text))%Z ->
     out = take (Z.to_nat (n - 3)) text ++ "..." /\ Z.of_nat (String.length out) = n) /\
  ((Z.of_nat (String.length text) <= n)%Z -> out = text) /\
  (has_tag text = false -> has_tag out = false) /\
  (single_spaced text -> single_spaced out) /\
  (starts_with_ws text = false -> starts_with_ws out = false) /\
  (ends_with_ws text = false -> ends_with_ws out = false).
Proof.
  intros Hn out ->.
  destruct (Z.leb_spec (Z.of_nat (String.length text)) n) as [Hfit|Hlong].
  - split; [lia|]. split; [intros; lia|]. split; [reflexivity|]. tauto.
  - rewrite slice0_prefix by lia.
    assert (Hlen : Z.of_nat (String.length (take (Z.to_nat (n - 3)) text ++ "...")) = n).
    { rewrite length_app_string, length_take. simpl. lia. }
    split; [lia|]. split; [now split|]. split; [lia|].
    split; [|split; [|split]].
    + intros Htag. rewrite has_tag_app_plain by reflexivity. now apply has_tag_take.
    + intros Hsp. apply app_single_spaced; [now apply take_single_spaced | now split | reflexivity].
    + intros Hst. apply starts_with_ws_app; [now apply starts_with_ws_take | reflexivity].
    + intros _. now rewrite ends_with_ws_app.
Qed.

Lemma replace_tags_no_tag (s : string) : has_tag s = false -> replace_tags s = s.
Proof.
  unfold replace_tags. induction s as [|c s IH]; simpl; intros H; [reflexivity|].
  apply orb_false_iff in H as [Hc Hs]. now rewrite Hc, IH.
Qed.

Lemma trim_start_no_leading_ws (s : string) : starts_with_ws s = false -> trim_start s = s.
Proof. destruct s as [|c s]; simpl; [reflexivity | now intros ->]. Qed.

Lemma app_empty_string (s : string) : s ++ "" = s.
Proof. induction s as [|c s IH]; simpl; [reflexivity | now rewrite IH]. Qed.

(** A string without [<] is copied by the replacement of the tags. *)
Lemma replace_tags_prefix (pre t : string) :
  contains LT pre = false -> replace_tags (pre ++ t) = pre ++ replace_tags t.
Proof.
  unfold replace_tags. induction pre as [|c pre IH]; simpl; intros H; [reflexivity|].
  apply orb_false_iff in H as [-> Hpre]. simpl. now rewrite IH.
Qed.

(** The first tag of a text counts as one space. *)
Lemma strip_html_first_tag (pre body rest : string) :
  contains LT pre = false -> contains GT body = false ->
  strip_html (pre ++ String LT (body ++ String GT rest)) =
  strip_html (pre ++ String SPACE rest).
Proof.
  intros Hpre Hbody. unfold strip_html.
  rewrite (replace_tags_match pre body rest Hpre Hbody), (replace_tags_prefix pre _ Hpre).
  reflexivity.
Qed.

(** *** The words of the stripped text *)

Lemma words_from_nonempty (s : string) :
  Forall (fun w => w <> "") (snd (words_from s)).
Proof.
  induction s as [|c s IH]; simpl; [constructor|].
  destruct (words_from s) as [w ws]. simpl in IH.
  destruct (is_space c); simpl; [|exact IH].
  destruct w; [exact IH | constructor; [discriminate | exact IH]].
Qed.

Lemma words_nonempty (s : string) : Forall (fun w => w <> "") (words s).
Proof.
  unfold words. pose proof (words_from_nonempty s) as H.
  destruct (words_from s) as [w ws]. simpl in H.
  destruct w; [exact H | constructor; [discriminate | exact H]].
Qed.

Lemma join_nonempty (sep w : string) (ws : list string) :
  w <> "" -> join sep (w :: ws) <> "".
Proof.
  intros Hw. destruct w as [|c w]; [now elim Hw|].
  destruct ws; simpl; discriminate.
Qed.

Lemma starts_with_ws_collapse (s : string) :
  starts_with_ws (collapse_ws_from true s) = false.
Proof.
  induction s as [|c s IH]; simpl; [reflexivity|].
  destruct (is_space c) eqn:Hc; [exact IH | simpl; exact Hc].
Qed.

Lemma trim_start_collapse (s : string) :
  trim_start (collapse_ws s) = collapse_ws_from true s.
Proof.
  unfold collapse_ws. destruct s as [|c s]; [reflexivity|]. simpl.
  destruct (is_space c) eqn:Hc; simpl.
  - apply trim_start_no_leading_ws, starts_with_ws_collapse.
  - now rewrite Hc.
Qed.

Lemma trim_end_cons (c : ascii) (s : string) :
  is_space c = false -> trim_end (String c s) = String c (trim_end s).
Proof. intros Hc. simpl. rewrite Hc. now destruct (trim_end s). Qed.

(** The collapsed text without its white space at the end, from the words
    of the text: after white space, the words joined by single spaces;
    otherwise the run that starts the text and a space before each word
    after it. *)
Lemma trim_end_collapse (s : string) :
  trim_end (collapse_ws_from true s) = join " " (words s)
  /\ trim_end (collapse_ws_from false s) =
     fst (words_from s) ++ match snd (words_from s) with
                           | [] => ""
                           | ws => " " ++ join " " ws
                           end.
Proof.
  induction s as [|c s [IHt IHf]]; [now split|].
  pose proof (words_nonempty s) as Hne. pose proof (words_from_nonempty s) as Hne'.
  unfold words in *. cbn [words_from collapse_ws_from].
  destruct (words_from s) as [w ws]. cbn [fst snd] in *.
  destruct (is_space c) eqn:Hc; cbn [fst snd].
  - split; [exact IHt|].
    change (trim_end (String SPACE (collapse_ws_from true s)))
      with (match trim_end (collapse_ws_from true s) with
            | EmptyString => if is_space SPACE then EmptyString else String SPACE EmptyString
            | r' => String SPACE r'
            end).
    rewrite IHt.
    destruct (match w with EmptyString => ws | String _ _ => w :: ws end) as [|x xs] eqn:HW;
      [reflexivity|].
    inversion Hne as [|? ? Hx _]; subst.
    pose proof (join_nonempty " " x xs Hx) as Hj.
    destruct (join " " (x :: xs)); [now elim Hj | reflexivity].
  - rewrite (trim_end_cons c _ Hc), IHf.
    destruct ws as [|x xs]; split; rewrite ?app_empty_string; reflexivity.
Qed.

(** The stripped text is the words of the text without its tags, joined
    by single spaces. *)
Lemma strip_html_words (html : string) :
  strip_html html = join " " (words (replace_tags html)).
Proof.
  unfold strip_html, trim. rewrite trim_start_collapse.
  exact (proj1 (trim_end_collapse (replace_tags html))).
Qed.

Lemma stripHtmlAndTruncate_string (html : string) (n : Z) :
  (0 <= n)%Z ->
  stripHtmlAndTruncate (JStr html) n =
  Ok (if (Z.of_nat (String.length (strip_html html)) <=? n)%Z then strip_html html
      else slice0 (strip_html html) (n - 3) ++ "...").
Proof.
  intros Hn. unfold stripHtmlAndTruncate. cbn [truthy negb].
  destruct (String.eqb_spec html "") as [->|Hne]; cbn [negb].
  - cbn. destruct (Z.leb_spec 0 n); [reflexivity | lia].
  - destruct (_ <=? _)%Z; reflexivity.
Qed.

(** C6. For every string [html] and every bound [n] of at least 3, hence
    for the bounds 500, 2000 and 10000 of the callers and beyond,
    [stripHtmlAndTruncate html n] returns a string of length at most [n];
    when the stripped, collapsed and trimmed text is longer than [n] the
    result is its first [n - 3] characters followed by the ellipsis, and
    otherwise it is that text; the result contains no tag (no [<] with a
    [>] after it), its white space is single plain spaces, and it neither
    starts nor ends with white space.  The stripped text itself is fixed by
    the text: that of a text without tag is its words joined by single
    spaces, and the first tag of a text counts as one space. *)
Theorem stripHtmlAndTruncate_bounded (html : string) (n : Z) :
  (3 <= n)%Z ->
  exists out,
    stripHtmlAndTruncate (JStr html) n = Ok out /\
    (Z.of_nat (String.length out) <= n)%Z /\
    ((n < Z.of_nat (String.length (strip_html html)))%Z ->
       out = take (Z.to_nat (n - 3)) (strip_html html) ++ "...") /\
    ((Z.of_nat (String.length (strip_html html)) <= n)%Z -> out = strip_html html) /\
    has_tag out = false /\
    has_ws_run out = false /\ ws_is_space out = true /\
    starts_with_ws out = false /\ ends_with_ws out = false /\
    (has_tag html = false -> strip_html html = join " " (words html)) /\
    (forall pre body rest,
       html = pre ++ String LT (body ++ String GT rest) ->
       contains LT pre = false -> contains GT body = false ->
       strip_html html = strip_html (pre ++ String SPACE rest)).
Proof.
  intros Hn.
  destruct (strip_html_trimmed html) as (Hsp & Hstart & Hend).
  pose proof (strip_html_no_tag html) as Htag.
  destruct (truncation_shape (strip_html html) n Hn _ eq_refl)
    as (Hlen & Hlong & Hfit & Htag' & Hsp' & Hstart' & Hend').
  eexists. split; [apply stripHtmlAndTruncate_string; lia|].
  split; [exact Hlen|].
  split; [intros Hlt; exact (proj1 (Hlong Hlt))|].
  split; [exact Hfit|].
  split; [exact (Htag' Htag)|].
  destruct (Hsp' Hsp) as [Hws Hrun].
  split; [exact Hrun|]. split; [exact Hws|].
  split; [exact (Hstart' Hstart)|]. split; [exact (Hend' Hend)|].
  split.
  - intros Hplain. rewrite strip_html_words. now rewrite (replace_tags_no_tag html Hplain).
  - intros pre body rest -> Hpre Hbody. now apply strip_html_first_tag.
Qed.

Lemma stripHtmlAndTruncate_bounded_witness :
  exists out,
    stripHtmlAndTruncate (JStr "<p>Hello   <b>world</b>, this  is a long body</p>") 10 = Ok out
    /\ out = "Hello w..."
    /\ strip_html "<p>Hello   <b>world</b>, this  is a long body</p>"
       = strip_html " Hello   <b>world</b>, this  is a long body</p>"
    /\ strip_html "Hello   world, this  is a long body"
       = join " " ["Hello"; "world,"; "this"; "is"; "a"; "long"; "body"].
Proof.
  destruct (stripHtmlAndTruncate_bounded
              "<p>Hello   <b>world</b>, this  is a long body</p>" 10 ltac:(lia))
    as (out & Hout & _ & Hlong & _ & _ & _ & _ & _ & _ & _ & Htag).
  destruct (stripHtmlAndTruncate_bounded
              "Hello   world, this  is a long body" 10 ltac:(lia))
    as (_ & _ & _ & _ & _ & _ & _ & _ & _ & _ & Hwords & _).
  exists out. split; [exact Hout|]. split; [|split].
  - rewrite Hlong by (vm_compute; reflexivity). reflexivity.
  - exact (Htag "" "p" "Hello   <b>world</b>, this  is a long body</p>"
             eq_refl eq_refl eq_refl).
  - exact (Hwords eq_refl).
Defined.

Example stripHtmlAndTruncate_cut :
  stripHtmlAndTruncate (JStr "<p>Hello   <b>world</b>, this  is a long body</p>") 10
  = Ok "Hello w...".
Proof. reflexivity. Qed.

Example stripHtmlAndTruncate_tags :
  stripHtmlAndTruncate (JStr "<p>Hi <b>there</b></p>") 500 = Ok "Hi there".
Proof. reflexivity. Qed.

(** A [>] or a [<] that is part of no tag stays in the text. *)
Example stripHtmlAndTruncate_keeps_stray_angle :
  stripHtmlAndTruncate (JStr "<p>a > b</p> and c < d") 500 = Ok "a > b and c < d".
Proof. reflexivity. Qed.

(** ** The body tool *)

Section ToolProperties.

Variable fetch : list http_call -> http_call -> result response.

(** C9. The schema of [pylon_get_issue_body] accepts a [max_length] that
    is omitted or lies between 100 and 10000.  With an accepted
    [max_length], on an issue whose body is a string that is not empty, the
    tool answers with the text [stripHtmlAndTruncate] gives for the body at
    that maximum, 2000 when it is omitted, hence of at most that length,
    together with the number of characters of the stripped text before it
    was cut and the number shown; on an issue whose body is missing or
    empty it answers that there is no content. *)
Theorem pylon_get_issue_body_contract :
  (max_length_schema None = true /\
   forall n, max_length_schema (Some n) = true <-> (100 <= n <= 10000)%Z) /\
  forall (id : string) (max_length : option Z) (w w' : effects)
         (result raw bodyHtml : jsval),
    max_length_schema max_length = true ->
    getIssue fetch id w = (Ok result, w') ->
    prop result "data" = Ok raw ->
    prop raw "body_html" = Ok bodyHtml ->
    let maxLen := match max_length with Some n => n | None => 2000%Z end in
    (truthy bodyHtml = false ->
     pylon_get_issue_body fetch id max_length w = (Ok "No body content available.", w')) /\
    (forall s, bodyHtml = JStr s -> s <> "" ->
       exists truncated number,
         stripHtmlAndTruncate (JStr s) maxLen = Ok truncated /\
         (Z.of_nat (String.length truncated) <= maxLen)%Z /\
         prop raw "number" = Ok number /\
         pylon_get_issue_body fetch id max_length w =
         (Ok ("Issue #" ++ template number ++ " body ("
              ++ Str.of_nat (String.length (strip_html s)) ++ " chars total, showing "
              ++ Str.of_nat (String.length truncated) ++ "):" ++ nl ++ nl ++ truncated), w')).
Proof.
  split.
  - split; [reflexivity|]. intros n. unfold max_length_schema.
    rewrite andb_true_iff, !Z.leb_le. tauto.
  - intros id max_length w w' result raw bodyHtml Hschema Hget Hdata Hbody maxLen.
    assert (HmaxLen : (100 <= maxLen <= 10000)%Z).
    { subst maxLen. destruct max_length as [n|]; [|lia].
      unfold max_length_schema in Hschema.
      rewrite andb_true_iff, !Z.leb_le in Hschema. lia. }
    unfold pylon_get_issue_body, mbind, lift, ret.
    rewrite Hget, Hdata, Hbody. split.
    + intros ->. reflexivity.
    + intros s -> Hne.
      destruct (truncation_shape (strip_html s) maxLen ltac:(lia) _ eq_refl) as (Hlen & _).
      pose proof (stripHtmlAndTruncate_string s maxLen ltac:(lia)) as Hstrip.
      set (truncated := if (Z.of_nat (String.length (strip_html s)) <=? maxLen)%Z
                        then strip_html s
                        else slice0 (strip_html s) (maxLen - 3) ++ "...") in *.
      assert (Hnumber : exists number, prop raw "number" = Ok number).
      { destruct raw; try discriminate Hbody; eexists; reflexivity. }
      destruct Hnumber as [number Hnumber].
      exists truncated, number.
      split; [exact Hstrip|]. split; [exact Hlen|]. split; [exact Hnumber|].
      cbn [truthy negb].
      destruct (String.eqb_spec s "") as [->|_]; [now elim Hne|]. cbn [negb].
      fold maxLen. rewrite Hnumber.
      replace (if (Z.of_nat (String.length (strip_html s)) >? maxLen)%Z
               then slice0 (strip_html s) (maxLen - 3) ++ "..."
               else strip_html s) with truncated; [reflexivity|].
      subst truncated.
      destruct (Z.leb_spec (Z.of_nat (String.length (strip_html s))) maxLen),
               (Z.gtb_spec (Z.of_nat (String.length (strip_html s))) maxLen);
        try reflexivity; lia.
Qed.

End ToolProperties.

Lemma pylon_get_issue_body_contract_witness :
  pylon_get_issue_body
    (Runtime.fetch_issue (JObj [ ("id", JStr "I7"); ("number", JNum 7);
                                 ("body_html", JStr "<p>Hi <b>there</b></p>") ]))
    "I7" None no_effects
  = (Ok ("Issue #7 body (8 chars total, showing 8):" ++ nl ++ nl ++ "Hi there"),
     {| http := [ {| call_method := "GET"; call_path := "/issues/I7"; call_body := None |} ];
        stderr := [] |})
  /\ pylon_get_issue_body
       (Runtime.fetch_issue (JObj [ ("id", JStr "I8"); ("number", JNum 8) ]))
       "I8" (Some 100%Z) no_effects
     = (Ok "No body content available.",
        {| http := [ {| call_method := "GET"; call_path := "/issues/I8"; call_body := None |} ];
           stderr := [] |}).
Proof.
  split.
  - destruct (proj2 (pylon_get_issue_body_contract
                       (Runtime.fetch_issue (JObj [ ("id", JStr "I7"); ("number", JNum 7);
                                                    ("body_html", JStr "<p>Hi <b>there</b></p>") ])))
                "I7" None no_effects _ _ _ _ eq_refl eq_refl eq_refl eq_refl) as [_ Hbody].
    destruct (Hbody "<p>Hi <b>there</b></p>" eq_refl ltac:(discriminate))
      as (truncated & number & Hstrip & _ & Hnumber & Hout).
    injection Hstrip as <-. injection Hnumber as <-. exact Hout.
  - refine (proj1 (proj2 (pylon_get_issue_body_contract
                            (Runtime.fetch_issue (JObj [ ("id", JStr "I8"); ("number", JNum 8) ])))
                     "I8" (Some 100%Z) no_effects _ _ _ _ eq_refl eq_refl eq_refl eq_refl) _).
    reflexivity.
Defined.

(** ** The table of issues *)

Lemma replace_char_same (c : ascii) (by_ r : string) :
  replace_char c by_ (String c r) = by_ ++ replace_char c by_ r.
Proof. simpl. now rewrite Ascii.eqb_refl. Qed.

Lemma replace_char_other (c d : ascii) (by_ r : string) :
  d <> c -> replace_char c by_ (String d r) = String d (replace_char c by_ r).
Proof. intros Hne. simpl. apply Ascii.eqb_neq in Hne. now rewrite Hne. Qed.

(** An escaped cell has no delimiting pipe and no line feed. *)
Lemma escapeCell_safe (value : maybe_string) :
  unescaped_pipes (escapeCell value) = 0%nat /\ line_feeds (escapeCell value) = 0%nat.
Proof.
  unfold escapeCell, unescaped_pipes.
  destruct value as [s|]; [|now split].
  destruct (falsy (Some s)); [now split|].
  enough (H : forall escaped,
             unescaped_pipes_from escaped
               (replace_char NEWLINE " " (replace_char PIPE (String BACKSLASH "|") s)) = 0%nat
             /\ line_feeds
                  (replace_char NEWLINE " " (replace_char PIPE (String BACKSLASH "|") s)) = 0%nat)
    by apply H.
  induction s as [|c s IH]; intros escaped; [now split|].
  destruct (Ascii.eqb_spec c PIPE) as [->|Hpipe].
  - rewrite replace_char_same. cbn [append].
    rewrite !(replace_char_other NEWLINE) by discriminate.
    split; [exact (proj1 (IH false)) | exact (proj2 (IH false))].
  - rewrite (replace_char_other PIPE) by assumption.
    destruct (Ascii.eqb_spec c NEWLINE) as [->|Hnl].
    + rewrite replace_char_same. cbn [append].
      split; [exact (proj1 (IH false)) | exact (proj2 (IH false))].
    + rewrite (replace_char_other NEWLINE) by assumption.
      cbn [unescaped_pipes_from line_feeds].
      destruct (IH (Ascii.eqb c BACKSLASH)) as [-> ->].
      apply Ascii.eqb_neq in Hpipe, Hnl. now rewrite Hpipe, Hnl.
Qed.

(** C8 on the code: the title is escaped, a backslash before its pipe and a
    space for its line feed, but the link is written as it is.  A pipe in
    the link gives the row of the issue seven delimiting pipes where the
    header has six, and a line feed in the link gives the table of one
    issue four lines instead of three. *)
Theorem formatIssuesAsTable_link_unescaped :
  formatIssuesAsTable [pipe_issue] =
    "| # | Title | State | Created | Link |" ++ nl
    ++ "|---|---|---|---|---|" ++ nl
    ++ "| 12 | a" ++ String BACKSLASH "|b | new | 2024-01-02 | https://app.example/issues?x=1|2 |"
  /\ unescaped_pipes "| # | Title | State | Created | Link |" = 6%nat
  /\ unescaped_pipes ("| " ++ join " | " (issue_row pipe_issue) ++ " |") = 7%nat
  /\ line_count (formatIssuesAsTable [pipe_issue]) = 3%nat
  /\ formatIssuesAsTable [line_feed_issue] =
       "| # | Title | State | Created | Link |" ++ nl
       ++ "|---|---|---|---|---|" ++ nl
       ++ "| 13 | a b | new | - | https://app.example/issues/13" ++ nl
       ++ "| 99 | injected | closed | - | - |"
  /\ line_count (formatIssuesAsTable [line_feed_issue]) = 4%nat.
Proof.
  repeat split; reflexivity.
Qed.

Lemma app_assoc_string (s t u : string) : (s ++ t) ++ u = s ++ (t ++ u).
Proof. induction s as [|c s IH]; simpl; [reflexivity | now rewrite IH]. Qed.

Lemma line_feeds_app (s t : string) :
  line_feeds (s ++ t) = (line_feeds s + line_feeds t)%nat.
Proof. induction s as [|c s IH]; simpl; [reflexivity | rewrite IH; lia]. Qed.

Lemma unescaped_pipes_then_space (escaped : bool) (s r : string) :
  unescaped_pipes_from escaped (s ++ String SPACE r) =
  (unescaped_pipes_from escaped s + unescaped_pipes_from false r)%nat.
Proof.
  revert escaped. induction s as [|c s IH]; intros escaped.
  - reflexivity.
  - cbn [append unescaped_pipes_from]. rewrite IH. lia.
Qed.

Lemma unescaped_pipes_without_pipe (escaped : bool) (s : string) :
  contains PIPE s = false -> unescaped_pipes_from escaped s = 0%nat.
Proof.
  revert escaped. induction s as [|c s IH]; intros escaped; simpl; [reflexivity|].
  intros H. apply orb_false_iff in H as [-> Hs]. simpl. now apply IH.
Qed.

Lemma line_feeds_without_line_feed (s : string) :
  contains NEWLINE s = false -> line_feeds s = 0%nat.
Proof.
  induction s as [|c s IH]; simpl; [reflexivity|].
  intros H. apply orb_false_iff in H as [-> Hs]. simpl. now apply IH.
Qed.

Lemma link_cell_plain (issue : IssueMinimal) :
  plain_link issue ->
  contains PIPE (or_else (link issue) "-") = false
  /\ contains NEWLINE (or_else (link issue) "-") = false.
Proof.
  unfold plain_link, or_else, falsy. intros Hlink.
  destruct (link issue) as [l|]; [|now split].
  destruct (l =? ""); [now split | now apply Hlink].
Qed.

Lemma unescaped_pipes_delimiter (escaped : bool) (cell rest : string) :
  unescaped_pipes_from escaped (cell ++ " | " ++ rest) =
  (unescaped_pipes_from escaped cell + 1 + unescaped_pipes_from false rest)%nat.
Proof.
  change (" | " ++ rest) with (String SPACE (String PIPE (String SPACE rest))).
  rewrite unescaped_pipes_then_space.
  change (unescaped_pipes_from false (String PIPE (String SPACE rest)))
    with (1 + unescaped_pipes_from false rest)%nat.
  lia.
Qed.

Lemma unescaped_pipes_last (escaped : bool) (cell : string) :
  unescaped_pipes_from escaped (cell ++ " |") = (unescaped_pipes_from escaped cell + 1)%nat.
Proof.
  change " |" with (String SPACE (String PIPE "")).
  now rewrite unescaped_pipes_then_space.
Qed.

Lemma issue_row_line (issue : IssueMinimal) :
  plain_link issue ->
  unescaped_pipes ("| " ++ join " | " (issue_row issue) ++ " |") = 6%nat
  /\ line_feeds ("| " ++ join " | " (issue_row issue) ++ " |") = 0%nat.
Proof.
  intros Hlink. destruct (link_cell_plain issue Hlink) as [Hpipe Hfeed].
  destruct (escapeCell_safe (Some (match number issue with
                                   | Some n => of_Z n | None => "" end))) as [P1 L1].
  destruct (escapeCell_safe (Some (truncate (Some (title issue)) MAX_TITLE_LENGTH)))
    as [P2 L2].
  destruct (escapeCell_safe (Some (state issue))) as [P3 L3].
  destruct (escapeCell_safe
              (Some (or_else (option_map (before_first "T") (created_at issue)) "-")))
    as [P4 L4].
  unfold issue_row, unescaped_pipes in *. cbn [join].
  split.
  - rewrite !app_assoc_string.
    change ("| " ++ ?x) with (String PIPE (String SPACE x)).
    change (unescaped_pipes_from false (String PIPE (String SPACE ?x)))
      with (1 + unescaped_pipes_from false x)%nat.
    rewrite !unescaped_pipes_delimiter, unescaped_pipes_last.
    rewrite P1, P2, P3, P4, (unescaped_pipes_without_pipe _ _ Hpipe).
    reflexivity.
  - rewrite !line_feeds_app, L1, L2, L3, L4, (line_feeds_without_line_feed _ Hfeed).
    reflexivity.
Qed.

Lemma line_feeds_rows (rows : list string) :
  Forall (fun row => line_feeds row = 0%nat) rows ->
  line_feeds (join nl rows) = pred (List.length rows).
Proof.
  induction 1 as [|row rows Hrow Hrows IH]; [reflexivity|].
  destruct rows as [|row' rows].
  - simpl. exact Hrow.
  - change (join nl (row :: row' :: rows)) with (row ++ nl ++ join nl (row' :: rows)).
    rewrite !line_feeds_app, Hrow, IH. reflexivity.
Qed.

(** X14. The rest of the table is sound: when no link holds a pipe or a line
    feed, every row has the six delimiting pipes of the header and the table
    has one line per issue after its two heading lines, whatever the other
    fields hold. *)
Lemma formatIssuesAsTable_plain_links (issues : list IssueMinimal) :
  issues <> [] ->
  Forall plain_link issues ->
  line_count (formatIssuesAsTable issues) = (2 + List.length issues)%nat
  /\ Forall (fun issue =>
               unescaped_pipes ("| " ++ join " | " (issue_row issue) ++ " |") = 6%nat)
       issues.
Proof.
  intros Hne Hlinks. split.
  - unfold formatIssuesAsTable, line_count.
    destruct issues as [|issue issues]; [now elim Hne|].
    cbn [List.length Nat.eqb].
    cbv zeta. rewrite !line_feeds_app, line_feeds_rows.
    + rewrite !length_map. simpl. lia.
    + rewrite Forall_map, Forall_map.
      eapply Forall_impl; [|exact Hlinks].
      intros i Hi. now apply issue_row_line.
  - eapply Forall_impl; [|exact Hlinks].
    intros i Hi. now apply issue_row_line.
Qed.

(* ================================================================== *)
(** * Further properties *)
(* ================================================================== *)

(** ** What cleanFilter removes and what it keeps *)

Lemma In_obj_set_same (o : obj) k v : In (k, v) (obj_set o k v).
Proof.
  induction o as [|[k' v'] o IH]; simpl; [now left|].
  destruct (String.eqb_spec k' k) as [->|Hne]; [now left | now right].
Qed.

Lemma In_obj_set_other (o : obj) k v k' v' :
  In (k, v) o -> k <> k' -> In (k, v) (obj_set o k' v').
Proof.
  induction o as [|[k0 v0] o IH]; simpl; [tauto|].
  intros [Heq|Hin] Hne.
  - injection Heq as -> ->.
    destruct (String.eqb_spec k k') as [->|_]; [now elim Hne | now left].
  - destruct (String.eqb k0 k'); right; [exact Hin | now apply IH].
Qed.

Section CopyLoopsMore.

Variable step : obj -> string * jsval -> obj.

(** Every entry of the result of a copy loop was in the object it started
    from or was stored for an entry of the list, under that entry's key. *)
Lemma copy_loop_provenance (R : string * jsval -> jsval -> Prop)
  (l : list (string * jsval)) :
  (forall acc kv, In kv l ->
     step acc kv = acc \/ exists v', step acc kv = obj_set acc (fst kv) v' /\ R kv v') ->
  forall acc k v, In (k, v) (fold_left step l acc) ->
    In (k, v) acc \/ exists v0, In (k, v0) l /\ R (k, v0) v.
Proof.
  induction l as [|[k0 v0] l IH]; simpl; intros Hstep acc k v Hin; [now left|].
  destruct (IH (fun acc' kv' H => Hstep acc' kv' (or_intror H)) _ _ _ Hin)
    as [Hacc|(v1 & Hin1 & HR)].
  - destruct (Hstep acc (k0, v0) (or_introl eq_refl)) as [Heq|(v' & Heq & HR)];
      rewrite Heq in Hacc; [now left|].
    destruct (In_obj_set _ _ _ _ Hacc) as [Hnew|Hold]; [|now left].
    injection Hnew as -> ->. right. exists v0. split; [now left | exact HR].
  - right. exists v1. split; [now right | exact HR].
Qed.

(** An entry whose step stores it stays in the result when the keys of the
    list are distinct. *)
Lemma copy_loop_kept (l : list (string * jsval)) k v0 v' :
  NoDup (keys l) ->
  In (k, v0) l ->
  (forall acc, step acc (k, v0) = obj_set acc k v') ->
  (forall acc kv, In kv l ->
     step acc kv = acc \/ exists v'', step acc kv = obj_set acc (fst kv) v'') ->
  forall acc, In (k, v') (fold_left step l acc).
Proof.
  induction l as [|[k1 v1] l IH]; simpl; intros Hnd Hin Hstore Hstep acc; [destruct Hin|].
  inversion Hnd as [|? ? Hnotin Hnd']; subst.
  destruct Hin as [Heq|Hin].
  - injection Heq as -> ->. rewrite Hstore.
    assert (Hkeep : forall l' acc',
              (forall acc kv, In kv l' ->
                 step acc kv = acc \/ exists v'', step acc kv = obj_set acc (fst kv) v'') ->
              ~ In k (keys l') -> In (k, v') acc' -> In (k, v') (fold_left step l' acc')).
    { clear. induction l' as [|[k2 v2] l' IHl']; simpl; intros acc' Hstep Hk Hacc; [exact Hacc|].
      apply IHl'.
      - intros a kv H. apply Hstep. now right.
      - intro H. apply Hk. now right.
      - destruct (Hstep acc' (k2, v2) (or_introl eq_refl)) as [->|(v'' & ->)];
          [exact Hacc|].
        apply In_obj_set_other; [exact Hacc|]. intros ->. apply Hk. now left. }
    apply Hkeep.
    + intros a kv H. destruct (Hstep a kv (or_intror H)) as [H1|(v'' & H1)];
        [now left | right; eauto].
    + exact Hnotin.
    + apply In_obj_set_same.
  - apply IH; try assumption.
    intros a kv H. apply Hstep. now right.
Qed.

(** A loop that stores nothing returns the object it started from, and a
    loop that stores something returns an object that is not empty. *)
Lemma copy_loop_nothing (l : list (string * jsval)) (acc : obj) :
  (forall acc' kv, In kv l -> step acc' kv = acc') -> fold_left step l acc = acc.
Proof.
  revert acc. induction l as [|kv l IH]; simpl; intros acc Hstep; [reflexivity|].
  rewrite (Hstep acc kv (or_introl eq_refl)). apply IH.
  intros acc' kv' H. apply Hstep. now right.
Qed.

Lemma copy_loop_nonempty (l : list (string * jsval)) (acc : obj) :
  (forall acc' kv, In kv l ->
     step acc' kv = acc' \/ exists v', step acc' kv = obj_set acc' (fst kv) v') ->
  acc <> [] -> fold_left step l acc <> [].
Proof.
  revert acc. induction l as [|kv l IH]; simpl; intros acc Hstep Hne; [exact Hne|].
  apply IH; [intros acc' kv' H; apply Hstep; now right|].
  destruct (Hstep acc kv (or_introl eq_refl)) as [->|(v' & ->)]; [exact Hne|].
  destruct acc as [|[k0 v0] acc]; simpl; [discriminate|].
  destruct (String.eqb k0 (fst kv)); discriminate.
Qed.

End CopyLoopsMore.

Lemma cleanOperators_entries validOperators fieldObj op opValue :
  In (op, opValue) (cleanOperators validOperators fieldObj) ->
  In (op, opValue) fieldObj /\ In op validOperators /\ nullish opValue = false.
Proof.
  intros Hin. unfold cleanOperators in Hin.
  destruct (copy_loop_provenance (cleanOperator validOperators)
              (fun kv v' => v' = snd kv /\ In (fst kv) validOperators
                            /\ nullish (snd kv) = false)
              fieldObj (fun acc kv _ => cleanOperator_cases validOperators acc kv)
              [] op opValue Hin) as [[]|(x0 & Hin0 & -> & Hop & Hnn)].
  now repeat split.
Qed.

Lemma stored_from fieldName fieldValue v' :
  cleans_to fieldName fieldValue (Stored v') -> cleaned_from fieldName fieldValue v'.
Proof.
  intros Hto. unfold cleaned_from.
  inversion Hto as [ | |v Hnn Hv Hne| |fieldObj ops Hknown Hclean| | | |
                   |fieldObj cleaned Hunknown Hinh Hclean]; subst.
  - left. now split.
  - right. left. exists fieldObj, ops, (cleanOperators ops fieldObj).
    repeat split; try reflexivity; try assumption;
      now apply cleanOperators_entries in H.
  - right. right. exists fieldObj, cleaned. now repeat split.
Qed.

Lemma settled_cleanField_cases acc kv :
  settled (cleanField cleanFilter_value) acc kv = acc \/
  exists v', settled (cleanField cleanFilter_value) acc kv = obj_set acc (fst kv) v'.
Proof.
  destruct (settled_cleanField_stores (fun _ => True) acc kv (fun _ _ => I))
    as [H|(v' & H & _)]; [now left | right; eauto].
Qed.

(** X1. Cleaning only removes.  Every field of a cleaned filter is a field
    of the filter: its value is the filter's value when that is no object;
    for a known field it is an operator map each of whose entries is an
    entry of the filter's map, with an operator of the field's set and the
    same operand; for an unknown field it is the cleaned form of the
    filter's object. *)
Theorem cleanFilter_only_removes (f r : obj) :
  cleanFilter f = Ok (Some r) ->
  forall fieldName v, In (fieldName, v) r ->
    exists v0, In (fieldName, v0) f /\ cleaned_from fieldName v0 v.
Proof.
  intros Hclean fieldName v Hin.
  destruct (cleanFilter_result _ _ Hclean) as [Hloop _].
  rewrite (for_of_into_settled _ _ _ _ Hloop) in Hin.
  destruct (copy_loop_provenance (settled (cleanField cleanFilter_value))
              (fun kv v' => cleaned_from (fst kv) (snd kv) v')
              f (fun acc kv _ =>
                   settled_cleanField_stores
                     (fun x => cleaned_from (fst x) (snd kv) (snd x)) acc kv
                     (fun v' H => stored_from _ _ _ H))
              [] fieldName v Hin)
    as [[]|(v0 & Hin0 & Hfrom)].
  now exists v0.
Qed.

Lemma cleanFilter_only_removes_witness :
  exists v0,
    In ("state", v0) [ ("title", JObj [("string_contains", JStr "bug")]);
                       ("state", JObj [("gte", JStr "x"); ("in", JArr [JStr "new"])]) ]
    /\ cleaned_from "state" v0 (JObj [("in", JArr [JStr "new"])]).
Proof.
  apply (cleanFilter_only_removes
           [ ("title", JObj [("string_contains", JStr "bug")]);
             ("state", JObj [("gte", JStr "x"); ("in", JArr [JStr "new"])]) ]
           [ ("title", JObj [("string_contains", JStr "bug")]);
             ("state", JObj [("in", JArr [JStr "new"])]) ]).
  - reflexivity.
  - right. left. reflexivity.
Defined.

Lemma cleanField_valid acc kv :
  field_valid kv ->
  cleanField cleanFilter_value acc kv = Ok (obj_set acc (fst kv) (snd kv)).
Proof.
  destruct kv as [fieldName fieldValue]. unfold field_valid. cbn [fst snd].
  intros [(Hnn & Hplain & Hname)
         |(fieldObj & validOperators & -> & Hknown & Hne & Hnd & Hkept)].
  - destruct fieldValue; try discriminate Hnn; try (now elim (Hplain _ eq_refl));
      cbn [cleanField]; now rewrite obj_assign_own.
  - destruct (VALID_OPERATORS_own _ _ Hknown) as [Hown Hproto].
    unfold cleanField. rewrite Hknown. cbv zeta.
    rewrite (cleanOperators_fixed _ _ Hproto Hkept Hnd), (keys_nonempty _ Hne).
    now rewrite obj_assign_own by now apply not_inherited_not_proto.
Qed.

(** X2. A filter that is already valid passes through unchanged: when the
    filter is not empty, its field names are distinct and every field is
    valid (a plain value under a name other than [__proto__], or a known
    field with a non-empty map of distinct whitelisted operators that are
    set), [cleanFilter] returns it as it is. *)
Theorem cleanFilter_valid_unchanged (f : obj) :
  f <> [] -> NoDup (keys f) -> Forall field_valid f -> cleanFilter f = Ok (Some f).
Proof.
  intros Hne Hnd Hvalid.
  assert (Hsteps : forall acc kv, In kv f ->
            cleanField cleanFilter_value acc kv = Ok (obj_set acc (fst kv) (snd kv))).
  { intros acc kv Hin. apply cleanField_valid.
    rewrite Forall_forall in Hvalid. now apply Hvalid. }
  assert (Hloop : for_of_into (cleanField cleanFilter_value) f [] = Ok f).
  { rewrite for_of_into_returns by (intros acc kv Hin; rewrite (Hsteps acc kv Hin); eauto).
    f_equal. rewrite copy_loop_fixed; [reflexivity| |exact Hnd].
    intros acc kv Hin. unfold settled. now rewrite (Hsteps acc kv Hin). }
  rewrite (cleanFilter_of_loop _ _ Hloop).
  destruct f; [now elim Hne | reflexivity].
Qed.

Lemma cleanFilter_valid_unchanged_witness :
  cleanFilter [ ("state", JObj [("in", JArr [JStr "new"; JStr "on_hold"])]);
                ("created_at", JObj [("time_is_after", JStr "2024-01-01T00:00:00Z")]);
                ("limit", JNum 10) ]
  = Ok (Some [ ("state", JObj [("in", JArr [JStr "new"; JStr "on_hold"])]);
               ("created_at", JObj [("time_is_after", JStr "2024-01-01T00:00:00Z")]);
               ("limit", JNum 10) ]).
Proof.
  apply cleanFilter_valid_unchanged.
  - discriminate.
  - repeat constructor; simpl; intuition discriminate.
  - apply Forall_cons; [|apply Forall_cons; [|apply Forall_cons; [|apply Forall_nil]]].
    + right. exists [("in", JArr [JStr "new"; JStr "on_hold"])], id_ops.
      split; [reflexivity|]. split; [reflexivity|]. split; [discriminate|].
      split; [repeat constructor; simpl; tauto|].
      apply Forall_cons; [|apply Forall_nil]. split; [simpl; tauto | reflexivity].
    + right. exists [("time_is_after", JStr "2024-01-01T00:00:00Z")], time_ops.
      split; [reflexivity|]. split; [reflexivity|]. split; [discriminate|].
      split; [repeat constructor; simpl; tauto|].
      apply Forall_cons; [|apply Forall_nil]. split; [simpl; tauto | reflexivity].
    + left. split; [reflexivity|]. split; discriminate.
Defined.

Lemma cleanOperators_keeps validOperators fieldObj op opValue :
  ~ In "__proto__" validOperators ->
  NoDup (keys fieldObj) -> In (op, opValue) fieldObj ->
  In op validOperators -> nullish opValue = false ->
  In (op, opValue) (cleanOperators validOperators fieldObj).
Proof.
  intros Hproto Hnd Hin Hop Hnn. unfold cleanOperators.
  apply (copy_loop_kept (cleanOperator validOperators) fieldObj op opValue opValue Hnd Hin).
  - intros acc. apply (cleanOperator_kept validOperators acc (op, opValue) Hproto).
    now split.
  - intros acc kv _.
    destruct (cleanOperator_cases validOperators acc kv) as [H|(v' & H & _)];
      [now left | right; eauto].
Qed.

(** A field that every iteration stores is in the object the loop
    returns, when the loop returns. *)
Lemma cleanFilter_keeps_entry (f : obj) k v0 v' c :
  NoDup (keys f) -> In (k, v0) f ->
  (forall acc, cleanField cleanFilter_value acc (k, v0) = Ok (obj_set acc k v')) ->
  cleanFilter f = Ok c ->
  exists r, c = Some r /\ In (k, v') r.
Proof.
  intros Hnd Hin Hstore Hclean.
  unfold cleanFilter in Hclean. cbn [cleanFilter_value] in Hclean.
  destruct (for_of_into (cleanField cleanFilter_value) f []) as [result|e] eqn:Hloop;
    [|discriminate Hclean].
  cbn [bind] in Hclean.
  assert (Hkept : In (k, v') result).
  { rewrite (for_of_into_settled _ _ _ _ Hloop).
    apply (copy_loop_kept (settled (cleanField cleanFilter_value)) f k v0 v' Hnd Hin).
    - intros acc. unfold settled. now rewrite Hstore.
    - intros acc kv _. apply settled_cleanField_cases. }
  exists result. split; [|exact Hkept].
  destruct result; [destruct Hkept|]. now injection Hclean as <-.
Qed.

(** X3. Cleaning loses nothing valid.  For a filter with distinct field
    names on which [cleanFilter] returns, every field whose value is
    neither [null], [undefined] nor an object is in the result with its
    value, whatever its name but [__proto__]; and every operator of a
    known field that is in the field's set and is set to a value is in the
    result under that field, with its operand (the operators of the field
    being distinct). *)
Theorem cleanFilter_keeps_valid (f : obj) (c : option obj) :
  NoDup (keys f) ->
  cleanFilter f = Ok c ->
  (forall fieldName v,
     In (fieldName, v) f -> nullish v = false -> (forall o, v <> JObj o) ->
     fieldName <> "__proto__" ->
     exists r, c = Some r /\ In (fieldName, v) r) /\
  (forall fieldName fieldObj validOperators op opValue,
     In (fieldName, JObj fieldObj) f ->
     VALID_OPERATORS fieldName = Some validOperators ->
     NoDup (keys fieldObj) ->
     In (op, opValue) fieldObj -> In op validOperators -> nullish opValue = false ->
     exists r cleanedOperators,
       c = Some r /\ In (fieldName, JObj cleanedOperators) r /\
       In (op, opValue) cleanedOperators).
Proof.
  intros Hnd Hclean. split.
  - intros fieldName v Hin Hnn Hplain Hname.
    apply (cleanFilter_keeps_entry f fieldName v v c Hnd Hin); [|exact Hclean].
    intros acc. apply (cleanField_valid acc (fieldName, v)). left. now repeat split.
  - intros fieldName fieldObj validOperators op opValue Hin Hknown Hndo Hop Hvalid Hnn.
    destruct (VALID_OPERATORS_own _ _ Hknown) as [Hown Hproto].
    pose proof (cleanOperators_keeps validOperators fieldObj op opValue
                  Hproto Hndo Hop Hvalid Hnn) as Hkept.
    destruct (cleanFilter_keeps_entry f fieldName (JObj fieldObj)
                (JObj (cleanOperators validOperators fieldObj)) c Hnd Hin)
      as (r & Hr & Hinr); [|exact Hclean|].
    + intros acc. unfold cleanField. rewrite Hknown. cbv zeta.
      destruct (cleanOperators validOperators fieldObj) eqn:Hops; [destruct Hkept|].
      cbn [keys map List.length Nat.ltb Nat.leb].
      now rewrite obj_assign_own by now apply not_inherited_not_proto.
    + exists r, (cleanOperators validOperators fieldObj). now repeat split.
Qed.

Lemma cleanFilter_keeps_valid_witness :
  (exists r,
     Some [ ("state", JStr "new"); ("title", JObj [("string_contains", JStr "bug")]) ] = Some r
     /\ In ("state", JStr "new") r)
  /\ (exists r cleanedOperators,
        Some [ ("state", JStr "new"); ("title", JObj [("string_contains", JStr "bug")]) ]
        = Some r
        /\ In ("title", JObj cleanedOperators) r
        /\ In ("string_contains", JStr "bug") cleanedOperators).
Proof.
  assert (Hnd : NoDup (keys [ ("state", JStr "new");
                              ("title", JObj [("gte", JNum 1);
                                              ("string_contains", JStr "bug")]) ])).
  { repeat constructor; simpl; intuition discriminate. }
  destruct (cleanFilter_keeps_valid
              [ ("state", JStr "new");
                ("title", JObj [("gte", JNum 1); ("string_contains", JStr "bug")]) ]
              (Some [ ("state", JStr "new");
                      ("title", JObj [("string_contains", JStr "bug")]) ])
              Hnd eq_refl) as [Hplain Hops].
  split.
  - apply Hplain; [simpl; tauto | reflexivity | discriminate | discriminate].
  - apply (Hops "title" [("gte", JNum 1); ("string_contains", JStr "bug")]
             ["string_contains"; "string_does_not_contain"]).
    + simpl. tauto.
    + reflexivity.
    + repeat constructor; simpl; intuition discriminate.
    + simpl. tauto.
    + simpl. tauto.
    + reflexivity.
Defined.

(** *** When cleaning returns nothing *)

Lemma copy_loop_empty (step : obj -> string * jsval -> obj) (l : list (string * jsval)) :
  (forall acc kv, In kv l ->
     step acc kv = acc \/ exists v', step acc kv = obj_set acc (fst kv) v') ->
  forall acc, fold_left step l acc = [] ->
    acc = [] /\ forall kv, In kv l -> step [] kv = [].
Proof.
  induction l as [|kv l IH]; simpl; intros Hstep acc Hfold.
  - split; [exact Hfold | tauto].
  - destruct (IH (fun a x H => Hstep a x (or_intror H)) _ Hfold) as [Hacc Hrest].
    destruct (Hstep acc kv (or_introl eq_refl)) as [Heq|(v' & Heq)].
    + rewrite Heq in Hacc. split; [exact Hacc|].
      intros kv' [<-|Hin]; [now rewrite Hacc in Heq | now apply Hrest].
    + rewrite Heq in Hacc. exfalso.
      destruct acc as [|[k0 v0] acc]; simpl in Hacc; [discriminate|].
      destruct (String.eqb k0 (fst kv)); discriminate.
Qed.

Lemma cleanOperators_none validOperators fieldObj :
  cleanOperators validOperators fieldObj = [] <->
  (forall op opValue, In (op, opValue) fieldObj ->
     ~ In op validOperators \/ nullish opValue = true \/ op = "__proto__").
Proof.
  split.
  - intros Hclean op opValue Hin.
    destruct (copy_loop_empty (cleanOperator validOperators) fieldObj
                (fun acc kv _ =>
                   match cleanOperator_cases validOperators acc kv with
                   | or_introl H => or_introl H
                   | or_intror (ex_intro _ v' (conj H _)) => or_intror (ex_intro _ v' H)
                   end) [] Hclean) as [_ Hsteps].
    specialize (Hsteps (op, opValue) Hin). simpl in Hsteps.
    destruct (Set_has validOperators op) eqn:Hhas.
    + destruct (nullish opValue); [right; now left|]. simpl in Hsteps.
      right. right. unfold obj_assign in Hsteps.
      destruct (String.eqb_spec op "__proto__"); [assumption | discriminate Hsteps].
    + left. intros Hop. apply Set_has_In in Hop. congruence.
  - intros Hnone. unfold cleanOperators. apply copy_loop_nothing.
    intros acc' [op opValue] Hin. simpl.
    destruct (Hnone op opValue Hin) as [Hop|[Hnull| ->]].
    + destruct (Set_has validOperators op) eqn:Hhas; [|reflexivity].
      apply Set_has_In in Hhas. now elim Hop.
    + rewrite Hnull. now rewrite andb_false_r.
    + now destruct (_ && _).
Qed.

Lemma eliminated_skipped fieldName fieldValue :
  field_eliminated (fieldName, fieldValue) <-> cleans_to fieldName fieldValue Skipped.
Proof.
  unfold field_eliminated. cbn [fst snd]. split.
  - intros [Hnn|[[-> Hplain]|[(fieldObj & validOperators & -> & Hknown & Hnone)
                             |[[Hinh ->]|(fieldObj & -> & Hunknown & Hinh & Hnone)]]]].
    + now apply clean_nullish.
    + destruct (nullish fieldValue) eqn:Hnn;
        [now apply clean_nullish | now apply clean_prototype].
    + apply (clean_known_none _ _ validOperators Hknown).
      apply cleanOperators_none. intros op opValue Hin.
      destruct (Hnone op opValue Hin); [now left | right; now left].
    + destruct (VALID_OPERATORS fieldName) as [validOperators|] eqn:Hknown.
      * now apply (clean_known_none _ _ validOperators).
      * now apply clean_inherited_empty.
    + now apply clean_unknown_none.
  - intros Hto.
    inversion Hto as [v Hnn|v Hnn Hv Hname| |fieldObj ops Hknown Hclean| |Hunknown Hinh| |
                     |fieldObj Hunknown Hinh Hclean| ]; subst.
    + now left.
    + right. left. now split.
    + right. right. left. exists fieldObj, ops. split; [reflexivity|].
      split; [exact Hknown|]. intros op opValue Hin.
      destruct (VALID_OPERATORS_own _ _ Hknown) as [_ Hproto].
      destruct (proj1 (cleanOperators_none ops fieldObj) Hclean op opValue Hin)
        as [H|[H| ->]]; [now left | now right | now left].
    + right. right. right. left. now split.
    + right. right. right. right. exists fieldObj. now repeat split.
Qed.

Lemma cleanField_eliminated acc kv :
  field_eliminated kv -> cleanField cleanFilter_value acc kv = Ok acc.
Proof.
  destruct kv as [k v]. intros Helim. apply eliminated_skipped in Helim.
  destruct (cleanField_outcome k v) as (o & Hto & Ho).
  rewrite Ho, (cleans_to_unique _ _ _ _ Hto Helim). reflexivity.
Qed.

Lemma cleanField_stores_nothing kv :
  cleanField cleanFilter_value [] kv = Ok [] -> field_eliminated kv.
Proof.
  destruct kv as [k v]. destruct (cleanField_outcome k v) as (o & Hto & Ho).
  rewrite Ho. destruct o as [|v'|e]; cbn [outcome_on].
  - intros _. now apply eliminated_skipped.
  - discriminate.
  - discriminate.
Qed.

Lemma cleanFilter_eliminated (f : obj) :
  Forall field_eliminated f -> cleanFilter f = Ok None.
Proof.
  intros Hall.
  assert (Hsteps : forall acc kv, In kv f -> cleanField cleanFilter_value acc kv = Ok acc).
  { intros acc kv Hin. apply cleanField_eliminated.
    rewrite Forall_forall in Hall. now apply Hall. }
  assert (Hloop : for_of_into (cleanField cleanFilter_value) f [] = Ok []).
  { rewrite for_of_into_returns by (intros acc kv Hin; rewrite (Hsteps acc kv Hin); eauto).
    f_equal. apply copy_loop_nothing.
    intros acc kv Hin. unfold settled. now rewrite (Hsteps acc kv Hin). }
  now rewrite (cleanFilter_of_loop _ _ Hloop).
Qed.

(** X4. [cleanFilter] returns [undefined] exactly when every field of the
    filter is removed without an exception: each is [null] or [undefined],
    or a value that is no object under the name [__proto__], or a known
    field none of whose operators is both whitelisted and set, or the empty
    object under the name of a member of [Object.prototype], or an unknown
    field whose object cleans to nothing in its turn.  The empty filter is
    such a filter. *)
Theorem cleanFilter_undefined_iff (f : obj) :
  cleanFilter f = Ok None <-> Forall field_eliminated f.
Proof.
  split; [|apply cleanFilter_eliminated].
  intros Hnone. apply Forall_forall. intros kv Hin.
  unfold cleanFilter in Hnone. cbn [cleanFilter_value] in Hnone.
  destruct (for_of_into (cleanField cleanFilter_value) f []) as [result|e] eqn:Hloop;
    [|discriminate Hnone].
  cbn [bind] in Hnone.
  assert (Hempty : result = []) by (destruct result; [reflexivity | discriminate Hnone]).
  subst result.
  destruct (for_of_into_iterations _ cleanField_throws_alike _ _ _ Hloop kv Hin [])
    as [r' Hkv].
  apply cleanField_stores_nothing. rewrite Hkv. f_equal.
  pose proof (for_of_into_settled _ _ _ _ Hloop) as Hfold. symmetry in Hfold.
  destruct (copy_loop_empty (settled (cleanField cleanFilter_value)) f
              (fun acc x _ => settled_cleanField_cases acc x) [] Hfold) as [_ Hsteps].
  specialize (Hsteps kv Hin). unfold settled in Hsteps. now rewrite Hkv in Hsteps.
Qed.

(** *** When cleaning throws *)

Lemma cleanField_cleans_to fieldName fieldValue o :
  cleans_to fieldName fieldValue o ->
  forall acc, cleanField cleanFilter_value acc (fieldName, fieldValue)
              = outcome_on acc fieldName o.
Proof.
  intros Hto acc. destruct (cleanField_outcome fieldName fieldValue) as (o' & Hto' & Ho).
  now rewrite Ho, (cleans_to_unique _ _ _ _ Hto' Hto).
Qed.

(** Every exception of [cleanFilter] is the [TypeError] of the call of
    [has], and comes from a field that throws. *)
Lemma cleanFilter_throws_sound (v : jsval) :
  forall f, v = JObj f -> forall e, cleanFilter f = Throw e ->
    e = TypeError "validOperators.has is not a function" /\ Exists field_throws f.
Proof.
  induction v as [ | | b | n | s | items _ | entries IH ] using jsval_nested_ind;
    try discriminate.
  intros f [= <-] e Hthrow.
  unfold cleanFilter in Hthrow. cbn [cleanFilter_value] in Hthrow.
  destruct (for_of_into (cleanField cleanFilter_value) entries []) as [result|e'] eqn:Hloop;
    [discriminate Hthrow|].
  injection Hthrow as <-.
  destruct (for_of_into_throws _ cleanField_throws_alike _ _ _ Hloop) as ([k x] & Hin & Hkv).
  destruct (cleanField_outcome k x) as (o & Hto & Ho).
  specialize (Hkv []). rewrite Ho in Hkv.
  destruct o as [|v'|e'']; try discriminate Hkv. injection Hkv as ->.
  rewrite Forall_forall in IH. specialize (IH (k, x) Hin). cbn [snd] in IH.
  assert (Hfield : e' = TypeError "validOperators.has is not a function"
                   /\ field_throws (k, x)).
  { inversion Hto as [ | | | | | |fieldObj Hunknown Hinh Hne
                     |fieldObj e0 Hunknown Hinh Hclean| | ]; subst.
    - split; [reflexivity | now apply throws_inherited].
    - destruct (IH fieldObj eq_refl e' Hclean) as [He Hex].
      split; [exact He | now apply throws_nested]. }
  destruct Hfield as [He Hfield]. split; [exact He|].
  apply Exists_exists. now exists (k, x).
Qed.

Lemma cleanFilter_throws_complete (v : jsval) :
  forall f, v = JObj f -> Exists field_throws f -> exists e, cleanFilter f = Throw e.
Proof.
  induction v as [ | | b | n | s | items _ | entries IH ] using jsval_nested_ind;
    try discriminate.
  intros f [= <-] Hex.
  apply Exists_exists in Hex as ([k x] & Hin & Hthrows).
  assert (Hstep : exists e, forall acc, cleanField cleanFilter_value acc (k, x) = Throw e).
  { inversion Hthrows as [fieldName fieldObj Hinh Hne|fieldName fieldObj Hunknown Hinh Hex];
      subst.
    - exists (TypeError "validOperators.has is not a function"). intros acc.
      apply (cleanField_cleans_to k (JObj fieldObj) (Thrown _)).
      apply clean_inherited; try assumption.
      destruct (VALID_OPERATORS k) as [ops|] eqn:Hknown; [|reflexivity].
      destruct (VALID_OPERATORS_own _ _ Hknown) as [Hown _]. congruence.
    - rewrite Forall_forall in IH.
      destruct (IH (k, JObj fieldObj) Hin fieldObj eq_refl Hex) as [e He].
      exists e. intros acc.
      apply (cleanField_cleans_to k (JObj fieldObj) (Thrown e)).
      now apply clean_unknown_throws. }
  destruct Hstep as [e He].
  unfold cleanFilter. cbn [cleanFilter_value].
  destruct (for_of_into (cleanField cleanFilter_value) entries []) as [result|e'] eqn:Hloop.
  - destruct (for_of_into_iterations _ cleanField_throws_alike _ _ _ Hloop (k, x) Hin [])
      as [r' Hkv].
    rewrite He in Hkv. discriminate.
  - now exists e'.
Qed.

(** X21. [cleanFilter] throws exactly on a filter that holds an object
    that is not empty under the name of a member of [Object.prototype]
    ([constructor], [toString], [__proto__], ...), at the top or below
    unknown fields: the lookup in [VALID_OPERATORS] finds the inherited
    member, which has no method [has].  The exception is always the same
    [TypeError], and there is no other one. *)
Theorem cleanFilter_throws_iff (f : obj) :
  (Exists field_throws f <->
   cleanFilter f = Throw (TypeError "validOperators.has is not a function"))
  /\ (forall e, cleanFilter f = Throw e ->
        e = TypeError "validOperators.has is not a function").
Proof.
  split; [split|].
  - intros Hex. destruct (cleanFilter_throws_complete (JObj f) f eq_refl Hex) as [e He].
    destruct (cleanFilter_throws_sound (JObj f) f eq_refl e He) as [-> _]. exact He.
  - intros He. exact (proj2 (cleanFilter_throws_sound (JObj f) f eq_refl _ He)).
  - intros e He. exact (proj1 (cleanFilter_throws_sound (JObj f) f eq_refl _ He)).
Qed.

(** ** The search requests *)

Section SearchRequests.

Variable new_Date : jsval -> option Z.
Variable toFixed1 : Z -> string.
Variable fetch : list http_call -> http_call -> result response.

(** X5. A filter that cleaning removes entirely becomes a search without
    filter: when every field of the filter is eliminated (without an
    exception), [searchAccounts] and [searchContacts], and [searchIssues]
    when the time ranges pass, still make their request, with the empty
    object as its filter. *)
Theorem search_with_eliminated_filter (filter : obj) (params : jsval) (w : effects) :
  Forall field_eliminated filter ->
  http (snd (searchAccounts fetch filter params w)) =
    (http w ++ [ {| call_method := "POST"; call_path := "/accounts/search";
                    call_body := Some (JObj [ ("filter", JObj []);
                                              ("limit", opt_prop params "limit");
                                              ("cursor", opt_prop params "cursor") ]) |} ])%list
  /\ http (snd (searchContacts fetch filter params w)) =
    (http w ++ [ {| call_method := "POST"; call_path := "/contacts/search";
                    call_body := Some (JObj [ ("filter", JObj []);
                                              ("limit", opt_prop params "limit");
                                              ("cursor", opt_prop params "cursor") ]) |} ])%list
  /\ (validateFilterTimeRanges new_Date toFixed1 filter = Ok tt ->
      http (snd (searchIssues new_Date toFixed1 fetch filter params w)) =
        (http w ++ [ {| call_method := "POST"; call_path := "/issues/search";
                        call_body := Some (JObj [ ("filter", JObj []);
                                                  ("limit", opt_prop params "limit");
                                                  ("cursor", opt_prop params "cursor") ]) |} ])%list).
Proof.
  intros Hall. pose proof (cleanFilter_eliminated filter Hall) as Hnone.
  split; [|split].
  - rewrite searchAccounts_unfold, Hnone, request_http. reflexivity.
  - rewrite searchContacts_unfold, Hnone, request_http. reflexivity.
  - intros Hvalid. rewrite searchIssues_unfold, Hvalid, Hnone, request_http. reflexivity.
Qed.

(** The outcome of a request whose answer is not a success, and of one
    that [fetch] rejects. *)
Lemma request_failure method path body w :
  let call := {| call_method := method; call_path := path;
                 call_body := if truthy body then Some body else None |} in
  let w' := {| http := (http w ++ [call])%list; stderr := stderr w |} in
  (forall resp, fetch (http w) call = Ok resp -> resp_ok resp = false ->
     request fetch method path (Some body) w =
     (Throw (Error ("Pylon API error: " ++ resp_status resp ++ " "
                    ++ resp_statusText resp ++ " - " ++ resp_text resp)), w'))
  /\ (forall e, fetch (http w) call = Throw e ->
        request fetch method path (Some body) w = (Throw e, w')).
Proof.
  unfold request. split.
  - intros resp -> ->. reflexivity.
  - intros e ->. reflexivity.
Qed.

(** X6. A transport failure is never swallowed and never retried: on a
    filter that [cleanFilter] cleans without an exception, when the
    service answers the request of [searchIssues] (whose time ranges pass),
    of [searchAccounts] or of [searchContacts] with a status that is not a
    success, the method throws the error that carries the status, the
    status text and the body of the answer, after that one call. *)
Theorem search_propagates_transport_error (filter : obj) (params : jsval) (w : effects)
  (resp : response) (cleanedFilter : option obj) :
  resp_ok resp = false ->
  cleanFilter filter = Ok cleanedFilter ->
  let failure := Throw (Error ("Pylon API error: " ++ resp_status resp ++ " "
                               ++ resp_statusText resp ++ " - " ++ resp_text resp)) in
  let body := search_body cleanedFilter params in
  (fetch (http w) {| call_method := "POST"; call_path := "/accounts/search";
                     call_body := Some body |} = Ok resp ->
   searchAccounts fetch filter params w =
   (failure, {| http := (http w ++ [ {| call_method := "POST";
                                        call_path := "/accounts/search";
                                        call_body := Some body |} ])%list;
                stderr := stderr w |}))
  /\ (fetch (http w) {| call_method := "POST"; call_path := "/contacts/search";
                        call_body := Some body |} = Ok resp ->
      searchContacts fetch filter params w =
      (failure, {| http := (http w ++ [ {| call_method := "POST";
                                           call_path := "/contacts/search";
                                           call_body := Some body |} ])%list;
                   stderr := stderr w |}))
  /\ (validateFilterTimeRanges new_Date toFixed1 filter = Ok tt ->
      fetch (http w) {| call_method := "POST"; call_path := "/issues/search";
                        call_body := Some body |} = Ok resp ->
      fst (searchIssues new_Date toFixed1 fetch filter params w) = failure
      /\ http (snd (searchIssues new_Date toFixed1 fetch filter params w)) =
         (http w ++ [ {| call_method := "POST"; call_path := "/issues/search";
                         call_body := Some body |} ])%list).
Proof.
  intros Hfail Hclean failure body. split; [|split].
  - intros Hfetch. rewrite searchAccounts_unfold, Hclean.
    exact (proj1 (request_failure "POST" "/accounts/search" body w) resp Hfetch Hfail).
  - intros Hfetch. rewrite searchContacts_unfold, Hclean.
    exact (proj1 (request_failure "POST" "/contacts/search" body w) resp Hfetch Hfail).
  - intros Hvalid Hfetch. rewrite searchIssues_unfold, Hvalid, Hclean.
    set (w1 := {| http := http w; stderr := _ |}).
    pose proof (proj1 (request_failure "POST" "/issues/search" body w1) resp Hfetch Hfail)
      as Hreq.
    fold body. rewrite Hreq. split; reflexivity.
Qed.

(** *** Which filters pass the validation of the time ranges *)

Lemma validateFieldTimeRange_ok_or_throw entry :
  validateFieldTimeRange new_Date toFixed1 entry = Ok tt
  \/ exists x, validateFieldTimeRange new_Date toFixed1 entry = Throw x.
Proof.
  destruct (validateFieldTimeRange new_Date toFixed1 entry) as [[]|x];
    [now left | right; eauto].
Qed.

Lemma validateFilterTimeRanges_valid filter :
  validateFilterTimeRanges new_Date toFixed1 filter = Ok tt ->
  forall fieldName fieldValue start end_,
    In (fieldName, fieldValue) filter ->
    carries_time_range fieldValue start end_ ->
    validateTimeRange new_Date toFixed1 start end_ = Ok tt.
Proof.
  unfold validateFilterTimeRanges.
  induction filter as [|[k v] filter IH]; cbn [for_of]; intros Hok k' v' s e Hin Hcarries;
    [destruct Hin|].
  destruct (validateFieldTimeRange new_Date toFixed1 (k, v)) as [[]|x] eqn:Hkv;
    [|discriminate Hok].
  destruct Hin as [Heq|Hin].
  - injection Heq as Hk Hv. subst k' v'.
    rewrite (validateFieldTimeRange_carried new_Date toFixed1 k v s e Hcarries) in Hkv.
    destruct (validateTimeRange new_Date toFixed1 s e) as [[]|]; [reflexivity | discriminate].
  - exact (IH Hok k' v' s e Hin Hcarries).
Qed.

Lemma validateFilterTimeRanges_passes filter :
  (forall fieldName fieldValue start end_,
     In (fieldName, fieldValue) filter ->
     carries_time_range fieldValue start end_ ->
     validateTimeRange new_Date toFixed1 start end_ = Ok tt) ->
  validateFilterTimeRanges new_Date toFixed1 filter = Ok tt.
Proof.
  unfold validateFilterTimeRanges.
  induction filter as [|[k v] filter IH]; cbn [for_of]; intros Hall; [reflexivity|].
  destruct (validateFieldTimeRange_ok_or_throw (k, v)) as [Hok|[x Hthrow]].
  - rewrite Hok. apply IH. intros k' v' s e Hin Hc'.
    apply (Hall k' v' s e); [now right | exact Hc'].
  - destruct (validateFieldTimeRange_throws _ _ _ _ _ Hthrow) as (s & e & err & Hc & Hf & _).
    rewrite (Hall k v s e (or_introl eq_refl) Hc) in Hf. discriminate.
Qed.

(** X7. [validateFilterTimeRanges] accepts a filter exactly when every
    field at the top of the filter that is an object carrying a
    [time_range] with truthy [start] and [end] has a pair that
    [validateTimeRange] accepts.  Nothing else in the filter makes it fail:
    a field that is no object, a [time_range] without both ends, and a time
    range below the top level are not looked at. *)
Theorem validateFilterTimeRanges_ok_iff (filter : obj) :
  validateFilterTimeRanges new_Date toFixed1 filter = Ok tt <->
  (forall fieldName fieldValue start end_,
     In (fieldName, fieldValue) filter ->
     carries_time_range fieldValue start end_ ->
     validateTimeRange new_Date toFixed1 start end_ = Ok tt).
Proof.
  split; [apply validateFilterTimeRanges_valid | apply validateFilterTimeRanges_passes].
Qed.

End SearchRequests.

Lemma search_with_eliminated_filter_witness :
  http (snd (searchAccounts Runtime.fetch
               [ ("name", JObj [("gte", JStr "a")]); ("tags", JNull) ]
               (JObj [("limit", JNum 50)]) no_effects))
  = [ {| call_method := "POST"; call_path := "/accounts/search";
         call_body := Some (JObj [ ("filter", JObj []); ("limit", JNum 50);
                                   ("cursor", JUndefined) ]) |} ].
Proof.
  refine (proj1 (search_with_eliminated_filter Runtime.new_Date Runtime.toFixed1 Runtime.fetch
                   [ ("name", JObj [("gte", JStr "a")]); ("tags", JNull) ]
                   (JObj [("limit", JNum 50)]) no_effects _)).
  apply Forall_cons; [|apply Forall_cons; [|apply Forall_nil]].
  - right. right. left. exists [("gte", JStr "a")], ["equals"; "string_contains"].
    split; [reflexivity|]. split; [reflexivity|].
    intros op opValue [[= <- <-]|[]]. left. simpl. intuition discriminate.
  - left. reflexivity.
Defined.

Lemma search_propagates_transport_error_witness :
  searchAccounts fetch_unavailable [ ("name", JObj [("equals", JStr "Acme")]) ]
    JUndefined no_effects
  = (Throw (Error "Pylon API error: 503 Service Unavailable - try later"),
     {| http := [ {| call_method := "POST"; call_path := "/accounts/search";
                     call_body := Some (JObj [ ("filter",
                                                JObj [("name", JObj [("equals", JStr "Acme")])]);
                                               ("limit", JUndefined);
                                               ("cursor", JUndefined) ]) |} ];
        stderr := [] |}).
Proof.
  refine (proj1 (search_propagates_transport_error Runtime.new_Date Runtime.toFixed1
                   fetch_unavailable [ ("name", JObj [("equals", JStr "Acme")]) ]
                   JUndefined no_effects unavailable
                   (Some [ ("name", JObj [("equals", JStr "Acme")]) ])
                   eq_refl eq_refl) eq_refl).
Defined.

(** *** What searchIssues sends *)

Lemma get_In (o : obj) (k : string) (v : jsval) :
  get o k = v -> v <> JUndefined -> In (k, v) o.
Proof.
  induction o as [|[k' v'] o IH]; simpl; intros Hget Hv; [now elim Hv|].
  destruct (String.eqb_spec k' k) as [->|Hne]; [left; now subst | right; now apply IH].
Qed.

Lemma In_get (o : obj) (k : string) (v : jsval) :
  NoDup (keys o) -> In (k, v) o -> get o k = v.
Proof.
  induction o as [|[k' v'] o IH]; simpl; intros Hnd Hin; [destruct Hin|].
  inversion Hnd as [|? ? Hnotin Hnd']; subst.
  destruct Hin as [[= -> ->]|Hin].
  - now rewrite String.eqb_refl.
  - destruct (String.eqb_spec k' k) as [->|Hne]; [|now apply IH].
    exfalso. apply Hnotin. unfold keys. apply in_map_iff. now exists (k, v).
Qed.

Section SentFilter.

Variable new_Date : jsval -> option Z.
Variable toFixed1 : Z -> string.
Variable fetch : list http_call -> http_call -> result response.

(** X8. What [searchIssues] sends is the cleaned filter, and the time
    ranges at its top level have been validated: when [searchIssues] makes
    a request (the operators of each field of the filter being distinct),
    [cleanFilter] has returned, the one request holds what it returned, and
    every known field at the top level of that filter that carries a
    [time_range] with truthy [start] and [end] has a pair that
    [validateTimeRange] accepts.  A time range below the top level, under
    an unknown field, is sent without validation, as in the example after
    the theorem. *)
Theorem searchIssues_sends_validated_ranges (filter : obj) (params : jsval) (w : effects) :
  (forall fieldName fieldObj, In (fieldName, JObj fieldObj) filter -> NoDup (keys fieldObj)) ->
  http (snd (searchIssues new_Date toFixed1 fetch filter params w)) <> http w ->
  exists cleanedFilter,
    cleanFilter filter = Ok cleanedFilter
    /\ http (snd (searchIssues new_Date toFixed1 fetch filter params w)) =
       (http w ++ [ {| call_method := "POST"; call_path := "/issues/search";
                       call_body := Some (search_body cleanedFilter params) |} ])%list
    /\ forall sent fieldName v start end_,
         cleanedFilter = Some sent ->
         In (fieldName, v) sent ->
         VALID_OPERATORS fieldName <> None ->
         carries_time_range v start end_ ->
         validateTimeRange new_Date toFixed1 start end_ = Ok tt.
Proof.
  intros Hdistinct Hcall.
  rewrite searchIssues_unfold in *.
  destruct (validateFilterTimeRanges new_Date toFixed1 filter) as [[]|x] eqn:Hvalid;
    [|now elim Hcall].
  destruct (cleanFilter filter) as [cleanedFilter|e] eqn:Hclean; [|now elim Hcall].
  exists cleanedFilter. split; [reflexivity|].
  split; [now rewrite request_http|].
  intros sent fieldName v start end_ -> Hin Hknown Hcarries.
  destruct (cleanFilter_result _ _ Hclean) as [Hloop _].
  rewrite (for_of_into_settled _ _ _ _ Hloop) in Hin.
  destruct (copy_loop_provenance (settled (cleanField cleanFilter_value))
              (fun kv v' => cleaned_from (fst kv) (snd kv) v')
              filter (fun acc kv _ =>
                        settled_cleanField_stores
                          (fun x => cleaned_from (fst x) (snd kv) (snd x)) acc kv
                          (fun v' H => stored_from _ _ _ H))
              [] fieldName v Hin)
    as [[]|(v0 & Hin0 & Hfrom)].
  destruct Hcarries as (cleanedOperators & timeRange & -> & Htr & Hs & He & Hts & Hte).
  cbn [fst snd] in Hfrom.
  destruct Hfrom as [[Heq Hplain]|[(fieldObj & ops & cleaned' & -> & _ & [= <-] & Hsub)
                                |(fieldObj & cleaned' & _ & Hunknown & _)]].
  - symmetry in Heq. now elim (Hplain cleanedOperators).
  - apply (validateFilterTimeRanges_valid new_Date toFixed1 filter Hvalid
             fieldName (JObj fieldObj) start end_ Hin0).
    exists fieldObj, timeRange. repeat split; try assumption.
    apply In_get; [exact (Hdistinct _ _ Hin0)|].
    apply Hsub. apply get_In; [exact Htr | discriminate].
  - now elim Hknown.
Qed.

End SentFilter.

Lemma searchIssues_sends_validated_ranges_witness :
  exists cleanedFilter,
    cleanFilter [ ("created_at",
                   JObj [ ("gte", JNum 1);
                          ("time_range", JObj [ ("start", JStr "2024-02-01T00:00:00Z");
                                                ("end", JStr "2024-02-10T00:00:00Z") ]) ]) ]
    = Ok cleanedFilter
    /\ http (snd (searchIssues Runtime.new_Date Runtime.toFixed1 Runtime.fetch
                    [ ("created_at",
                       JObj [ ("gte", JNum 1);
                              ("time_range", JObj [ ("start", JStr "2024-02-01T00:00:00Z");
                                                    ("end", JStr "2024-02-10T00:00:00Z") ]) ]) ]
                    JUndefined no_effects)) =
       ([] ++ [ {| call_method := "POST"; call_path := "/issues/search";
                   call_body := Some (search_body cleanedFilter JUndefined) |} ])%list
    /\ forall sent fieldName v start end_,
         cleanedFilter = Some sent ->
         In (fieldName, v) sent ->
         VALID_OPERATORS fieldName <> None ->
         carries_time_range v start end_ ->
         validateTimeRange Runtime.new_Date Runtime.toFixed1 start end_ = Ok tt.
Proof.
  apply (searchIssues_sends_validated_ranges Runtime.new_Date Runtime.toFixed1 Runtime.fetch
           [ ("created_at",
              JObj [ ("gte", JNum 1);
                     ("time_range", JObj [ ("start", JStr "2024-02-01T00:00:00Z");
                                           ("end", JStr "2024-02-10T00:00:00Z") ]) ]) ]
           JUndefined no_effects).
  - intros fieldName fieldObj [[= <- <-]|[]].
    repeat constructor; simpl; intuition discriminate.
  - discriminate.
Defined.

(** A time range that ends before it starts, under an unknown field: it
    is below the top level, so that [validateFilterTimeRanges] does not
    look at it, and [searchIssues] sends it. *)
Example searchIssues_sends_nested_range :
  http (snd (searchIssues Runtime.new_Date Runtime.toFixed1 Runtime.fetch
               [ ("custom", JObj reversed_range_filter) ] JUndefined no_effects))
  = [ {| call_method := "POST"; call_path := "/issues/search";
         call_body := Some (JObj [ ("filter", JObj [ ("custom", JObj reversed_range_filter) ]);
                                   ("limit", JUndefined); ("cursor", JUndefined) ]) |} ].
Proof. reflexivity. Qed.

(** *** A field under an inherited name *)

Section InheritedNames.

Variable new_Date : jsval -> option Z.
Variable toFixed1 : Z -> string.
Variable fetch : list http_call -> http_call -> result response.

(** X22. A search on a filter on which [cleanFilter] throws makes no
    request: when the filter holds an object that is not empty under the
    name of a member of [Object.prototype] (at the top or below unknown
    fields), [searchAccounts] and [searchContacts], and [searchIssues] when
    the time ranges pass, throw the [TypeError] of [cleanFilter] and make
    no HTTP call and write no log line. *)
Theorem search_throws_on_inherited_name (filter : obj) (params : jsval) (w : effects) :
  Exists field_throws filter ->
  let failure := Throw (TypeError "validOperators.has is not a function") in
  searchAccounts fetch filter params w = (failure, w)
  /\ searchContacts fetch filter params w = (failure, w)
  /\ (validateFilterTimeRanges new_Date toFixed1 filter = Ok tt ->
      searchIssues new_Date toFixed1 fetch filter params w = (failure, w)).
Proof.
  intros Hex failure.
  destruct (cleanFilter_throws_complete (JObj filter) filter eq_refl Hex) as [e He].
  destruct (cleanFilter_throws_sound (JObj filter) filter eq_refl e He) as [-> _].
  split; [|split].
  - now rewrite searchAccounts_unfold, He.
  - now rewrite searchContacts_unfold, He.
  - intros Hvalid. now rewrite searchIssues_unfold, Hvalid, He.
Qed.

End InheritedNames.

Lemma search_throws_on_inherited_name_witness :
  searchAccounts Runtime.fetch
    [ ("name", JObj [("equals", JStr "Acme")]);
      ("constructor", JObj [("equals", JStr "x")]) ] JUndefined no_effects
  = (Throw (TypeError "validOperators.has is not a function"), no_effects).
Proof.
  refine (proj1 (search_throws_on_inherited_name Runtime.new_Date Runtime.toFixed1
                   Runtime.fetch
                   [ ("name", JObj [("equals", JStr "Acme")]);
                     ("constructor", JObj [("equals", JStr "x")]) ]
                   JUndefined no_effects _)).
  apply Exists_cons_tl. apply Exists_cons_hd.
  apply throws_inherited; [reflexivity | discriminate].
Defined.

(** ** The list methods and their query strings *)

Lemma count_char_app (c : ascii) (s t : string) :
  count_char c (s ++ t) = (count_char c s + count_char c t)%nat.
Proof. induction s as [|d s IH]; simpl; [reflexivity | rewrite IH; lia]. Qed.

(** An encoded character holds none of the characters that structure a
    URL and its query. *)
Lemma urlencode_unit_safe (c : ascii) :
  count_char "&" (urlencode_unit c) = 0%nat /\ count_char "=" (urlencode_unit c) = 0%nat
  /\ count_char "?" (urlencode_unit c) = 0%nat /\ count_char "#" (urlencode_unit c) = 0%nat
  /\ count_char " " (urlencode_unit c) = 0%nat /\ count_char "/" (urlencode_unit c) = 0%nat.
Proof.
  destruct c as [[] [] [] [] [] [] [] []]; vm_compute; repeat split.
Qed.

Lemma urlencode_safe (s : string) :
  count_char "&" (urlencode s) = 0%nat /\ count_char "=" (urlencode s) = 0%nat
  /\ count_char "?" (urlencode s) = 0%nat /\ count_char "#" (urlencode s) = 0%nat
  /\ count_char " " (urlencode s) = 0%nat /\ count_char "/" (urlencode s) = 0%nat.
Proof.
  induction s as [|c s (I1 & I2 & I3 & I4 & I5 & I6)]; [now repeat split|].
  destruct (urlencode_unit_safe c) as (U1 & U2 & U3 & U4 & U5 & U6).
  cbn [urlencode]. rewrite !count_char_app.
  rewrite I1, I2, I3, I4, I5, I6, U1, U2, U3, U4, U5, U6. now repeat split.
Qed.

Lemma URLSearchParams_toString_cons (p : string * string) (ps : list (string * string)) :
  URLSearchParams_toString (p :: ps) =
  urlencode (fst p) ++ "=" ++ urlencode (snd p)
  ++ match ps with [] => "" | _ => "&" ++ URLSearchParams_toString ps end.
Proof.
  unfold URLSearchParams_toString. destruct ps as [|q ps].
  - cbn [map join]. now rewrite ?app_assoc_string, app_empty_string.
  - change (map ?f (p :: q :: ps)) with (f p :: map f (q :: ps)).
    change (map ?f (q :: ps)) with (f q :: map f ps).
    cbn [join]. now rewrite !app_assoc_string.
Qed.

(** The separators of a query are those of its pairs: one [=] per pair and
    one [&] between two pairs, whatever the names and values hold. *)
Lemma URLSearchParams_toString_separators (ps : list (string * string)) :
  count_char "&" (URLSearchParams_toString ps) = pred (List.length ps)
  /\ count_char "=" (URLSearchParams_toString ps) = List.length ps
  /\ count_char "?" (URLSearchParams_toString ps) = 0%nat
  /\ count_char "#" (URLSearchParams_toString ps) = 0%nat
  /\ count_char " " (URLSearchParams_toString ps) = 0%nat.
Proof.
  induction ps as [|p ps (I1 & I2 & I3 & I4 & I5)]; [now repeat split|].
  rewrite URLSearchParams_toString_cons.
  destruct (urlencode_safe (fst p)) as (A1 & A2 & A3 & A4 & A5 & _).
  destruct (urlencode_safe (snd p)) as (B1 & B2 & B3 & B4 & B5 & _).
  destruct ps as [|q ps].
  - rewrite !count_char_app, A1, A2, A3, A4, A5, B1, B2, B3, B4, B5. now repeat split.
  - rewrite !count_char_app, A1, A2, A3, A4, A5, B1, B2, B3, B4, B5, I1, I2, I3, I4, I5.
    cbn [List.length pred count_char]. repeat split; cbn; lia.
Qed.

Lemma pagination_pairs_length (params : jsval) :
  (List.length (pagination_pairs params) <= 2)%nat.
Proof.
  unfold pagination_pairs.
  destruct (truthy (opt_prop params "limit")), (truthy (opt_prop params "cursor"));
    simpl; lia.
Qed.

Section ListProperties.

Variable new_Date : jsval -> option Z.
Variable toFixed1 : Z -> string.
Variable fetch : list http_call -> http_call -> result response.

Lemma listIssues_unfold startTime endTime params w :
  listIssues new_Date toFixed1 fetch startTime endTime params w =
  match validateTimeRange new_Date toFixed1 (JStr startTime) (JStr endTime) with
  | Throw e => (Throw e, w)
  | Ok _ =>
      request fetch "GET"
        ("/issues?" ++ URLSearchParams_toString
                         ([("start_time", startTime); ("end_time", endTime)]
                          ++ pagination_pairs params)%list) None w
  end.
Proof.
  unfold listIssues, mbind, lift.
  destruct (validateTimeRange _ _ _ _); reflexivity.
Qed.

Lemma request_get_http path w :
  http (snd (request fetch "GET" path None w)) =
  (http w ++ [ {| call_method := "GET"; call_path := path; call_body := None |} ])%list.
Proof.
  unfold request. destruct (fetch _ _) as [resp|e]; [|reflexivity].
  now destruct (resp_ok resp).
Qed.

(** X9. [listIssues] validates its time range before anything else.  When
    [validateTimeRange] rejects the range, [listIssues] throws that error
    as it is (without the field prefix of the searches) and makes no HTTP
    call; otherwise it makes exactly one GET request, whose query holds
    [start_time] and [end_time], in that order and encoded, followed by
    [limit] and [cursor] when they are truthy. *)
Theorem listIssues_validates_first (startTime endTime : string) (params : jsval)
  (w : effects) :
  (forall e, validateTimeRange new_Date toFixed1 (JStr startTime) (JStr endTime) = Throw e ->
     listIssues new_Date toFixed1 fetch startTime endTime params w = (Throw e, w)) /\
  (validateTimeRange new_Date toFixed1 (JStr startTime) (JStr endTime) = Ok tt ->
   http (snd (listIssues new_Date toFixed1 fetch startTime endTime params w)) =
   (http w ++ [ {| call_method := "GET";
                   call_path :=
                     "/issues?start_time=" ++ urlencode startTime
                     ++ "&end_time=" ++ urlencode endTime
                     ++ match pagination_pairs params with
                        | [] => ""
                        | pairs => "&" ++ URLSearchParams_toString pairs
                        end;
                   call_body := None |} ])%list).
Proof.
  split.
  - intros e He. now rewrite listIssues_unfold, He.
  - intros Hok. rewrite listIssues_unfold, Hok, request_get_http.
    cbn [app]. rewrite !URLSearchParams_toString_cons. cbn [fst snd].
    change (urlencode "start_time") with "start_time".
    change (urlencode "end_time") with "end_time".
    destruct (pagination_pairs params); reflexivity.
Qed.

(** X10. The parameters of a list method cannot reshape its URL: whatever
    the times, the limit and the cursor hold, the path of the request of
    [listIssues] has one [?], no [#] and no space, and one [=] per
    parameter with one [&] between two parameters, of which there are at
    most four; and the path of [listAccounts] and [listContacts] is the
    bare path when neither a limit nor a cursor is given, and otherwise has
    one [?] and the separators of its one or two parameters. *)
Theorem list_query_well_formed (startTime endTime : string) (params : jsval) :
  let query := URLSearchParams_toString
                 ([("start_time", startTime); ("end_time", endTime)]
                  ++ pagination_pairs params)%list in
  let n := List.length (pagination_pairs params) in
  (n <= 2)%nat
  /\ (forall w, validateTimeRange new_Date toFixed1 (JStr startTime) (JStr endTime) = Ok tt ->
        http (snd (listIssues new_Date toFixed1 fetch startTime endTime params w)) =
        (http w ++ [ {| call_method := "GET"; call_path := "/issues?" ++ query;
                        call_body := None |} ])%list)
  /\ count_char "?" ("/issues?" ++ query) = 1%nat
  /\ count_char "#" ("/issues?" ++ query) = 0%nat
  /\ count_char " " ("/issues?" ++ query) = 0%nat
  /\ count_char "=" ("/issues?" ++ query) = (2 + n)%nat
  /\ count_char "&" ("/issues?" ++ query) = (1 + n)%nat
  /\ (forall w,
        exists path,
          http (snd (listAccounts fetch params w)) =
          (http w ++ [ {| call_method := "GET"; call_path := "/accounts" ++ path;
                          call_body := None |} ])%list
          /\ (n = 0%nat -> path = "")
          /\ count_char "?" path = Nat.min n 1 /\ count_char "=" path = n
          /\ count_char "&" path = pred n /\ count_char "#" path = 0%nat)
  /\ (forall w,
        exists path,
          http (snd (listContacts fetch params w)) =
          (http w ++ [ {| call_method := "GET"; call_path := "/contacts" ++ path;
                          call_body := None |} ])%list
          /\ (n = 0%nat -> path = "")
          /\ count_char "?" path = Nat.min n 1 /\ count_char "=" path = n
          /\ count_char "&" path = pred n /\ count_char "#" path = 0%nat).
Proof.
  intros query n.
  destruct (URLSearchParams_toString_separators
              ([("start_time", startTime); ("end_time", endTime)]
               ++ pagination_pairs params)%list) as (Q1 & Q2 & Q3 & Q4 & Q5).
  fold query in Q1, Q2, Q3, Q4, Q5.
  cbn [app List.length pred] in Q1, Q2.
  assert (Hpath :
            exists path,
              (if negb (URLSearchParams_toString (pagination_pairs params) =? "")
               then "?" ++ URLSearchParams_toString (pagination_pairs params) else "") = path
              /\ (n = 0%nat -> path = "")
              /\ count_char "?" path = Nat.min n 1 /\ count_char "=" path = n
              /\ count_char "&" path = pred n /\ count_char "#" path = 0%nat).
  { eexists. split; [reflexivity|].
    destruct (URLSearchParams_toString_separators (pagination_pairs params))
      as (P1 & P2 & P3 & P4 & _).
    fold n in P1, P2.
    destruct (pagination_pairs params) as [|p ps] eqn:Hpairs.
    - subst n. cbn. now repeat split.
    - assert (Hne : (URLSearchParams_toString (p :: ps) =? "") = false).
      { apply String.eqb_neq. intros Hempty. rewrite Hempty in P2. subst n. discriminate P2. }
      rewrite Hne. cbn [negb]. subst n. cbn [List.length Nat.min] in *.
      change ("?" ++ ?x) with (String "?"%char x).
      cbn [count_char]. rewrite P1, P2, P3, P4.
      repeat split; try reflexivity; try discriminate.
      destruct (List.length ps); reflexivity. }
  split; [apply pagination_pairs_length|].
  split; [intros w Hok; now rewrite listIssues_unfold, Hok, request_get_http|].
  change ("/issues?" ++ query)
    with (String "/"%char (String "i"%char (String "s"%char (String "s"%char
            (String "u"%char (String "e"%char (String "s"%char (String "?"%char query)))))))).
  cbn [count_char]. rewrite Q1, Q2, Q3, Q4, Q5.
  split; [reflexivity|]. split; [reflexivity|]. split; [reflexivity|].
  split; [reflexivity|]. split; [reflexivity|].
  split.
  - intros w. destruct Hpath as (path & Heq & Hrest).
    exists path. split; [|exact Hrest].
    unfold listAccounts. cbv zeta. rewrite request_get_http, Heq. reflexivity.
  - intros w. destruct Hpath as (path & Heq & Hrest).
    exists path. split; [|exact Hrest].
    unfold listContacts. cbv zeta. rewrite request_get_http, Heq. reflexivity.
Qed.

End ListProperties.

Lemma listIssues_validates_first_witness :
  listIssues Runtime.new_Date Runtime.toFixed1 Runtime.fetch
    "2024-02-01T00:00:00Z" "2024-03-10T00:00:00Z" (JObj [("limit", JNum 25)]) no_effects
  = (Throw (Error "Time range cannot exceed 30 days. Requested: 38.0 days. Try a shorter range like 28 days."),
     no_effects)
  /\ http (snd (listIssues Runtime.new_Date Runtime.toFixed1 Runtime.fetch
                  "2024-02-01T00:00:00Z" "2024-02-10T00:00:00Z"
                  (JObj [("limit", JNum 0); ("cursor", JStr "a&limit=1000")]) no_effects))
     = [ {| call_method := "GET";
            call_path := "/issues?start_time=2024-02-01T00%3A00%3A00Z&end_time=2024-02-10T00%3A00%3A00Z&cursor=a%26limit%3D1000";
            call_body := None |} ].
Proof.
  split.
  - apply (proj1 (listIssues_validates_first Runtime.new_Date Runtime.toFixed1 Runtime.fetch
                    "2024-02-01T00:00:00Z" "2024-03-10T00:00:00Z"
                    (JObj [("limit", JNum 25)]) no_effects)).
    reflexivity.
  - apply (proj2 (listIssues_validates_first Runtime.new_Date Runtime.toFixed1 Runtime.fetch
                    "2024-02-01T00:00:00Z" "2024-02-10T00:00:00Z"
                    (JObj [("limit", JNum 0); ("cursor", JStr "a&limit=1000")]) no_effects)).
    reflexivity.
Defined.

(** ** More on stripping and truncation *)

Lemma length_replace_tags (b : bool) (s : string) :
  (String.length (replace_tags_from b s) <= String.length s)%nat.
Proof.
  revert b. induction s as [|c s IH]; intros b; simpl; [lia|].
  destruct b.
  - destruct (Ascii.eqb c GT); [specialize (IH false) | specialize (IH true)]; lia.
  - destruct (Ascii.eqb c LT && contains GT s); simpl;
      [specialize (IH true) | specialize (IH false)]; lia.
Qed.

Lemma length_collapse_ws (b : bool) (s : string) :
  (String.length (collapse_ws_from b s) <= String.length s)%nat.
Proof.
  revert b. induction s as [|c s IH]; intros b; simpl; [lia|].
  pose proof (IH true). pose proof (IH false).
  destruct (is_space c); [destruct b|]; simpl; lia.
Qed.

Lemma length_trim_start (s : string) :
  (String.length (trim_start s) <= String.length s)%nat.
Proof.
  induction s as [|c s IH]; simpl; [lia|]. destruct (is_space c); simpl; lia.
Qed.

Lemma length_trim_end (s : string) :
  (String.length (trim_end s) <= String.length s)%nat.
Proof.
  induction s as [|c s IH]; simpl; [lia|].
  destruct (trim_end s); [destruct (is_space c)|]; simpl in *; lia.
Qed.

Lemma length_strip_html (html : string) :
  (String.length (strip_html html) <= String.length html)%nat.
Proof.
  unfold strip_html, trim, collapse_ws, replace_tags.
  pose proof (length_replace_tags false html).
  pose proof (length_collapse_ws false (replace_tags_from false html)).
  pose proof (length_trim_start (collapse_ws_from false (replace_tags_from false html))).
  pose proof (length_trim_end
                (trim_start (collapse_ws_from false (replace_tags_from false html)))).
  lia.
Qed.

(** X11. Stripping never lengthens: the stripped text has at most the
    length of the HTML it comes from, and so has the result of
    [stripHtmlAndTruncate] for every bound of at least 3. *)
Theorem stripHtmlAndTruncate_not_longer (html : string) (n : Z) (out : string) :
  (3 <= n)%Z ->
  stripHtmlAndTruncate (JStr html) n = Ok out ->
  (String.length (strip_html html) <= String.length html)%nat
  /\ (String.length out <= String.length html)%nat.
Proof.
  intros Hn Hout. pose proof (length_strip_html html) as Hlen.
  split; [exact Hlen|].
  rewrite stripHtmlAndTruncate_string in Hout by lia. injection Hout as Hout.
  destruct (truncation_shape (strip_html html) n Hn out (eq_sym Hout))
    as (Hle & Hlong & Hfit & _).
  destruct (Z_le_gt_dec (Z.of_nat (String.length (strip_html html))) n) as [Hshort|Hlonger].
  - now rewrite (Hfit Hshort).
  - destruct (Hlong ltac:(lia)) as [_ Hn']. lia.
Qed.

Lemma stripHtmlAndTruncate_not_longer_witness :
  (String.length (strip_html "<p>Hello   <b>world</b></p>") <=
   String.length "<p>Hello   <b>world</b></p>")%nat
  /\ (String.length "Hello w..." <= String.length "<p>Hello   <b>world</b></p>")%nat.
Proof.
  apply (stripHtmlAndTruncate_not_longer "<p>Hello   <b>world</b></p>" 10 "Hello w...").
  - lia.
  - reflexivity.
Defined.

(** *** Text that is already plain *)

Lemma collapse_ws_single_spaced (b : bool) (s : string) :
  single_spaced s -> (b = true -> starts_with_ws s = false) ->
  collapse_ws_from b s = s.
Proof.
  revert b. induction s as [|c s IH]; intros b Hs Hb; simpl; [reflexivity|].
  apply single_spaced_cons in Hs as [Hc Hs].
  destruct (is_space c) eqn:Hsp.
  - destruct Hc as [Hc|[-> Hstart]]; [discriminate|].
    destruct b; [now specialize (Hb eq_refl)|].
    now rewrite (IH true Hs (fun _ => Hstart)).
  - now rewrite (IH false Hs (fun H => ltac:(discriminate H))).
Qed.

Lemma trim_end_no_trailing_ws_id (s : string) : ends_with_ws s = false -> trim_end s = s.
Proof.
  induction s as [|c s IH]; [reflexivity|].
  rewrite ends_with_ws_cons. cbn [trim_end].
  destruct s as [|d s].
  - simpl. now intros ->.
  - intros H. now rewrite (IH H).
Qed.

Lemma strip_html_plain (s : string) :
  has_tag s = false -> single_spaced s ->
  starts_with_ws s = false -> ends_with_ws s = false ->
  strip_html s = s.
Proof.
  intros Htag Hsp Hstart Hend. unfold strip_html, trim, collapse_ws.
  rewrite (replace_tags_no_tag s Htag).
  rewrite (collapse_ws_single_spaced false s Hsp (fun H => ltac:(discriminate H))).
  now rewrite (trim_start_no_leading_ws s Hstart), (trim_end_no_trailing_ws_id s Hend).
Qed.

(** X12. Plain text passes through unchanged: a string with no tag (no
    [<] with a [>] after it), whose white space is single plain spaces and
    which neither starts nor ends with white space, is its own stripped
    text, and [stripHtmlAndTruncate] returns it as it is when it fits the
    bound. *)
Theorem stripHtmlAndTruncate_plain_text (s : string) (n : Z) :
  has_tag s = false -> has_ws_run s = false -> ws_is_space s = true ->
  starts_with_ws s = false -> ends_with_ws s = false ->
  (Z.of_nat (String.length s) <= n)%Z ->
  strip_html s = s /\ stripHtmlAndTruncate (JStr s) n = Ok s.
Proof.
  intros Htag Hrun Hws Hstart Hend Hfit.
  assert (Hplain : strip_html s = s) by (apply strip_html_plain; try assumption; now split).
  split; [exact Hplain|].
  rewrite stripHtmlAndTruncate_string by lia. rewrite Hplain.
  destruct (Z.leb_spec (Z.of_nat (String.length s)) n); [reflexivity | lia].
Qed.

Lemma stripHtmlAndTruncate_plain_text_witness :
  strip_html "2 > 1, and a < b" = "2 > 1, and a < b"
  /\ stripHtmlAndTruncate (JStr "2 > 1, and a < b") 500 = Ok "2 > 1, and a < b".
Proof.
  apply (stripHtmlAndTruncate_plain_text "2 > 1, and a < b" 500); try reflexivity.
  vm_compute. discriminate.
Defined.

(** X13. [stripHtmlAndTruncate] is idempotent: for a bound of at least 3,
    applying it to its own result, with the same bound, returns that
    result; the ellipsis of a cut text is kept and no second one is
    added. *)
Theorem stripHtmlAndTruncate_idempotent (html : string) (n : Z) (out : string) :
  (3 <= n)%Z ->
  stripHtmlAndTruncate (JStr html) n = Ok out ->
  stripHtmlAndTruncate (JStr out) n = Ok out.
Proof.
  intros Hn Hout.
  rewrite stripHtmlAndTruncate_string in Hout by lia. injection Hout as Hout.
  destruct (strip_html_trimmed html) as (Hsp & Hstart & Hend).
  pose proof (strip_html_no_tag html) as Htag.
  destruct (truncation_shape (strip_html html) n Hn out (eq_sym Hout))
    as (Hlen & _ & _ & Htag' & Hsp' & Hstart' & Hend').
  assert (Hplain : strip_html out = out).
  { apply strip_html_plain; auto. }
  rewrite stripHtmlAndTruncate_string by lia. rewrite Hplain.
  destruct (Z.leb_spec (Z.of_nat (String.length out)) n); [reflexivity | lia].
Qed.

Lemma stripHtmlAndTruncate_idempotent_witness :
  stripHtmlAndTruncate (JStr "Hello w...") 10 = Ok "Hello w...".
Proof.
  apply (stripHtmlAndTruncate_idempotent
           "<p>Hello   <b>world</b>, this  is a long body</p>" 10 "Hello w...").
  - lia.
  - reflexivity.
Defined.

(** ** The tables of accounts and contacts *)

(** A cell with no delimiting pipe and no line feed. *)
Lemma row_cells_line (cells : list string) :
  cells <> [] ->
  Forall (fun cell => unescaped_pipes cell = 0%nat /\ line_feeds cell = 0%nat) cells ->
  unescaped_pipes ("| " ++ join " | " cells ++ " |") = S (List.length cells)
  /\ line_feeds ("| " ++ join " | " cells ++ " |") = 0%nat.
Proof.
  intros Hne Hcells.
  enough (H : unescaped_pipes_from false (join " | " cells ++ " |") = List.length cells
              /\ line_feeds (join " | " cells ++ " |") = 0%nat).
  { destruct H as [Hp Hl]. unfold unescaped_pipes.
    change ("| " ++ ?x) with (String PIPE (String SPACE x)).
    cbn [unescaped_pipes_from line_feeds].
    change (Ascii.eqb PIPE PIPE) with true. change (Ascii.eqb SPACE PIPE) with false.
    change (Ascii.eqb PIPE NEWLINE) with false. change (Ascii.eqb SPACE NEWLINE) with false.
    change (Ascii.eqb SPACE BACKSLASH) with false.
    cbn [andb negb]. rewrite Hp, Hl. split; reflexivity. }
  induction Hcells as [|cell cells [Hp Hl] Hcells IH]; [now elim Hne|].
  unfold unescaped_pipes in Hp.
  destruct cells as [|cell' cells].
  - cbn [join List.length]. rewrite unescaped_pipes_last, line_feeds_app, Hp, Hl.
    split; reflexivity.
  - destruct (IH ltac:(discriminate)) as [IHp IHl].
    change (join " | " (cell :: cell' :: cells))
      with (cell ++ " | " ++ join " | " (cell' :: cells)).
    rewrite !app_assoc_string.
    rewrite unescaped_pipes_delimiter, Hp, IHp.
    rewrite (line_feeds_app cell), (line_feeds_app " | "), Hl, IHl.
    split; [cbn [List.length]; lia | reflexivity].
Qed.

Lemma markdown_table_lines (headers : list string) (rows : list (list string)) :
  rows <> [] ->
  line_feeds (join " | " headers) = 0%nat ->
  Forall (fun row => line_feeds ("| " ++ join " | " row ++ " |") = 0%nat) rows ->
  line_count (markdown_table headers rows) = (2 + List.length rows)%nat.
Proof.
  intros Hne Hheaders Hrows. unfold markdown_table, line_count. cbv zeta.
  assert (Hsep : line_feeds (join "|" (map (fun _ : string => "---") headers)) = 0%nat).
  { clear. induction headers as [|h [|h' hs] IH]; try reflexivity.
    change (line_feeds ("---" ++ "|" ++ join "|" (map (fun _ : string => "---") (h' :: hs)))
            = 0%nat).
    now rewrite !line_feeds_app, IH. }
  rewrite !line_feeds_app, Hheaders, Hsep, line_feeds_rows.
  - rewrite length_map. destruct rows; [now elim Hne | simpl; lia].
  - now rewrite Forall_map.
Qed.

(** X15. The table of accounts cannot be broken by the values it shows:
    for every list of accounts, whatever their identifiers, names, domains
    and tags hold, the table is the message for the empty list or has one
    line per account after its two heading lines, and every row has the
    five delimiting pipes of its four columns. *)
Theorem formatAccountsAsTable_well_formed (accounts : list Account.AccountMinimal) :
  line_count (Account.formatAccountsAsTable accounts) =
    match accounts with
    | [] => 1%nat
    | _ => (2 + List.length accounts)%nat
    end
  /\ Forall (fun account =>
               unescaped_pipes ("| " ++ join " | " (Account.account_row account) ++ " |")
               = 5%nat)
       accounts.
Proof.
  assert (Hrow : forall account,
            unescaped_pipes ("| " ++ join " | " (Account.account_row account) ++ " |") = 5%nat
            /\ line_feeds ("| " ++ join " | " (Account.account_row account) ++ " |") = 0%nat).
  { intros account. apply (row_cells_line (Account.account_row account)); [discriminate|].
    unfold Account.account_row. repeat constructor; apply escapeCell_safe. }
  split.
  - unfold Account.formatAccountsAsTable.
    destruct accounts as [|account accounts]; [reflexivity|].
    cbn [List.length Nat.eqb].
    rewrite markdown_table_lines.
    + now rewrite length_map.
    + discriminate.
    + reflexivity.
    + rewrite Forall_map. apply Forall_forall. intros a _. apply Hrow.
  - apply Forall_forall. intros a _. apply Hrow.
Qed.

(** X16. The table of contacts cannot be broken by the values it shows:
    for every list of contacts the table is the message for the empty list
    or has one line per contact after its two heading lines, and every row
    has the five delimiting pipes of its four columns. *)
Theorem formatContactsAsTable_well_formed (contacts : list Contact.ContactMinimal) :
  line_count (Contact.formatContactsAsTable contacts) =
    match contacts with
    | [] => 1%nat
    | _ => (2 + List.length contacts)%nat
    end
  /\ Forall (fun contact =>
               unescaped_pipes ("| " ++ join " | " (Contact.contact_row contact) ++ " |")
               = 5%nat)
       contacts.
Proof.
  assert (Hrow : forall contact,
            unescaped_pipes ("| " ++ join " | " (Contact.contact_row contact) ++ " |") = 5%nat
            /\ line_feeds ("| " ++ join " | " (Contact.contact_row contact) ++ " |") = 0%nat).
  { intros contact. apply (row_cells_line (Contact.contact_row contact)); [discriminate|].
    unfold Contact.contact_row. repeat constructor; apply escapeCell_safe. }
  split.
  - unfold Contact.formatContactsAsTable.
    destruct contacts as [|contact contacts]; [reflexivity|].
    cbn [List.length Nat.eqb].
    rewrite markdown_table_lines.
    + now rewrite length_map.
    + discriminate.
    + reflexivity.
    + rewrite Forall_map. apply Forall_forall. intros a _. apply Hrow.
  - apply Forall_forall. intros a _. apply Hrow.
Qed.

Lemma formatIssuesAsTable_plain_links_witness :
  line_count (formatIssuesAsTable
                [ {| id := "I1"; number := Some 12%Z; title := "a|b" ++ nl ++ "c";
                     state := "new"; link := Some "https://app.example/issues/12";
                     created_at := Some "2024-01-02T03:04:05Z";
                     assignee_id := None; account_id := None; tags := None |} ])
  = 3%nat.
Proof.
  refine (proj1 (formatIssuesAsTable_plain_links
                   [ {| id := "I1"; number := Some 12%Z; title := "a|b" ++ nl ++ "c";
                        state := "new"; link := Some "https://app.example/issues/12";
                        created_at := Some "2024-01-02T03:04:05Z";
                        assignee_id := None; account_id := None; tags := None |} ] _ _)).
  - discriminate.
  - apply Forall_cons; [|apply Forall_nil].
    intros l [= <-]. split; reflexivity.
Defined.

(** ** The views of accounts, contacts and teams *)

(** X17. The account and contact views have a fixed shape: whatever the
    raw record holds, the minimal and the standard view have the same
    given keys, in the same order, so that no other field of the raw record
    is passed on; every field of the minimal view is a field of the standard
    view with the same value; and each field other than the extracted
    identifier holds the raw field of its name. *)
Theorem account_contact_views_fixed_shape (raw : obj) :
  keys (toAccountMinimal raw) = ["id"; "name"; "primary_domain"; "owner_id"; "tags"]
  /\ keys (toAccountStandard raw) =
       ["id"; "name"; "primary_domain"; "owner_id"; "tags"; "domains"; "created_at"; "type"]
  /\ keys (toContactMinimal raw) = ["id"; "name"; "email"; "account_id"; "portal_role"]
  /\ keys (toContactStandard raw) =
       ["id"; "name"; "email"; "account_id"; "portal_role"; "emails"; "avatar_url";
        "created_at"]
  /\ (forall k v, In (k, v) (toAccountMinimal raw) -> In (k, v) (toAccountStandard raw))
  /\ (forall k v, In (k, v) (toContactMinimal raw) -> In (k, v) (toContactStandard raw))
  /\ (forall k v, In (k, v) (toAccountStandard raw) -> k <> "owner_id" -> v = get raw k)
  /\ (forall k v, In (k, v) (toContactStandard raw) -> k <> "account_id" -> v = get raw k).
Proof.
  assert (Hacc : toAccountStandard raw =
                 (toAccountMinimal raw ++
                  [ ("domains", get raw "domains"); ("created_at", get raw "created_at");
                    ("type", get raw "type") ])%list) by reflexivity.
  assert (Hcon : toContactStandard raw =
                 (toContactMinimal raw ++
                  [ ("emails", get raw "emails"); ("avatar_url", get raw "avatar_url");
                    ("created_at", get raw "created_at") ])%list) by reflexivity.
  split; [reflexivity|]. split; [reflexivity|]. split; [reflexivity|].
  split; [reflexivity|].
  split; [intros k v Hin; rewrite Hacc; apply in_or_app; now left|].
  split; [intros k v Hin; rewrite Hcon; apply in_or_app; now left|].
  split.
  - rewrite Hacc, toAccountMinimal_fields. cbn [app In].
    intros k v H Hk.
    repeat (destruct H as [H|H]; [injection H as <- <-; try reflexivity; now elim Hk|]).
    destruct H.
  - rewrite Hcon, toContactMinimal_fields. cbn [app In].
    intros k v H Hk.
    repeat (destruct H as [H|H]; [injection H as <- <-; try reflexivity; now elim Hk|]).
    destruct H.
Qed.

Lemma toTeamStandard_fields (raw : obj) :
  toTeamStandard raw =
  [ ("id", get raw "id"); ("name", get raw "name");
    ("member_count", opt_length (get raw "users")); ("users", get raw "users") ].
Proof. reflexivity. Qed.

(** X18. The team views count the members.  When the raw team holds an
    array of users, [member_count] is the number of its elements in both
    views, and the standard view shows that same array; when the raw team
    has no users, [member_count] is [undefined] (and not 0); the minimal
    view never holds the list of users itself. *)
Theorem team_views_member_count (raw : obj) :
  (forall users, get raw "users" = JArr users ->
     get (toTeamMinimal raw) "member_count" = JNum (Z.of_nat (List.length users))
     /\ get (toTeamStandard raw) "member_count" = JNum (Z.of_nat (List.length users))
     /\ get (toTeamStandard raw) "users" = JArr users)
  /\ (nullish (get raw "users") = true ->
      get (toTeamMinimal raw) "member_count" = JUndefined
      /\ get (toTeamStandard raw) "member_count" = JUndefined)
  /\ keys (toTeamMinimal raw) = ["id"; "name"; "member_count"]
  /\ (forall k v, In (k, v) (toTeamMinimal raw) -> In (k, v) (toTeamStandard raw)).
Proof.
  rewrite toTeamStandard_fields.
  assert (Hmin : toTeamMinimal raw =
                 [ ("id", get raw "id"); ("name", get raw "name");
                   ("member_count", opt_length (get raw "users")) ]) by reflexivity.
  rewrite Hmin. cbn [get String.eqb Ascii.eqb Bool.eqb].
  split; [|split; [|split]].
  - intros users ->. now repeat split.
  - intros Hnull. destruct (get raw "users"); try discriminate Hnull; now split.
  - reflexivity.
  - intros k v H. simpl in *. tauto.
Qed.

Lemma team_views_member_count_witness :
  get (toTeamMinimal [ ("id", JStr "T1"); ("name", JStr "Support");
                       ("users", JArr [ JObj [("id", JStr "U1"); ("email", JStr "a@x.test")];
                                        JObj [("id", JStr "U2"); ("email", JStr "b@x.test")] ]) ])
      "member_count" = JNum 2
  /\ get (toTeamMinimal [ ("id", JStr "T2"); ("name", JStr "Empty") ]) "member_count"
     = JUndefined.
Proof.
  split.
  - exact (proj1 (proj1 (team_views_member_count
                           [ ("id", JStr "T1"); ("name", JStr "Support");
                             ("users", JArr [ JObj [("id", JStr "U1"); ("email", JStr "a@x.test")];
                                              JObj [("id", JStr "U2"); ("email", JStr "b@x.test")] ]) ])
                        _ eq_refl)).
  - exact (proj1 (proj1 (proj2 (team_views_member_count
                                  [ ("id", JStr "T2"); ("name", JStr "Empty") ]))
                        eq_refl)).
Defined.

(** ** Cells *)

(** X19. [truncate] keeps a cell within its width: for a width of at
    least 3 the result has at most that many characters; a value that fits
    is returned as it is, and a longer one is cut to its first characters,
    three fewer than the width, followed by the ellipsis. *)
Theorem truncate_bounded (value : string) (maxLength : Z) :
  (3 <= maxLength)%Z ->
  (Z.of_nat (String.length (truncate (Some value) maxLength)) <= maxLength)%Z
  /\ ((Z.of_nat (String.length value) <= maxLength)%Z ->
      truncate (Some value) maxLength = value)
  /\ ((maxLength < Z.of_nat (String.length value))%Z ->
      truncate (Some value) maxLength = take (Z.to_nat (maxLength - 3)) value ++ "...").
Proof.
  intros Hmax.
  assert (Heq : truncate (Some value) maxLength =
                if (Z.of_nat (String.length value) <=? maxLength)%Z then value
                else slice0 value (maxLength - 3) ++ "...").
  { unfold truncate, falsy. destruct (String.eqb_spec value "") as [->|_]; [|reflexivity].
    cbn. destruct (Z.leb_spec 0 maxLength); [reflexivity | lia]. }
  destruct (truncation_shape value maxLength Hmax _ Heq) as (Hlen & Hlong & Hfit & _).
  split; [exact Hlen|]. split; [exact Hfit|].
  intros H. exact (proj1 (Hlong H)).
Qed.

Lemma truncate_bounded_witness :
  (Z.of_nat (String.length (truncate (Some "Printer on fire in building 7") 10)) <= 10)%Z
  /\ ((Z.of_nat (String.length "Printer on fire in building 7") <= 10)%Z ->
      truncate (Some "Printer on fire in building 7") 10 = "Printer on fire in building 7")
  /\ ((10 < Z.of_nat (String.length "Printer on fire in building 7"))%Z ->
      truncate (Some "Printer on fire in building 7") 10
      = take (Z.to_nat (10 - 3)) "Printer on fire in building 7" ++ "...").
Proof.
  apply (truncate_bounded "Printer on fire in building 7" 10). lia.
Defined.

Lemma escape_plain (s : string) :
  contains PIPE s = false -> contains NEWLINE s = false ->
  replace_char NEWLINE " " (replace_char PIPE (String BACKSLASH "|") s) = s.
Proof.
  induction s as [|c s IH]; simpl; intros Hp Hn; [reflexivity|].
  apply orb_false_iff in Hp as [Hc Hp]. apply orb_false_iff in Hn as [Hc' Hn].
  rewrite Hc. simpl. rewrite Hc'. now rewrite IH.
Qed.

Lemma escape_length (s : string) :
  (String.length s <=
   String.length (replace_char NEWLINE " " (replace_char PIPE (String BACKSLASH "|") s))
   <= 2 * String.length s)%nat.
Proof.
  induction s as [|c s IH]; [simpl; lia|].
  destruct (Ascii.eqb_spec c PIPE) as [->|Hpipe].
  - rewrite replace_char_same. cbn [append].
    rewrite !(replace_char_other NEWLINE) by discriminate. simpl in *. lia.
  - rewrite (replace_char_other PIPE) by assumption.
    destruct (Ascii.eqb_spec c NEWLINE) as [->|Hnl].
    + rewrite replace_char_same. simpl in *. lia.
    + rewrite (replace_char_other NEWLINE) by assumption. simpl in *. lia.
Qed.

(** X20. [escapeCell] leaves ordinary text alone: a value with no pipe
    and no line feed is returned unchanged; and escaping never shortens a
    value and at most doubles its length. *)
Theorem escapeCell_plain_and_length (value : string) :
  (contains PIPE value = false -> contains NEWLINE value = false ->
   escapeCell (Some value) = value)
  /\ (String.length value <= String.length (escapeCell (Some value))
      <= 2 * String.length value)%nat.
Proof.
  unfold escapeCell, falsy.
  destruct (String.eqb_spec value "") as [->|_]; [split; [reflexivity | simpl; lia]|].
  split; [apply escape_plain | apply escape_length].
Qed.
